(** * dialogue-kt: training and evaluation core ([training.py])

    A shallow embedding of the orchestration code of [training.py]:
    the metrics engine, the KC-probability aggregators (unpacked, packed and
    baseline), the checkpoint selection and the gradient accumulation of the
    training loops, the two evaluation drivers, the defaults of the run
    configuration, cross-validation and the embedding matrix of the KCs,
    together with the properties the specification states about them and
    further properties of the code.

    Numeric conventions.  Floats are rationals ([Q]): every finite float is
    one, and comparisons, counting and thresholding stay executable.
    Arithmetic is exact (rounding, infinities and NaN are not modelled), and
    the [exp] and [log] of the tensor library are parameters.  Tensors are
    nested lists, indexed from 0.  Python exceptions are values of [exn],
    and a function that may raise returns a [result]. *)

From Stdlib Require Import String.
From Stdlib Require Import List Bool Arith ZArith QArith Qround Qminmax Lia.
From Stdlib Require Import Sorted Permutation.
Import ListNotations.

Set Implicit Arguments.

(** ** Python values, exceptions and sequences *)

Module Py.

Inductive exn : Type :=
| Exception (msg : string)          (* raise Exception(...) *)
| ValueError (msg : string)
| IndexError
| RuntimeError (msg : string)
| UnboundLocalError (var : string)
| ZeroDivisionError.

Inductive result (A : Type) : Type :=
| Ok (a : A)
| Raise (e : exn).
Arguments Ok {A} a.
Arguments Raise {A} e.

Definition bind {A B} (m : result A) (k : A -> result B) : result B :=
  match m with
  | Ok a => k a
  | Raise e => Raise e
  end.

Definition fmap {A B} (f : A -> B) (m : result A) : result B :=
  bind m (fun a => Ok (f a)).

Fixpoint mapM {A B} (f : A -> result B) (l : list A) : result (list B) :=
  match l with
  | [] => Ok []
  | x :: l' => bind (f x) (fun y => bind (mapM f l') (fun ys => Ok (y :: ys)))
  end.

(** [l[i]] for a non-negative index: [IndexError] out of range. *)
Definition index {A} (l : list A) (i : nat) : result A :=
  match nth_error l i with
  | Some x => Ok x
  | None => Raise IndexError
  end.

(** [l[i]] for a signed index: a negative index counts from the end. *)
Definition zindex {A} (l : list A) (i : Z) : result A :=
  if (i <? 0)%Z
  then (if (i + Z.of_nat (length l) <? 0)%Z then Raise IndexError
        else index l (Z.to_nat (i + Z.of_nat (length l))))
  else index l (Z.to_nat i).

(** [l[c : c + n]]: slicing never raises, it truncates. *)
Definition slice {A} (l : list A) (c n : nat) : list A :=
  firstn n (skipn c l).

End Py.

Import Py.

Declare Scope result_scope.
Delimit Scope result_scope with result.
Notation "x <- m ;; k" := (Py.bind m (fun x => k))
  (at level 61, m at next level, right associativity) : result_scope.
Notation "' pat <- m ;; k" := (Py.bind m (fun x => match x with pat => k end))
  (at level 61, pat pattern, m at next level, right associativity) : result_scope.
Local Open Scope result_scope.

(** ** Checkpoint selection in [train_lmkt] and [train_baseline]

    Both training loops end an epoch with
    [if not best_val_loss or avg_val_loss < best_val_loss: save; best_val_loss = avg_val_loss].
    The model, the optimiser and the data are opaque here: an epoch is
    summarised by its average validation loss. *)

Module Training.

Definition Qlt_bool (x y : Q) : bool := negb (Qle_bool y x).

(** Python's [not x] for [x] either [None] or a float: true on [None]
    and on [0.0]. *)
Definition py_not (x : option Q) : bool :=
  match x with
  | None => true
  | Some q => Qeq_bool q 0
  end.

Record loop_state : Type := {
  best_val_loss : option Q;
  (** epoch (0-based) whose weights are in the checkpoint file, if any *)
  checkpoint : option nat;
  (** epochs at which the checkpoint file was written, oldest first *)
  writes : list nat
}.

Definition init_state : loop_state :=
  {| best_val_loss := None; checkpoint := None; writes := [] |}.

(** The test guarding the save. *)
Definition is_best (best : option Q) (avg_val_loss : Q) : bool :=
  py_not best ||
  match best with
  | Some b => Qlt_bool avg_val_loss b
  | None => false
  end.

(** End of one epoch. *)
Definition end_of_epoch (st : loop_state) (epoch : nat) (avg_val_loss : Q)
  : loop_state :=
  if is_best (best_val_loss st) avg_val_loss
  then {| best_val_loss := Some avg_val_loss;
          checkpoint := Some epoch;
          writes := writes st ++ [epoch] |}
  else st.

(** [for epoch in range(args.epochs)], epoch [e] having validation loss
    [nth e val_losses]. *)
Fixpoint epochs_from (st : loop_state) (epoch : nat) (val_losses : list Q)
  : loop_state :=
  match val_losses with
  | [] => st
  | v :: rest => epochs_from (end_of_epoch st epoch v) (S epoch) rest
  end.

Definition train_loop (val_losses : list Q) : loop_state :=
  epochs_from init_state 0 val_losses.

(** What the specification asks for: the first index of the minimum,
    scanning epoch by epoch and keeping the earlier epoch on ties. *)
Fixpoint argmin_from (best : option (nat * Q)) (epoch : nat) (vs : list Q)
  : option nat :=
  match vs with
  | [] => option_map fst best
  | v :: rest =>
      match best with
      | None => argmin_from (Some (epoch, v)) (S epoch) rest
      | Some (_, b) =>
          if Qlt_bool v b
          then argmin_from (Some (epoch, v)) (S epoch) rest
          else argmin_from best (S epoch) rest
      end
  end.

Definition first_argmin (vs : list Q) : option nat := argmin_from None 0 vs.

(** Epochs at which the loss strictly improves on the best seen so far
    (the first epoch included). *)
Fixpoint improvements_from (best : option Q) (epoch : nat) (vs : list Q)
  : list nat :=
  match vs with
  | [] => []
  | v :: rest =>
      match best with
      | None => epoch :: improvements_from (Some v) (S epoch) rest
      | Some b =>
          if Qlt_bool v b
          then epoch :: improvements_from (Some v) (S epoch) rest
          else improvements_from best (S epoch) rest
      end
  end.

Definition improvements (vs : list Q) : list nat := improvements_from None 0 vs.

End Training.

(** ** Tensor operations used by the aggregators

    Floats are rationals; [exp] and [log] of the tensor library are the two
    functions of a [float_funs], on which no assumption is made. *)

Module Torch.

Record float_funs : Type := { f_exp : Q -> Q; f_log : Q -> Q }.

(** The floating-point types a language model may run in, and
    [torch.finfo(dtype).min], which is an integer for each of them. *)
Inductive float_dtype : Type := float16 | bfloat16 | float32.

Definition finfo_min (d : float_dtype) : Z :=
  match d with
  | float16 => -65504
  | bfloat16 => - (2 ^ 128 - 2 ^ 120)
  | float32 => - (2 ^ 128 - 2 ^ 104)
  end%Z.

(** [t.prod()]: 1 on an empty tensor. *)
Definition prod (l : list Q) : Q := fold_right Qmult 1 l.

(** [torch.softmax(torch.stack([a, b]), dim)[0]]. *)
Definition softmax_first (ff : float_funs) (a b : Q) : Q :=
  f_exp ff a / (f_exp ff a + f_exp ff b).

(** Pairing of two tensors of the same length; a shape mismatch raises. *)
Fixpoint zip_strict {A B} (l : list A) (m : list B) : result (list (A * B)) :=
  match l, m with
  | [], [] => Ok []
  | x :: l', y :: m' => r <- zip_strict l' m' ;; Ok ((x, y) :: r)
  | _, _ => Raise (RuntimeError "shape mismatch")
  end.

(** [torch.masked_scatter(p, mask, torch.ones_like(p))] on one row: every
    element of the source is 1, so each selected position receives 1. *)
Definition masked_ones (p : list Q) (mask : list bool) : result (list Q) :=
  r <- zip_strict p mask ;;
  Ok (map (fun pm : Q * bool => if snd pm then 1 else fst pm) r).

(** [torch.gather(row, 0, ids)]: an index out of range raises. *)
Definition gather_row (row : list Q) (ids : list nat) : result (list Q) :=
  mapM (index row) ids.

(** [x[mask]] for a boolean mask of the shape of [x]. *)
Definition select {A} (x : list A) (mask : list bool) : result (list A) :=
  match zip_strict x mask with
  | Ok r => Ok (map fst (filter snd r))
  | Raise _ => Raise IndexError
  end.

(** [torch.nn.BCELoss()] with its default mean reduction.  The logarithms
    are clamped at -100; inputs outside [0,1] and a target of another
    size raise.  On empty tensors torch returns NaN, which [Q] does not
    have: the value below is then [0 / 0 = 0]. *)
Definition clamped_log (ff : float_funs) (x : Q) : Q :=
  Qmax (f_log ff x) (-100).

Definition bce_term (ff : float_funs) (xy : Q * Q) : Q :=
  let (x, y) := xy in
  - (y * clamped_log ff x + (1 - y) * clamped_log ff (1 - x)).

Definition Qsum (l : list Q) : Q := fold_right Qplus 0 l.

Definition in_unit_interval (x : Q) : bool := Qle_bool 0 x && Qle_bool x 1.

Definition BCELoss (ff : float_funs) (input target : list Q) : result Q :=
  match zip_strict input target with
  | Raise _ => Raise (ValueError "target size is different to the input size")
  | Ok pairs =>
      if forallb in_unit_interval input
      then Ok (Qsum (map (bce_term ff) pairs) / inject_Z (Z.of_nat (length pairs)))
      else Raise (RuntimeError "all elements of input should be between 0 and 1")
  end.

End Torch.

Import Torch.

(** ** Language-model knowledge tracing *)

Module LMKT.

(** One entry of [batch["meta_data"]]: the dialogue a turn comes from and
    the names of its KCs. *)
Record sample : Type := { dialogue_idx : nat; kcs : list string }.

(** Logits of a language model: batch x position x vocabulary. *)
Definition logits_t : Type := list (list (list Q)).

(** A causal language model: opaque apart from its dtype.  [forward] takes
    the token ids, the attention mask and, for packed batches, the position
    ids. *)
Record lm : Type := {
  dtype : float_dtype;
  forward : list (list Z) -> list (list Z) -> option (list (list Z)) -> logits_t
}.

(** A batch of [LMKTCollatorUnpacked]: one row per (turn, KC) pair,
    [num_kcs] and [labels] having one entry per turn.  The label tensor
    holds the floats 0.0 and 1.0: its entries are integers here, injected
    into the floats where the loss reads them. *)
Record batch_unpacked : Type := {
  u_input_ids : list (list Z);
  u_attention_mask : list (list Z);
  u_last_idxs : list nat;
  u_num_kcs : list nat;
  u_labels : list Z;
  u_meta_data : list sample
}.

(** A batch of [LMKTCollatorPacked]: one row per turn, with one answer
    position per KC slot. *)
Record batch_packed : Type := {
  p_input_ids : list (list Z);
  p_attention_mask : list (list Z);
  p_position_ids : list (list Z);
  p_last_idxs : list (list nat);
  p_num_kcs : list nat;
  p_labels : list Z;
  p_meta_data : list sample
}.

Section Aggregators.
Variable ff : float_funs.
Variables true_token false_token : nat.

(** Probability of the True token against the False token, from the
    vocabulary logits at one answer position. *)
Definition true_prob (v : list Q) : result Q :=
  lt <- index v true_token ;;
  lf <- index v false_token ;;
  Ok (softmax_first ff lt lf).

(** [logits[torch.arange(B), last_idxs]], then the softmax: one
    probability per row. *)
Definition kc_probs_unpacked (logits : logits_t) (last_idxs : list nat)
  : result (list Q) :=
  match zip_strict logits last_idxs with
  | Raise _ => Raise IndexError
  | Ok rows =>
      mapM (fun ri : list (list Q) * nat =>
              v <- index (fst ri) (snd ri) ;; true_prob v) rows
  end.

(** The loop over [batch["num_kcs"]]: the groups of KC probabilities and
    their products, [counter] being [num_kc_counter]. *)
Fixpoint group_loop (kc_probs : list Q) (num_kcs : list nat) (counter : nat)
  : list (list Q) * list Q :=
  match num_kcs with
  | [] => ([], [])
  | n :: rest =>
      let seg := slice kc_probs counter n in
      let (grouped, corr) := group_loop kc_probs rest (counter + n) in
      (seg :: grouped, prod seg :: corr)
  end.

(** [torch.stack] of a list of scalars: an empty list raises. *)
Definition stack (l : list Q) : result (list Q) :=
  match l with
  | [] => Raise (RuntimeError "stack expects a non-empty TensorList")
  | _ => Ok l
  end.

Definition get_lmkt_loss_unpacked (model : lm) (batch : batch_unpacked)
  : result (Q * list (list Q) * list Q) :=
  let logits := forward model (u_input_ids batch) (u_attention_mask batch) None in
  kc_probs <- kc_probs_unpacked logits (u_last_idxs batch) ;;
  let (kc_probs_grouped, corr_list) := group_loop kc_probs (u_num_kcs batch) 0 in
  corr_probs <- stack corr_list ;;
  loss <- BCELoss ff corr_probs (map inject_Z (u_labels batch)) ;;
  Ok (loss, kc_probs_grouped, corr_probs).

(** The in-place inversion of the attention mask: first the zeros become
    [min_dtype], then the ones become zero. *)
Definition invert_entry (min_dtype : Z) (x : Z) : Z :=
  let x1 := if (x =? 0)%Z then min_dtype else x in
  if (x1 =? 1)%Z then 0%Z else x1.

Definition invert_mask (min_dtype : Z) (mask : list (list Z)) : list (list Z) :=
  map (map (invert_entry min_dtype)) mask.

(** [logits[torch.arange(B).unsqueeze(1), last_idxs]], then the softmax:
    one probability per turn and KC slot. *)
Definition kc_probs_packed (logits : logits_t) (last_idxs : list (list nat))
  : result (list (list Q)) :=
  match zip_strict logits last_idxs with
  | Raise _ => Raise IndexError
  | Ok rows =>
      mapM (fun ri : list (list Q) * list nat =>
              mapM (fun i => v <- index (fst ri) i ;; true_prob v) (snd ri))
           rows
  end.

(** One row of the packed reduction: the probabilities at the slots whose
    answer position is 0 are set to 1, then the row is multiplied. *)
Definition corr_prob_packed (probs : list Q) (last_idxs : list nat) : result Q :=
  masked <- masked_ones probs (map (Nat.eqb 0) last_idxs) ;;
  Ok (prod masked).

(** [get_lmkt_loss_packed] overwrites [batch["attention_mask"]]: it
    returns the batch as it is after the call, next to its result. *)
Definition get_lmkt_loss_packed (model : lm) (batch : batch_packed)
  : batch_packed * result (Q * list (list Q) * list Q) :=
  let attention_mask :=
    invert_mask (finfo_min (dtype model)) (p_attention_mask batch) in
  let batch' :=
    {| p_input_ids := p_input_ids batch;
       p_attention_mask := attention_mask;
       p_position_ids := p_position_ids batch;
       p_last_idxs := p_last_idxs batch;
       p_num_kcs := p_num_kcs batch;
       p_labels := p_labels batch;
       p_meta_data := p_meta_data batch |} in
  let logits :=
    forward model (p_input_ids batch') attention_mask (Some (p_position_ids batch')) in
  (batch',
   kc_probs <- kc_probs_packed logits (p_last_idxs batch') ;;
   let kc_probs_grouped :=
     map (fun pn : list Q * nat => firstn (snd pn) (fst pn))
         (combine kc_probs (p_num_kcs batch')) in
   rows <- zip_strict kc_probs (p_last_idxs batch') ;;
   corr_probs <- mapM (fun pl : list Q * list nat => corr_prob_packed (fst pl) (snd pl)) rows ;;
   loss <- BCELoss ff corr_probs (map inject_Z (p_labels batch')) ;;
   Ok (loss, kc_probs_grouped, corr_probs)).

End Aggregators.

End LMKT.

(** ** Metrics engine

    [accuracy_score], [roc_auc_score] and [precision_recall_fscore_support]
    are scikit-learn's; they are modelled on integer labels and rational
    scores, with the errors they raise on degenerate input. *)

Module Metrics.

(** [np.round]: to the nearest integer, halves to the even one. *)
Definition np_round (q : Q) : Z :=
  let f := Qfloor q in
  match Qcompare (q - inject_Z f) (1 # 2) with
  | Lt => f
  | Gt => (f + 1)%Z
  | Eq => if Z.even f then f else (f + 1)%Z
  end.

Definition ratio (a b : nat) : Q :=
  inject_Z (Z.of_nat a) / inject_Z (Z.of_nat b).

Definition count {A} (p : A -> bool) (l : list A) : nat := length (filter p l).

Definition inconsistent {A} : result A :=
  Raise (ValueError "Found input variables with inconsistent numbers of samples").

(** Fraction of positions where label and hard prediction agree.  (On
    empty input scikit-learn returns NaN; the value here is [0 / 0 = 0],
    and [roc_auc_score] raises on that input right after.) *)
Definition accuracy_score (labels hard_preds : list Z) : result Q :=
  if negb (length labels =? length hard_preds)%nat then inconsistent
  else Ok (ratio (count (fun lh : Z * Z => (fst lh =? snd lh)%Z)
                        (combine labels hard_preds))
                 (length labels)).

Definition classes (labels : list Z) : list Z := nodup Z.eq_dec labels.

(** Score of a (positive, negative) pair in the Mann-Whitney statistic. *)
Definition pair_score (sp sn : Q) : Q :=
  match Qcompare sp sn with
  | Gt => 1
  | Eq => 1 # 2
  | Lt => 0
  end.

Definition scores_of (c : Z) (labels : list Z) (preds : list Q) : list Q :=
  map snd (filter (fun lp : Z * Q => (fst lp =? c)%Z) (combine labels preds)).

(** The error of [roc_auc_score] on a label vector with a single class. *)
Definition only_one_class : exn :=
  ValueError "Only one class present in y_true. ROC AUC score is not defined in that case.".

(** Area under the ROC curve.  Binary labels only, the greater class being
    the positive one; a label vector with a single class raises. *)
Definition roc_auc_score (labels : list Z) (preds : list Q) : result Q :=
  if negb (length labels =? length preds)%nat then inconsistent
  else
    match classes labels with
    | [] => Raise (ValueError "Found array with 0 sample(s)")
    | [_] => Raise only_one_class
    | [c1; c2] =>
        let pos := scores_of (Z.max c1 c2) labels preds in
        let neg := scores_of (Z.min c1 c2) labels preds in
        Ok (Qsum (flat_map (fun sp => map (pair_score sp) neg) pos)
            / inject_Z (Z.of_nat (length pos * length neg)))
    | _ => Raise (ValueError "multi_class must be in ('ovo', 'ovr')")
    end.

(** [precision_recall_fscore_support(..., average="binary")] with the
    default positive label 1 and the default [zero_division], which turns
    an undefined ratio into 0.  The support is not returned. *)
Definition precision_recall_fscore_support (labels hard_preds : list Z)
  : result (Q * Q * Q) :=
  if negb (length labels =? length hard_preds)%nat then inconsistent
  else
    let present := nodup Z.eq_dec (labels ++ hard_preds) in
    if (2 <? length present)%nat
    then Raise (ValueError "Target is multiclass but average='binary'")
    else if ((length present =? 2)%nat && negb (existsb (Z.eqb 1) present))
    then Raise (ValueError "pos_label=1 is not a valid label")
    else
      let pairs := combine labels hard_preds in
      let tp := count (fun lh : Z * Z => (fst lh =? 1)%Z && (snd lh =? 1)%Z) pairs in
      let pred_pos := count (fun lh : Z * Z => (snd lh =? 1)%Z) pairs in
      let true_pos := count (fun lh : Z * Z => (fst lh =? 1)%Z) pairs in
      Ok (ratio tp pred_pos, ratio tp true_pos, ratio (2 * tp) (true_pos + pred_pos)).

Definition metrics_t : Type := (Q * Q * Q * Q * Q)%type.

Definition compute_metrics (labels : list Z) (preds : list Q) : result metrics_t :=
  let hard_preds := map np_round preds in
  acc <- accuracy_score labels hard_preds ;;
  auc <- roc_auc_score labels preds ;;
  ' (prec, rec, f1) <- precision_recall_fscore_support labels hard_preds ;;
  Ok (acc * 100, auc * 100, prec * 100, rec * 100, f1 * 100).

(** The lines of the report about one population of turns. *)
Record population : Type := {
  n_samples : nat;
  gt_true : Z;
  gt_false : Z;
  pred_true : Z;
  pred_false : Z;
  pop_metrics : metrics_t
}.

(** The text written to [results/metrics_<suffix>.txt], as the values it
    prints. *)
Record report : Type := {
  rep_loss : Q;
  rep_overall : population;
  rep_final : population
}.

Definition Zsum (l : list Z) : Z := fold_right Z.add 0%Z l.

Definition describe (labels : list Z) (preds : list Q) (m : metrics_t) : population :=
  {| n_samples := length labels;
     gt_true := Zsum labels;
     gt_false := (Z.of_nat (length labels) - Zsum labels)%Z;
     pred_true := Zsum (map np_round preds);
     pred_false := (Z.of_nat (length preds) - Zsum (map np_round preds))%Z;
     pop_metrics := m |}.

(** [compute_all_metrics]; [suffix] is [get_model_file_suffix(args, fold)].
    The file is written last: the result carries its path and content. *)
Definition compute_all_metrics (loss : Q) (all_labels : list Z) (all_preds : list Q)
    (final_turn_labels : list Z) (final_turn_preds : list Q) (suffix : string)
  : result (string * report * (metrics_t * metrics_t)) :=
  all_metrics <- compute_metrics all_labels all_preds ;;
  final_metrics <- compute_metrics final_turn_labels final_turn_preds ;;
  let result_str :=
    {| rep_loss := loss;
       rep_overall := describe all_labels all_preds all_metrics;
       rep_final := describe final_turn_labels final_turn_preds final_metrics |} in
  Ok (("results/metrics_" ++ suffix ++ ".txt")%string, result_str,
      (all_metrics, final_metrics)).

(** [[*metrics]]: a metric tuple unpacked into a list. *)
Definition unpack (m : metrics_t) : list Q :=
  let '(acc, auc, prec, rec, f1) := m in [acc; auc; prec; rec; f1].

End Metrics.

(** ** Evaluation driver of the language-model path: [test_lmkt]

    Loading the model and building the data loader are collaborators: the
    driver is given the batches.  [get_loss] is [get_lmkt_loss_packed] or
    [get_lmkt_loss_unpacked], as [args.pack_kcs] selects. *)

Module EvalLM.

Import LMKT Metrics.

(** [dialogue_idx_to_sample_idxs]: a dict, whose keys keep the order of
    their first insertion. *)
Definition index_map : Type := list (nat * list nat).

(** [d.setdefault(key, []).append(v)]. *)
Fixpoint setdefault_append (d : index_map) (key v : nat) : index_map :=
  match d with
  | [] => [(key, [v])]
  | (k, l) :: d' =>
      if (k =? key)%nat then (k, l ++ [v]) :: d'
      else (k, l) :: setdefault_append d' key v
  end.

(** [for sample_idx, sample in enumerate(batch["meta_data"])]. *)
Fixpoint record_samples (d : index_map) (batch_idx sample_idx : nat)
    (meta : list sample) : index_map :=
  match meta with
  | [] => d
  | s :: rest =>
      record_samples (setdefault_append d (dialogue_idx s) (batch_idx + sample_idx))
                     batch_idx (S sample_idx) rest
  end.

Record collected : Type := {
  dialogue_idx_to_sample_idxs : index_map;
  all_labels : list Z;
  all_preds : list Q;
  all_kc_probs : list (list Q);
  all_kcs : list (list string);
  total_loss : Q
}.

Definition empty_collected : collected :=
  {| dialogue_idx_to_sample_idxs := []; all_labels := []; all_preds := [];
     all_kc_probs := []; all_kcs := []; total_loss := 0 |}.

(** What the driver produces: the two files and the returned vector. *)
Record evaluation : Type := {
  metrics_path : string;
  metrics_report : report;
  kc_results : list (nat * list (list (string * Q)));
  returned : list Q
}.

Section Driver.
Variable Batch : Type.
Variable meta_data : Batch -> list sample.
Variable labels : Batch -> list Z.
Variable get_loss : Batch -> result (Q * list (list Q) * list Q).

(** Body of the loop over the batches. *)
Definition process_batch (st : collected) (batch_idx : nat) (batch : Batch)
  : result collected :=
  let d := record_samples (dialogue_idx_to_sample_idxs st) batch_idx 0
                          (meta_data batch) in
  ' (loss, kc_probs, corr_probs) <- get_loss batch ;;
  Ok {| dialogue_idx_to_sample_idxs := d;
        all_labels := all_labels st ++ labels batch;
        all_preds := all_preds st ++ corr_probs;
        all_kc_probs := all_kc_probs st ++ kc_probs;
        all_kcs := all_kcs st ++ map kcs (meta_data batch);
        total_loss := total_loss st + loss |}.

(** [for batch_idx, batch in enumerate(test_dataloader)]. *)
Fixpoint batches_from (st : collected) (batch_idx : nat) (loader : list Batch)
  : result collected :=
  match loader with
  | [] => Ok st
  | batch :: rest =>
      st' <- process_batch st batch_idx batch ;;
      batches_from st' (S batch_idx) rest
  end.

Definition collect (loader : list Batch) : result collected :=
  batches_from empty_collected 0 loader.

(** [[xs[idxs[-1]] for idxs in d.values()]]. *)
Definition final_turns {A} (d : index_map) (xs : list A) : result (list A) :=
  mapM (fun kv : nat * list nat => i <- zindex (snd kv) (-1) ;; index xs i) d.

Definition average_loss (total : Q) (n_batches : nat) : result Q :=
  match n_batches with
  | O => Raise ZeroDivisionError
  | _ => Ok (total / inject_Z (Z.of_nat n_batches))
  end.

(** The exported KC probabilities: per dialogue, per turn, the KC names
    zipped with their probabilities. *)
Definition kc_results_of (st : collected)
  : result (list (nat * list (list (string * Q)))) :=
  mapM (fun kv : nat * list nat =>
          turns <- mapM (fun sample_idx =>
                           ks <- index (all_kcs st) sample_idx ;;
                           ps <- index (all_kc_probs st) sample_idx ;;
                           Ok (combine ks ps))
                        (snd kv) ;;
          Ok (fst kv, turns))
       (dialogue_idx_to_sample_idxs st).

(** [suffix] is [get_model_file_suffix(args, fold)]. *)
Definition test_lmkt (suffix : string) (test_dataloader : list Batch)
  : result evaluation :=
  st <- collect test_dataloader ;;
  loss <- average_loss (total_loss st) (length test_dataloader) ;;
  final_turn_labels <- final_turns (dialogue_idx_to_sample_idxs st) (all_labels st) ;;
  final_turn_preds <- final_turns (dialogue_idx_to_sample_idxs st) (all_preds st) ;;
  ' (path, rep, (all_metrics, final_metrics)) <-
    compute_all_metrics loss (all_labels st) (all_preds st)
                        final_turn_labels final_turn_preds suffix ;;
  kc <- kc_results_of st ;;
  Ok {| metrics_path := path;
        metrics_report := rep;
        kc_results := kc;
        returned := loss :: unpack all_metrics ++ unpack final_metrics |}.

End Driver.

(** The two instances of the driver. *)
Definition test_lmkt_unpacked (ff : float_funs) (true_token false_token : nat)
    (model : lm) (suffix : string) (loader : list batch_unpacked) : result evaluation :=
  test_lmkt u_meta_data u_labels
            (get_lmkt_loss_unpacked ff true_token false_token model) suffix loader.

Definition test_lmkt_packed (ff : float_funs) (true_token false_token : nat)
    (model : lm) (suffix : string) (loader : list batch_packed) : result evaluation :=
  test_lmkt p_meta_data p_labels
            (fun batch => snd (get_lmkt_loss_packed ff true_token false_token model batch))
            suffix loader.

(** The stream of (dialogue, label, prediction) triples the batches are
    made of, in the order in which the loader yields them. *)
Definition stream_of {A} (ids : list nat) (xs : list A) : list (nat * A) :=
  combine ids xs.

(** What the specification asks of the final-turn arrays: one entry per
    dialogue, in the order in which the dialogues first appear, holding the
    dialogue's last entry in the stream. *)
Fixpoint last_of_dialogue {A} (d : nat) (stream : list (nat * A)) : option A :=
  match stream with
  | [] => None
  | (k, x) :: rest =>
      match last_of_dialogue d rest with
      | Some y => Some y
      | None => if (k =? d)%nat then Some x else None
      end
  end.

Fixpoint first_seen (seen : list nat) (ids : list nat) : list nat :=
  match ids with
  | [] => []
  | k :: rest =>
      if existsb (Nat.eqb k) seen then first_seen seen rest
      else k :: first_seen (k :: seen) rest
  end.

Definition last_per_dialogue {A} (stream : list (nat * A)) : list (option A) :=
  map (fun d => last_of_dialogue d stream) (first_seen [] (map fst stream)).

End EvalLM.

(** ** Baseline sequence models *)

Module Baselines.

Import Metrics.

Definition BASELINE_MODELS : list string :=
  ["dkt-multi"; "dkt-sem"; "dkt"; "akt"; "dkvmn"; "saint"; "simplekt"]%string.

Definition NON_FLAT_KC_ARCH : list string := ["dkt-multi"; "dkt-sem"]%string.

Definition py_in (x : string) (l : list string) : bool := existsb (String.eqb x) l.

(** The ignore sentinel of the label tensors. *)
Definition IGNORE : Z := (-100)%Z.

Definition tensor3 : Type := list (list (list Q)).

(** A batch of [DKTCollator]: one row per dialogue.  [kc_ids] is
    batch x turn x KC slot, [num_kcs] and [labels] are batch x turn. *)
Record batch : Type := {
  kc_ids : list (list (list nat));
  num_kcs : list (list nat);
  labels : list (list Z);
  kc_ids_flat : list (list nat);
  labels_flat : list (list Z);
  turn_end_idxs : list (list nat)
}.

Definition set_turn_end_idxs (b : batch) (idxs : list (list nat)) : batch :=
  {| kc_ids := kc_ids b; num_kcs := num_kcs b; labels := labels b;
     kc_ids_flat := kc_ids_flat b; labels_flat := labels_flat b;
     turn_end_idxs := idxs |}.

(** [t.max()] over a whole tensor: raises on an empty one. *)
Definition tensor_max (t : list (list nat)) : result nat :=
  match concat t with
  | [] => Raise (RuntimeError "max(): Expected reduction dim to be specified for input.numel() == 0")
  | x :: l => Ok (fold_left Nat.max l x)
  end.

(** [torch.clip(t + 1, max=m)]. *)
Definition shift_clip (m : nat) (t : list (list nat)) : list (list nat) :=
  map (map (fun i => Nat.min (i + 1) m)) t.

(** [torch.gather(y, 1, idxs.unsqueeze(2).repeat(1, 1, y.shape[2]))]:
    row [b] of the result holds the vectors [y[b][idxs[b][t]]]. *)
Fixpoint gather_dim1 (y : tensor3) (idxs : list (list nat)) {struct idxs}
  : result tensor3 :=
  match idxs with
  | [] => Ok []
  | i :: idxs' =>
      match y with
      | [] => Raise (RuntimeError "gather: size of index exceeds the input")
      | yb :: y' =>
          r <- mapM (index yb) i ;;
          rest <- gather_dim1 y' idxs' ;;
          Ok (r :: rest)
      end
  end.

(** [select_flat_baseline_out_vectors]; with the shift, the batch entry
    [turn_end_idxs] is overwritten: the batch after the call is returned
    next to the result. *)
Definition select_flat_baseline_out_vectors (y : tensor3) (b : batch)
    (shift_turn_end_idxs : bool) : batch * result tensor3 :=
  if shift_turn_end_idxs then
    match tensor_max (turn_end_idxs b) with
    | Raise e => (b, Raise e)
    | Ok m =>
        let b' := set_turn_end_idxs b (shift_clip m (turn_end_idxs b)) in
        (b', gather_dim1 y (turn_end_idxs b'))
    end
  else (b, gather_dim1 y (turn_end_idxs b)).

(** [torch.gather(y, 2, ids)] on one dialogue: position [t] of the result
    holds [y[t][ids[t][k]]] for each slot [k]. *)
Fixpoint gather_turns (y : list (list Q)) (ids : list (list nat)) {struct ids}
  : result (list (list Q)) :=
  match ids with
  | [] => Ok []
  | i :: ids' =>
      match y with
      | [] => Raise (RuntimeError "gather: size of index exceeds the input")
      | yt :: y' =>
          r <- gather_row yt i ;;
          rest <- gather_turns y' ids' ;;
          Ok (r :: rest)
      end
  end.

Fixpoint gather_dim2 (y : tensor3) (ids : list (list (list nat))) {struct ids}
  : result tensor3 :=
  match ids with
  | [] => Ok []
  | i :: ids' =>
      match y with
      | [] => Raise (RuntimeError "gather: size of index exceeds the input")
      | yb :: y' =>
          r <- gather_turns yb i ;;
          rest <- gather_dim2 y' ids' ;;
          Ok (r :: rest)
      end
  end.

(** [max_num_kcs], the last dimension of [kc_ids]. *)
Definition max_num_kcs (ids : list (list (list nat))) : nat :=
  match ids with
  | (slots :: _) :: _ => length slots
  | _ => O
  end.

(** One row of [kc_pad_mask]: slot [k] is padding when [k >= n]. *)
Definition pad_mask_row (K n : nat) : list bool := map (fun k => n <=? k) (seq 0 K).

Definition kc_pad_mask (K : nat) (nums : list (list nat)) : list (list (list bool)) :=
  map (map (pad_mask_row K)) nums.

(** The product over the KC slots of one turn, padding slots set to 1. *)
Definition corr_prob_turn (pm : list Q * list bool) : result Q :=
  masked <- masked_ones (fst pm) (snd pm) ;;
  Ok (prod masked).

Definition corr_probs_dialogue (probs : list (list Q)) (mask : list (list bool))
  : result (list Q) :=
  rows <- zip_strict probs mask ;;
  mapM corr_prob_turn rows.

Section Loss.
Variable ff : float_funs.

Definition get_baseline_loss (y : tensor3) (b : batch)
  : result (Q * list (list Q)) :=
  let mask := kc_pad_mask (max_num_kcs (kc_ids b)) (num_kcs b) in
  let y := map (@removelast _) y in
  kc_probs <- gather_dim2 y (map (@tl _) (kc_ids b)) ;;
  dialogues <- zip_strict kc_probs (map (@tl _) mask) ;;
  corr_probs <-
    mapM (fun pm : list (list Q) * list (list bool) =>
            corr_probs_dialogue (fst pm) (snd pm))
         dialogues ;;
  let labels_flat := concat (map (@tl _) (labels b)) in
  let loss_mask := map (fun l => negb (l =? IGNORE)%Z) labels_flat in
  labels_sel <- select labels_flat loss_mask ;;
  corr_probs_flat <- select (concat corr_probs) loss_mask ;;
  loss <- BCELoss ff corr_probs_flat (map inject_Z labels_sel) ;;
  Ok (loss, corr_probs).

End Loss.

(** The run configuration, as far as the baseline code reads it. *)
Record args : Type := {
  model_type : string;
  model_name : string;
  emb_size : nat;
  batch_size : nat;
  testonval : bool;
  debug : bool
}.

(** The architectures, with the hyperparameters they are built from; their
    forward passes are collaborators. *)
Inductive baseline_model : Type :=
| DKTMultiKC (n_kcs emb : nat)
| DKTSem (emb : nat)
| DKT (n_kcs emb : nat)
| AKT (n_kcs emb n_blocks : nat)
| DKVMN (n_kcs emb : nat)
| SAINT (n_kcs emb n_blocks : nat)
| simpleKT (n_kcs emb n_blocks : nat).

Definition not_supported {A} (a : args) : result A :=
  Raise (Exception ("Model " ++ model_type a ++ " not supported")).

(** [get_baseline_model]; [n_kcs] is [len(kc_dict)]. *)
Definition get_baseline_model (n_kcs : nat) (a : args) : result baseline_model :=
  let emb := emb_size a in
  let n_blocks := 4%nat in
  if (model_type a =? "dkt-multi")%string then Ok (DKTMultiKC n_kcs emb)
  else if (model_type a =? "dkt-sem")%string then Ok (DKTSem emb)
  else if (model_type a =? "dkt")%string then Ok (DKT n_kcs emb)
  else if (model_type a =? "akt")%string then Ok (AKT n_kcs emb n_blocks)
  else if (model_type a =? "dkvmn")%string then Ok (DKVMN n_kcs emb)
  else if (model_type a =? "saint")%string then Ok (SAINT n_kcs emb n_blocks)
  else if (model_type a =? "simplekt")%string then Ok (simpleKT n_kcs emb n_blocks)
  else not_supported a.

(** The forward passes, by calling convention. *)
Record forwards : Type := {
  (** [model(batch)] *)
  call_batch : baseline_model -> batch -> tensor3;
  (** [model(kc_ids_flat, labels_flat)] *)
  call_flat : baseline_model -> list (list nat) -> list (list Z) -> tensor3;
  (** [model(kc_ids_flat, labels_flat, kc_ids_flat)], with the Rasch loss *)
  call_akt : baseline_model -> list (list nat) -> list (list Z) -> list (list nat)
             -> tensor3 * Q;
  (** [model(kc_ids_flat, kc_ids_flat, labels_flat[:, :-1])] *)
  call_saint : baseline_model -> list (list nat) -> list (list nat) -> list (list Z)
               -> tensor3;
  (** [model({qseqs, cseqs, rseqs, shft_qseqs, shft_cseqs, shft_rseqs})] *)
  call_simplekt : baseline_model
                  -> list (list nat) * list (list nat) * list (list Z)
                     * list (list nat) * list (list nat) * list (list Z)
                  -> tensor3
}.

Section Dispatch.
Variable ff : float_funs.
Variable fw : forwards.

(** Output vectors selected (with or without the shift), then the loss;
    the batch after the call comes first. *)
Definition flat_loss (y : tensor3) (b : batch) (shift : bool)
  : batch * result (Q * list (list Q)) :=
  let (b', sel) := select_flat_baseline_out_vectors y b shift in
  (b', y' <- sel ;; get_baseline_loss ff y' b').

Definition compute_baseline_loss (model : baseline_model) (b : batch) (a : args)
  : batch * result (Q * list (list Q)) :=
  if (model_type a =? "dkt-multi")%string then
    (b, get_baseline_loss ff (call_batch fw model b) b)
  else if (model_type a =? "dkt-sem")%string then
    (b, get_baseline_loss ff (call_batch fw model b) b)
  else if (model_type a =? "dkt")%string then
    flat_loss (call_flat fw model (kc_ids_flat b) (labels_flat b)) b false
  else if (model_type a =? "akt")%string then
    let (y, rasch_loss) :=
      call_akt fw model (kc_ids_flat b) (labels_flat b) (kc_ids_flat b) in
    let (b', r) := flat_loss y b true in
    (b', ' (loss, corr_probs) <- r ;; Ok (loss + rasch_loss, corr_probs))
  else if (model_type a =? "dkvmn")%string then
    flat_loss (call_flat fw model (kc_ids_flat b) (labels_flat b)) b true
  else if (model_type a =? "saint")%string then
    flat_loss (call_saint fw model (kc_ids_flat b) (kc_ids_flat b)
                          (map (@removelast _) (labels_flat b))) b true
  else if (model_type a =? "simplekt")%string then
    flat_loss (call_simplekt fw model
                 (map (@removelast _) (kc_ids_flat b),
                  map (@removelast _) (kc_ids_flat b),
                  map (@removelast _) (labels_flat b),
                  map (@tl _) (kc_ids_flat b),
                  map (@tl _) (kc_ids_flat b),
                  map (@tl _) (labels_flat b))) b true
  else (b, not_supported a).

End Dispatch.

(** *** Evaluation driver of the baseline path: [test_baseline] *)

(** [x[mask]] for a two-dimensional tensor and a mask of its shape: the
    selected entries, row by row. *)
Definition select2 {A} (x : list (list A)) (mask : list (list bool)) : result (list A) :=
  match zip_strict x mask with
  | Raise _ => Raise IndexError
  | Ok rows =>
      r <- mapM (fun xm : list A * list bool => select (fst xm) (snd xm)) rows ;;
      Ok (concat r)
  end.

(** [x[torch.arange(n), idxs]] for [n = len(idxs)]: entry [idxs[b]] of row
    [b], a negative index counting from the end of the row. *)
Definition pick {A} (x : list (list A)) (idxs : list Z) : result (list A) :=
  mapM (fun bi : nat * Z => row <- index x (fst bi) ;; zindex row (snd bi))
       (combine (seq 0 (length idxs)) idxs).

Definition not_ignored (l : Z) : bool := negb (l =? IGNORE)%Z.

Record collected : Type := {
  all_labels : list Z;
  all_preds : list Q;
  final_turn_labels : list Z;
  final_turn_preds : list Q;
  total_loss : Q
}.

Definition empty_collected : collected :=
  {| all_labels := []; all_preds := []; final_turn_labels := [];
     final_turn_preds := []; total_loss := 0 |}.

Record evaluation : Type := {
  metrics_path : string;
  metrics_report : report;
  returned : list Q
}.

(** The collaborators of the driver: folds, data frames and the data
    pipeline. *)
Record collaborators : Type := {
  fold_t : Type;
  df : Type;
  kc_dict_t : Type;
  dataset : Type;
  load_kc_dict : args -> kc_dict_t;
  len : kc_dict_t -> nat;
  (** [load_annotated_data(args, fold)]: the train, validation and test
      splits. *)
  load_annotated_data : args -> fold_t -> df * df * df;
  (** [df[:n]] *)
  head : nat -> df -> df;
  DKTDataset : df -> kc_dict_t -> dataset;
  majority_class : dataset -> Z;
  (** [get_dataloader(dataset, DKTCollator(flatten_kcs), batch_size, False)] *)
  get_dataloader : dataset -> bool -> nat -> list batch;
  (** The model with the weights of the checkpoint of that name loaded. *)
  load_state_dict : baseline_model -> string -> baseline_model;
  (** [torch.zeros_like(labels).random_(0, 2)] for the batch of that rank. *)
  random_ : nat -> list (list Z) -> list (list Z);
  get_model_file_suffix : args -> fold_t -> string;
  checkpoint_name : args -> fold_t -> string
}.

(** The same collaborators over other splits. *)
Definition with_splits (env : collaborators)
    (splits : args -> fold_t env -> df env * df env * df env) : collaborators :=
  {| fold_t := fold_t env; df := df env; kc_dict_t := kc_dict_t env;
     dataset := dataset env;
     load_kc_dict := load_kc_dict env; len := len env;
     load_annotated_data := splits;
     head := head env; DKTDataset := DKTDataset env;
     majority_class := majority_class env; get_dataloader := get_dataloader env;
     load_state_dict := load_state_dict env; random_ := random_ env;
     get_model_file_suffix := get_model_file_suffix env;
     checkpoint_name := checkpoint_name env |}.

Section Driver.
Variable ff : float_funs.
Variable fw : forwards.
Variable env : collaborators.
Variable a : args.
Variable fold : fold_t env.

(** The trained model, or [None] for the trivial policies. *)
Definition load_model : result (option baseline_model) :=
  if py_in (model_type a) BASELINE_MODELS then
    model <- get_baseline_model (len env (load_kc_dict env a)) a ;;
    Ok (Some (load_state_dict env model (checkpoint_name env a fold)))
  else Ok None.

Definition test_df : df env :=
  let '(_, val_df, test_df) := load_annotated_data env a fold in
  let test_df := if testonval a then val_df else test_df in
  if debug a then head env 10 test_df else test_df.

Definition test_dataset : dataset env :=
  DKTDataset env test_df (load_kc_dict env a).

Definition test_dataloader : list batch :=
  get_dataloader env test_dataset (negb (py_in (model_type a) NON_FLAT_KC_ARCH))
                 (batch_size a).

(** The branches binding [loss] and [corr_probs]; with no branch taken,
    the next statement reads the unbound [loss]. *)
Definition predict (model : option baseline_model) (batch_no : nat) (b : batch)
    (labels : list (list Z)) : result (Q * list (list Q)) :=
  match model with
  | Some m => snd (compute_baseline_loss ff fw m b a)
  | None =>
      if (model_type a =? "random")%string then
        Ok (0, map (map inject_Z) (random_ env batch_no labels))
      else if (model_type a =? "majority")%string then
        Ok (0, map (map (fun _ => inject_Z (majority_class env test_dataset))) labels)
      else Raise (UnboundLocalError "loss")
  end.

Definition process_batch (model : option baseline_model) (st : collected)
    (batch_no : nat) (b : batch) : result collected :=
  let labels := map (@tl _) (labels b) in
  ' (loss, corr_probs) <- predict model batch_no b labels ;;
  let mask := map (map not_ignored) labels in
  labels_sel <- select2 labels mask ;;
  preds_sel <- select2 corr_probs mask ;;
  let final_idxs := map (fun m => (Z.of_nat (count (fun x : bool => x) m) - 1)%Z) mask in
  final_labels <- pick labels final_idxs ;;
  final_preds <- pick corr_probs final_idxs ;;
  Ok {| all_labels := all_labels st ++ labels_sel;
        all_preds := all_preds st ++ preds_sel;
        final_turn_labels := final_turn_labels st ++ final_labels;
        final_turn_preds := final_turn_preds st ++ final_preds;
        total_loss := total_loss st + loss |}.

Fixpoint batches_from (model : option baseline_model) (st : collected)
    (batch_no : nat) (loader : list batch) : result collected :=
  match loader with
  | [] => Ok st
  | b :: rest =>
      st' <- process_batch model st batch_no b ;;
      batches_from model st' (S batch_no) rest
  end.

Definition collect : result collected :=
  model <- load_model ;;
  batches_from model empty_collected 0 test_dataloader.

Definition test_baseline : result evaluation :=
  st <- collect ;;
  loss <- match length test_dataloader with
          | O => Raise ZeroDivisionError
          | n => Ok (total_loss st / inject_Z (Z.of_nat n))
          end ;;
  ' (path, rep, (all_metrics, final_metrics)) <-
    compute_all_metrics loss (all_labels st) (all_preds st)
                        (final_turn_labels st) (final_turn_preds st)
                        (get_model_file_suffix env a fold) ;;
  Ok {| metrics_path := path;
        metrics_report := rep;
        returned := loss :: unpack all_metrics ++ unpack final_metrics |}.

End Driver.

End Baselines.

(** ** Run configuration: [apply_defaults] *)

Module Config.

(** The value of an attribute of the argument namespace. *)
Inductive value : Type :=
| Num (q : Q)
| Str (s : string)
| Flag (b : bool).

(** The namespace of the command line: the value of each attribute, [None]
    for an attribute that is [None] (or absent). *)
Definition namespace : Type := string -> option value.

(** [setattr(args, key, v)]. *)
Definition setattr (a : namespace) (key : string) (v : value) : namespace :=
  fun k => if (k =? key)%string then Some v else a k.

(** The two tables of defaults, in the order of their keys. *)
Definition lmkt_defaults : list (string * Q) :=
  [("epochs", 5); ("lr", 2 # 10000); ("wd", 1 # 100); ("gc", 1);
   ("batch_size", 1); ("grad_accum_steps", 64); ("r", 16); ("lora_alpha", 16)]%string.

Definition baseline_defaults : list (string * Q) :=
  [("epochs", 100); ("lr", 1 # 1000); ("wd", 1 # 100); ("gc", 0);
   ("batch_size", 64); ("grad_accum_steps", 1); ("emb_size", 64)]%string.

(** [args.model_type == "lmkt"]; the argument parser always defines the
    attribute. *)
Definition is_lmkt (a : namespace) : bool :=
  match a "model_type"%string with
  | Some (Str s) => (s =? "lmkt")%string
  | _ => false
  end.

Definition defaults_of (a : namespace) : list (string * Q) :=
  if is_lmkt a then lmkt_defaults else baseline_defaults.

(** Body of the loop over [defaults.items()]. *)
Definition set_default (a : namespace) (kv : string * Q) : namespace :=
  match a (fst kv) with
  | None => setattr a (fst kv) (Num (snd kv))
  | Some _ => a
  end.

Definition apply_defaults (a : namespace) : namespace :=
  fold_left set_default (defaults_of a) a.

(** [dict[key]] on a table of defaults. *)
Fixpoint lookup (key : string) (table : list (string * Q)) : option Q :=
  match table with
  | [] => None
  | (k, v) :: rest => if (key =? k)%string then Some v else lookup key rest
  end.

End Config.

(** ** One epoch of the training loops

    [train_lmkt] and [train_baseline] run the same loop over the training
    batches: the loss of the batch, a backward pass on
    [loss / grad_accum_steps], and an optimizer step at every
    [grad_accum_steps]-th batch and at the last batch; then a pass over the
    validation batches and the two average losses.  The model and the
    optimizer are opaque: the loop is followed through the batches whose
    gradients are accumulated and the groups in which they are applied.
    [grad_accum_steps] is a non-negative integer. *)

Module Epoch.

(** Truth value of a float. *)
Definition truthy (x : Q) : bool := negb (Qeq_bool x 0).

(** [a % b] on non-negative integers. *)
Definition py_mod (a b : nat) : result nat :=
  match b with
  | O => Raise ZeroDivisionError
  | _ => Ok (a mod b)%nat
  end.

Record accum_state : Type := {
  total_train_loss : Q;
  (** batches whose gradients were accumulated since the last [zero_grad()] *)
  accumulated : list nat;
  (** the optimizer steps of the epoch, oldest first: for each step, the
      batches whose gradients it applies and whether the gradient norm was
      clipped before *)
  steps : list (list nat * bool)
}.

Definition init_accum : accum_state :=
  {| total_train_loss := 0; accumulated := []; steps := [] |}.

Section Loop.
Variable Batch : Type.
(** The loss of a batch in training mode and in evaluation mode, for the
    weights reached by the optimizer steps taken so far in the epoch. *)
Variable train_loss : list (list nat * bool) -> Batch -> result Q.
Variable val_loss : list (list nat * bool) -> Batch -> result Q.
Variable grad_accum_steps : nat.
Variable gc : Q.

(** Body of the loop over the training batches; [n_batches] is
    [len(train_dataloader)]. *)
Definition train_batch (n_batches : nat) (st : accum_state) (batch_idx : nat)
    (batch : Batch) : result accum_state :=
  loss <- train_loss (steps st) batch ;;
  let total := total_train_loss st + loss in
  let grads := accumulated st ++ [batch_idx] in
  r <- py_mod (batch_idx + 1) grad_accum_steps ;;
  if (r =? 0)%nat || (Z.of_nat batch_idx =? Z.of_nat n_batches - 1)%Z
  then Ok {| total_train_loss := total;
             accumulated := [];
             steps := steps st ++ [(grads, truthy gc)] |}
  else Ok {| total_train_loss := total;
             accumulated := grads;
             steps := steps st |}.

(** [for batch_idx, batch in enumerate(train_dataloader)]. *)
Fixpoint train_batches_from (n_batches : nat) (st : accum_state) (batch_idx : nat)
    (loader : list Batch) : result accum_state :=
  match loader with
  | [] => Ok st
  | batch :: rest =>
      st' <- train_batch n_batches st batch_idx batch ;;
      train_batches_from n_batches st' (S batch_idx) rest
  end.

Definition train_batches (train_dataloader : list Batch) : result accum_state :=
  train_batches_from (length train_dataloader) init_accum 0 train_dataloader.

(** [for batch in val_dataloader]. *)
Fixpoint validate (history : list (list nat * bool)) (total_val_loss : Q) (loader : list Batch)
  : result Q :=
  match loader with
  | [] => Ok total_val_loss
  | batch :: rest =>
      loss <- val_loss history batch ;;
      validate history (total_val_loss + loss) rest
  end.

(** [total / len(dataloader)]. *)
Definition average (total : Q) (n_batches : nat) : result Q :=
  match n_batches with
  | O => Raise ZeroDivisionError
  | _ => Ok (total / inject_Z (Z.of_nat n_batches))
  end.

(** One epoch, up to the two averages: the state of the accumulation, the
    average training loss and the average validation loss. *)
Definition epoch (train_dataloader val_dataloader : list Batch)
  : result (accum_state * Q * Q) :=
  st <- train_batches train_dataloader ;;
  total_val_loss <- validate (steps st) 0 val_dataloader ;;
  avg_train_loss <- average (total_train_loss st) (length train_dataloader) ;;
  avg_val_loss <- average total_val_loss (length val_dataloader) ;;
  Ok (st, avg_train_loss, avg_val_loss).

End Loop.

End Epoch.

(** ** Cross-validation: [crossval]

    [fn] is the training or the evaluation driver, applied to the run
    configuration and a fold; it returns its vector of metrics.  The square
    root of the standard deviation is a parameter. *)

Module CrossVal.

(** A fold: one of the numbered folds, or a subject of the subject split. *)
Inductive fold : Type :=
| FoldNo (n : nat)
| Subject (s : string).

Definition metric_names : list string :=
  ["Loss"; "Acc"; "AUC"; "Prec"; "Rec"; "F1"; "Acc (Final)"; "AUC (Final)";
   "Prec (Final)"; "Rec (Final)"; "F1 (Final)"]%string.

(** [np.stack(arrays, axis=0)] of one-dimensional arrays: an empty list and
    arrays of different sizes raise. *)
Definition np_stack (arrays : list (list Q)) : result (list (list Q)) :=
  match arrays with
  | [] => Raise (ValueError "need at least one array to stack")
  | r :: rest =>
      if forallb (fun r' : list Q => (length r' =? length r)%nat) rest
      then Ok arrays
      else Raise (ValueError "all input arrays must have the same shape")
  end.

(** Number of columns of a stacked matrix. *)
Definition width (m : list (list Q)) : nat :=
  match m with
  | [] => O
  | r :: _ => length r
  end.

Definition column (j : nat) (m : list (list Q)) : list Q :=
  map (fun row => nth j row 0) m.

Definition mean (xs : list Q) : Q := Qsum xs / inject_Z (Z.of_nat (length xs)).

Definition variance (xs : list Q) : Q :=
  mean (map (fun x => (x - mean xs) * (x - mean xs)) xs).

(** [m.mean(axis=0)] and [m.std(axis=0)]. *)
Definition mean0 (m : list (list Q)) : list Q :=
  map (fun j => mean (column j m)) (seq 0 (width m)).

Definition std0 (sqrt : Q -> Q) (m : list (list Q)) : list Q :=
  map (fun j => sqrt (variance (column j m))) (seq 0 (width m)).

(** What [crossval] produces: the file it writes (its path, the per-fold
    vectors and, for each metric, its name, average and standard deviation)
    and the matrix it returns. *)
Record outcome : Type := {
  cv_path : string;
  cv_metrics_agg : list (list Q);
  cv_results : list (string * Q * Q);
  cv_returned : list (list Q)
}.

Section Run.
Variable sqrt : Q -> Q.
Variable COMTA_SUBJECTS : list string.
Variable split_by_subject : bool.
(** [get_model_file_suffix(args)] *)
Variable suffix : string.
(** [fn(args, fold)] *)
Variable fn : fold -> result (list Q).

Definition folds : list fold :=
  if split_by_subject then map Subject COMTA_SUBJECTS else map FoldNo (seq 1 5).

Definition crossval : result outcome :=
  metrics_agg <- mapM fn folds ;;
  metrics_np <- np_stack metrics_agg ;;
  let avg := mean0 metrics_np in
  let std := std0 sqrt metrics_np in
  results <-
    mapM (fun im : nat * string =>
            a <- index avg (fst im) ;;
            s <- index std (fst im) ;;
            Ok (snd im, a, s))
         (combine (seq 0 (length metric_names)) metric_names) ;;
  Ok {| cv_path := ("results/metrics_crossval"
                    ++ (if split_by_subject then "_subj" else "")
                    ++ "_" ++ suffix ++ ".txt")%string;
        cv_metrics_agg := metrics_agg;
        cv_results := results;
        cv_returned := metrics_np |}.

End Run.

End CrossVal.

(** ** Text embeddings of the KCs: [compute_kc_emb_matrix]

    [kc_dict] maps the name of a KC to its identifier; a dict keeps the
    order of insertion.  The sentence encoder is a collaborator that
    returns one embedding per sentence, in the order of the sentences. *)

Module Embeddings.

Definition kc_dict_t : Type := list (string * nat).

(** [sorted(items, key=lambda kv: kv[1])]: a stable sort. *)
Fixpoint insert (kv : string * nat) (l : list (string * nat)) : list (string * nat) :=
  match l with
  | [] => [kv]
  | h :: t => if (snd kv <=? snd h)%nat then kv :: l else h :: insert kv t
  end.

Definition sorted_by_id (items : list (string * nat)) : list (string * nat) :=
  fold_right insert [] items.

Section Encoder.
Variable embedding : Type.
Variable encode_sentence : string -> embedding.

(** [sbert_model.encode(kcs, convert_to_tensor=True)] *)
Definition encode (kcs : list string) : list embedding := map encode_sentence kcs.

Definition compute_kc_emb_matrix (kc_dict : kc_dict_t) : list embedding :=
  let kcs := map fst (sorted_by_id kc_dict) in
  encode kcs.

End Encoder.

End Embeddings.

(** * Notions used in the statements *)

Module Notions.

Import LMKT.

(** The batch invariant of the packed layout: in the row of a turn with
    [n] KCs, the first [n] answer positions are real (non-zero) and the
    remaining slots are padding (answer position 0). *)
Definition padded_row (n : nat) (idxs : list nat) : bool :=
  forallb (fun i => negb (i =? 0)%nat) (firstn n idxs)
  && forallb (Nat.eqb 0) (skipn n idxs).

Definition padding_invariant (b : batch_packed) : bool :=
  (length (p_num_kcs b) =? length (p_last_idxs b))%nat
  && forallb (fun ni : nat * list nat => padded_row (fst ni) (snd ni))
             (combine (p_num_kcs b) (p_last_idxs b)).

(** Entry [(i, j)] of a two-dimensional tensor. *)
Definition at2 {A} (x : list (list A)) (i j : nat) : option A :=
  match nth_error x i with
  | Some row => nth_error row j
  | None => None
  end.

(** The label tensor has the batch and turn dimensions of [kc_ids]. *)
Definition labels_shaped (b : Baselines.batch) : Prop :=
  Forall2 (fun (lrow : list Z) (idsrow : list (list nat)) => length lrow = length idsrow)
          (Baselines.labels b) (Baselines.kc_ids b).

(** The correctness probability at turn [t] of a dialogue next to the label
    of turn [t + 1] of that dialogue, dialogue after dialogue. *)
Definition shifted_pairs (corr : list (list Q)) (labels : list (list Z)) : list (Q * Z) :=
  concat (map (fun cl : list Q * list Z => combine (fst cl) (tl (snd cl)))
              (combine corr labels)).

(** The dialogue of each turn of a test set, in the order of the flattened
    prediction stream. *)
Definition dialogue_ids {Batch : Type} (meta_data : Batch -> list sample)
    (loader : list Batch) : list nat :=
  map dialogue_idx (flat_map meta_data loader).

(** The layout "[loss, acc, auc, prec, rec, f1] twice": twelve entries, a
    block of six for all the turns and a block of six for the final turns. *)
Definition twice_six (v : list Q) : Prop :=
  exists loss acc auc prec rec f1 loss' acc' auc' prec' rec' f1',
    v = [loss; acc; auc; prec; rec; f1; loss'; acc'; auc'; prec'; rec'; f1'].

(** The majority class of a split, given as the label sequences of its
    dialogues: 1 when the labels 1 are at least as many as the labels 0. *)
Definition majority_of (split : list (list Z)) : Z :=
  let ls := concat split in
  if (Metrics.count (Z.eqb 0) ls <=? Metrics.count (Z.eqb 1) ls)%nat then 1%Z else 0%Z.

(** The state of the loop, seen as the running minimum of the
    specification. *)
Definition running_best (st : Training.loop_state) : option (nat * Q) :=
  match Training.checkpoint st, Training.best_val_loss st with
  | Some c, Some b => Some (c, b)
  | _, _ => None
  end.

Definition nonzero (v : Q) : Prop := ~ v == 0.

(** The states that the loop reaches when no loss is zero. *)
Definition consistent (st : Training.loop_state) : Prop :=
  match Training.best_val_loss st with
  | Some b => nonzero b /\ Training.checkpoint st <> None
  | None => Training.checkpoint st = None
  end.


(** The predictions of a state are the constant [c] at every label. *)
Definition constant_preds (c : Q) (st : Baselines.collected) : Prop :=
  Baselines.all_preds st = map (fun _ => c) (Baselines.all_labels st)
  /\ Baselines.final_turn_preds st
     = map (fun _ => c) (Baselines.final_turn_labels st).

(** The index map after the turns of the dialogues [ids], the first of them
    at position [n]. *)
Fixpoint build_from (d : EvalLM.index_map) (n : nat) (ids : list nat) : EvalLM.index_map :=
  match ids with
  | [] => d
  | k :: rest => build_from (EvalLM.setdefault_append d k n) (S n) rest
  end.

(** The final-turn values with the dialogue they belong to. *)
Definition finals {A} (d : EvalLM.index_map) (xs : list A) : result (list (nat * A)) :=
  mapM (fun kv : nat * list nat =>
          i <- zindex (snd kv) (-1) ;; v <- index xs i ;; Ok (fst kv, v)) d.

(** Update of an association list that keeps the order of first insertion. *)
Fixpoint aset {A} (k : nat) (x : A) (l : list (nat * A)) : list (nat * A) :=
  match l with
  | [] => [(k, x)]
  | (k', y) :: l' => if (k' =? k)%nat then (k', x) :: l' else (k', y) :: aset k x l'
  end.

(** The last value of each dialogue of a stream, with the dialogue. *)
Definition lasts {A} (stream : list (nat * A)) : list (nat * option A) :=
  map (fun d => (d, EvalLM.last_of_dialogue d stream)) (EvalLM.first_seen [] (map fst stream)).

Definition bounded (d : EvalLM.index_map) (m : nat) : Prop :=
  Forall (fun kv : nat * list nat =>
            exists i, zindex (snd kv) (-1) = Ok i /\ (i < m)%nat) d.

(** A batch of one turn: one entry of meta data, one label, one prediction. *)
Definition unit_batch {Batch : Type} (meta_data : Batch -> list sample)
    (labels : Batch -> list Z)
    (get_loss : Batch -> result (Q * list (list Q) * list Q)) (b : Batch) : Prop :=
  (exists s, meta_data b = [s])
  /\ (exists l, labels b = [l])
  /\ forall loss kc corr, get_loss b = Ok (loss, kc, corr) -> exists p, corr = [p].

(** A row of labels whose ignored entries are the padding at its end, with
    at least one label before it. *)
Definition padded_at_end (row : list Z) : Prop :=
  exists real pads,
    row = real ++ pads /\ real <> []
    /\ Forall (fun l => Baselines.not_ignored l = true) real
    /\ Forall (fun l => Baselines.not_ignored l = false) pads.

(** The index that [test_baseline] computes for a row: the number of
    non-ignored labels, minus one. *)
Definition final_idx (row : list Z) : Z :=
  (Z.of_nat (Metrics.count (fun x : bool => x) (map Baselines.not_ignored row)) - 1)%Z.

(** The unpacked rows and the packed rows hold the same KC probabilities:
    turn [t] has [nums[t]] KCs, whose probabilities are the first [nums[t]]
    entries of row [t] of [kc_p] (its other slots are padding), and [kc_u]
    lists these probabilities, turn after turn. *)
Definition same_probabilities (kc_u : list Q) (kc_p : list (list Q)) (nums : list nat)
  : Prop :=
  Forall2 (fun (row : list Q) (n : nat) => (n <= length row)%nat) kc_p nums
  /\ kc_u = concat (map (fun pn : list Q * nat => firstn (snd pn) (fst pn))
                        (combine kc_p nums)).

End Notions.

Import Notions.

(** * Sample data *)

Module Examples.

Import LMKT.

(** Stand-ins for [exp] and [log] that keep the samples small. *)
Definition sample_funs : float_funs :=
  {| f_exp := fun q => q; f_log := fun q => q - 1 |}.

(** A model whose logits at a position are read off the token there: the
    token itself for the True token (index 0), 1 for the False token
    (index 1). *)
Definition sample_lm : lm :=
  {| dtype := bfloat16;
     forward := fun ids _ _ => map (map (fun t => [inject_Z t; 1])) ids |}.

(** A model that looks at its (additive) attention mask: the True logit of
    a position is its token where the mask lets it attend (entry 0) and 0
    where the position is masked out. *)
Definition masking_lm : lm :=
  {| dtype := bfloat16;
     forward := fun ids mask _ =>
       map (fun im : list Z * list Z =>
              map (fun tm : Z * Z =>
                     [if (snd tm =? 0)%Z then inject_Z (fst tm) else 0; 1])
                  (combine (fst im) (snd im)))
           (combine ids mask) |}.

(** Two turns, the first with two KCs and the second with one, unpacked
    into three rows. *)
Definition sample_unpacked : batch_unpacked :=
  {| u_input_ids := [[1]; [2]; [3]]%Z;
     u_attention_mask := [[1]; [1]; [1]]%Z;
     u_last_idxs := [0; 0; 0]%nat;
     u_num_kcs := [2; 1]%nat;
     u_labels := [1; 0]%Z;
     u_meta_data := [] |}.

(** The same two turns packed, one row per turn, the second row with one
    padding slot. *)
Definition sample_packed : batch_packed :=
  {| p_input_ids := [[9; 1; 2]; [9; 3; 9]]%Z;
     p_attention_mask := [[1; 1; 1]; [1; 1; 0]]%Z;
     p_position_ids := [[0; 1; 2]; [0; 1; 2]]%Z;
     p_last_idxs := [[1; 2]; [1; 0]]%nat;
     p_num_kcs := [2; 1]%nat;
     p_labels := [1; 0]%Z;
     p_meta_data := [] |}.

(** One dialogue of four turns over three KCs, with at most two KCs per
    turn; the first turn is unlabelled and the last one is padding. *)
Definition sample_batch : Baselines.batch :=
  {| Baselines.kc_ids := [[[0; 0]; [1; 2]; [2; 0]; [0; 0]]]%nat;
     Baselines.num_kcs := [[1; 2; 1; 0]]%nat;
     Baselines.labels := [[-100; 1; 0; -100]]%Z;
     Baselines.kc_ids_flat := [[0; 1; 2; 2]]%nat;
     Baselines.labels_flat := [[-100; 1; 1; 0]]%Z;
     Baselines.turn_end_idxs := [[0; 2; 3; 3]]%nat |}.

(** Outputs of a baseline model on it: one probability per KC at each of
    the four positions. *)
Definition sample_outputs : Baselines.tensor3 :=
  [[[1 # 2; 1 # 3; 1 # 4]; [1 # 5; 1 # 6; 1 # 7]; [1 # 8; 1 # 9; 1 # 10];
    [9 # 10; 9 # 10; 9 # 10]]].

(** A batch of one turn with one KC, for the unpacked layout. *)
Definition turn_batch (d : nat) (token label : Z) : batch_unpacked :=
  {| u_input_ids := [[token]];
     u_attention_mask := [[1%Z]];
     u_last_idxs := [0%nat];
     u_num_kcs := [1%nat];
     u_labels := [label];
     u_meta_data := [{| dialogue_idx := d; kcs := ["kc"%string] |}] |}.

(** A batch of two turns of the same dialogue, each with one KC. *)
Definition two_turn_batch (d : nat) (token1 token2 label1 label2 : Z) : batch_unpacked :=
  {| u_input_ids := [[token1]; [token2]];
     u_attention_mask := [[1%Z]; [1%Z]];
     u_last_idxs := [0; 0]%nat;
     u_num_kcs := [1; 1]%nat;
     u_labels := [label1; label2];
     u_meta_data := [{| dialogue_idx := d; kcs := ["kc"%string] |};
                     {| dialogue_idx := d; kcs := ["kc"%string] |}] |}.

(** Two dialogues, of two turns and of one turn, loaded with batch size 1. *)
Definition loader_of_one : list batch_unpacked :=
  [turn_batch 0 1 1; turn_batch 0 2 0; turn_batch 1 3 1].

(** Two dialogues of two turns each, loaded with batch size 2. *)
Definition loader_of_two : list batch_unpacked :=
  [two_turn_batch 0 1 2 0 0; two_turn_batch 1 3 4 0 1].

(** A batch of which only the labels are filled in. *)
Definition labels_batch (labels : list (list Z)) : Baselines.batch :=
  {| Baselines.kc_ids := []; Baselines.num_kcs := []; Baselines.labels := labels;
     Baselines.kc_ids_flat := []; Baselines.labels_flat := [];
     Baselines.turn_end_idxs := [] |}.

(** A data pipeline reduced to the labels: a split is the list of the label
    sequences of its dialogues, the dataset keeps the split it is built from
    and takes its majority class from it, and the loader yields a single
    batch with every dialogue. *)
Definition labels_pipeline (splits : list (list Z) * list (list Z) * list (list Z))
  : Baselines.collaborators :=
  {| Baselines.fold_t := unit;
     Baselines.df := list (list Z);
     Baselines.kc_dict_t := unit;
     Baselines.dataset := list (list Z);
     Baselines.load_kc_dict := fun _ => tt;
     Baselines.len := fun _ => 3%nat;
     Baselines.load_annotated_data := fun _ _ => splits;
     Baselines.head := @firstn (list Z);
     Baselines.DKTDataset := fun d _ => d;
     Baselines.majority_class := majority_of;
     Baselines.get_dataloader := fun d _ _ => [labels_batch d];
     Baselines.load_state_dict := fun m _ => m;
     Baselines.random_ := fun _ l => map (map (fun _ => 0%Z)) l;
     Baselines.get_model_file_suffix := fun a _ => Baselines.model_name a;
     Baselines.checkpoint_name := fun a _ => (Baselines.model_name a ++ ".pt")%string |}.

(** Forward passes that return the sample outputs. *)
Definition sample_forwards : Baselines.forwards :=
  {| Baselines.call_batch := fun _ _ => sample_outputs;
     Baselines.call_flat := fun _ _ _ => sample_outputs;
     Baselines.call_akt := fun _ _ _ _ => (sample_outputs, 1 # 100);
     Baselines.call_saint := fun _ _ _ _ => sample_outputs;
     Baselines.call_simplekt := fun _ _ => sample_outputs |}.

Definition sample_args (model_type : string) : Baselines.args :=
  {| Baselines.model_type := model_type;
     Baselines.model_name := "run";
     Baselines.emb_size := 64;
     Baselines.batch_size := 64;
     Baselines.testonval := false;
     Baselines.debug := false |}.

(** Three splits: the labels 1 are the majority of the training split and
    the minority of the test split. *)
Definition sample_splits : list (list Z) * list (list Z) * list (list Z) :=
  ([[-100; 1; 1; 1]; [-100; 1; 0]]%Z,
   [[-100; 1; 0]]%Z,
   [[-100; 0; 0; 1]; [-100; 1; 0; -100]]%Z).

(** Splits whose test split has the labels 1 in the majority. *)
Definition positive_splits : list (list Z) * list (list Z) * list (list Z) :=
  ([[-100; 0; 0; 1]]%Z,
   [[-100; 1; 0]]%Z,
   [[-100; 1; 1; 0]; [-100; 1; 1; -100]]%Z).

End Examples.

Import Examples.

(** * Further notions and sample data *)

Module Coverage.

(** A label, or a hard prediction, of one of the two classes. *)
Definition binary (l : Z) : Prop := l = 0%Z \/ l = 1%Z.

(** A probability. *)
Definition probability (p : Q) : Prop := 0 <= p /\ p <= 1.

(** A percentage. *)
Definition percentage (q : Q) : Prop := 0 <= q /\ q <= 100.

(** A batch with at least one turn, and with one label and one returned
    correctness probability per turn. *)
Definition aligned_batch {Batch : Type} (meta_data : Batch -> list LMKT.sample)
    (labels : Batch -> list Z)
    (get_loss : Batch -> result (Q * list (list Q) * list Q)) (b : Batch) : Prop :=
  meta_data b <> []
  /\ length (labels b) = length (meta_data b)
  /\ forall loss kc corr, get_loss b = Ok (loss, kc, corr) ->
                          length corr = length (labels b).

(** The pipeline reduced to the labels, with a loader that yields one batch
    per dialogue, and so no batch on an empty split. *)
Definition dialogue_pipeline (splits : list (list Z) * list (list Z) * list (list Z))
  : Baselines.collaborators :=
  {| Baselines.fold_t := unit;
     Baselines.df := list (list Z);
     Baselines.kc_dict_t := unit;
     Baselines.dataset := list (list Z);
     Baselines.load_kc_dict := fun _ => tt;
     Baselines.len := fun _ => 3%nat;
     Baselines.load_annotated_data := fun _ _ => splits;
     Baselines.head := @firstn (list Z);
     Baselines.DKTDataset := fun d _ => d;
     Baselines.majority_class := majority_of;
     Baselines.get_dataloader := fun d _ _ => map (fun row => labels_batch [row]) d;
     Baselines.load_state_dict := fun m _ => m;
     Baselines.random_ := fun _ l => map (map (fun _ => 0%Z)) l;
     Baselines.get_model_file_suffix := fun a _ => Baselines.model_name a;
     Baselines.checkpoint_name := fun a _ => (Baselines.model_name a ++ ".pt")%string |}.

(** Splits whose test split is empty. *)
Definition empty_test_splits : list (list Z) * list (list Z) * list (list Z) :=
  ([[-100; 1; 0]]%Z, [[-100; 0; 1]]%Z, []).

(** The state of the training loop agrees with the validation losses of
    the epochs run so far: without any epoch nothing is saved; otherwise
    the checkpoint is that of an epoch that was run, the best loss is the
    validation loss of that epoch, the first epoch was saved and the last
    save is the checkpoint. *)
Definition recorded (vs : list Q) (st : Training.loop_state) : Prop :=
  match Training.checkpoint st with
  | None => vs = [] /\ Training.best_val_loss st = None /\ Training.writes st = []
  | Some c =>
      (exists b, Training.best_val_loss st = Some b /\ nth_error vs c = Some b)
      /\ (exists ws, Training.writes st = ws ++ [c])
      /\ hd_error (Training.writes st) = Some 0%nat
      /\ Forall (fun w => (w < length vs)%nat) (Training.writes st)
  end.

(** A batch with at least one turn, for which the loss returns one group of
    KC probabilities per turn. *)
Definition grouped_batch {Batch : Type} (meta_data : Batch -> list LMKT.sample)
    (get_loss : Batch -> result (Q * list (list Q) * list Q)) (b : Batch) : Prop :=
  meta_data b <> []
  /\ forall loss kc corr, get_loss b = Ok (loss, kc, corr) ->
                          length kc = length (meta_data b).

(** Every list of the index map has as many positions as the dialogue has
    turns among [ids]. *)
Definition counted (d : EvalLM.index_map) (ids : list nat) : Prop :=
  forall kv, In kv d -> length (snd kv) = count_occ Nat.eq_dec ids (fst kv).

(** Every position of the index map is below [m]. *)
Definition below (d : EvalLM.index_map) (m : nat) : Prop :=
  forall kv i, In kv d -> In i (snd kv) -> (i < m)%nat.

(** [j] is the position of the last label of the row that is not the
    ignore sentinel. *)
Definition last_real_position (row : list Z) (j : nat) : Prop :=
  (exists l, nth_error row j = Some l /\ l <> Baselines.IGNORE)
  /\ forall j' l', (j < j')%nat -> nth_error row j' = Some l' -> l' = Baselines.IGNORE.

(** Splits whose test split has a dialogue without any labelled turn after
    the first. *)
Definition unlabelled_splits : list (list Z) * list (list Z) * list (list Z) :=
  ([[-100; 1; 0]]%Z, [[-100; 0; 1]]%Z, [[-100; 1; 0]; [-100; -100; -100]]%Z).

End Coverage.

Import Coverage.

Unset Implicit Arguments.

(** * Properties *)

(** ** Checkpoint selection *)

Section CheckpointSelection.

Import Training.

Lemma py_not_nonzero (v : Q) : nonzero v -> py_not (Some v) = false.
Proof.
  intros Hv. unfold py_not.
  destruct (Qeq_bool v 0) eqn:E; [| reflexivity].
  apply Qeq_bool_iff in E. contradiction.
Qed.

Lemma epochs_from_spec (vs : list Q) :
  Forall nonzero vs ->
  forall (st : loop_state) (epoch : nat),
    consistent st ->
    checkpoint (epochs_from st epoch vs) = argmin_from (running_best st) epoch vs
    /\ writes (epochs_from st epoch vs)
       = writes st ++ improvements_from (best_val_loss st) epoch vs.
Proof.
  induction 1 as [| v vs Hv Hvs IH]; intros st epoch Hst; simpl.
  - split; [| now rewrite app_nil_r].
    unfold running_best, consistent in *.
    destruct (best_val_loss st) as [b |].
    + destruct (checkpoint st) as [c |]; [reflexivity | now destruct Hst].
    + rewrite Hst. reflexivity.
  - assert (Hnew : consistent {| best_val_loss := Some v; checkpoint := Some epoch;
                                 writes := writes st ++ [epoch] |})
      by (split; [assumption | discriminate]).
    destruct (IH _ (S epoch) Hnew) as [IH1 IH2]. simpl in IH1, IH2.
    rewrite <- app_assoc in IH2. simpl in IH2.
    unfold end_of_epoch, is_best.
    unfold running_best, consistent in *.
    destruct (best_val_loss st) as [b |] eqn:Eb.
    + destruct Hst as [Hb Hc].
      destruct (checkpoint st) as [c |] eqn:Ec; [| contradiction].
      rewrite (py_not_nonzero _ Hb). simpl.
      destruct (Qlt_bool v b) eqn:Elt; [split; assumption |].
      specialize (IH st (S epoch)). unfold consistent in IH.
      rewrite Eb, Ec in IH. apply IH. split; [assumption | discriminate].
    + rewrite Hst. simpl. split; assumption.
Qed.





(** When no validation loss is exactly zero, the loop keeps the checkpoint
    of the first minimum and writes exactly at the strict improvements. *)
Theorem train_loop_first_argmin (vs : list Q) :
  Forall nonzero vs ->
  checkpoint (train_loop vs) = first_argmin vs
  /\ writes (train_loop vs) = improvements vs.
Proof.
  intros H. exact (epochs_from_spec _ H init_state 0 eq_refl).
Qed.

Lemma train_loop_first_argmin_witness :
  Forall nonzero [3 # 4; 1 # 2; 1 # 2; 2 # 3] /\
  checkpoint (train_loop [3 # 4; 1 # 2; 1 # 2; 2 # 3]) = Some 1%nat /\
  writes (train_loop [3 # 4; 1 # 2; 1 # 2; 2 # 3]) = [0; 1]%nat.
Proof.
  assert (H : Forall nonzero [3 # 4; 1 # 2; 1 # 2; 2 # 3])
    by (repeat constructor; intros E; vm_compute in E; discriminate).
  split; [exact H |].
  destruct (train_loop_first_argmin _ H) as [H1 H2].
  rewrite H1, H2. split; reflexivity.
Defined.

(** C3, at a run whose first validation loss is exactly 0: [not
    best_val_loss] holds again at the second epoch, the checkpoint is
    written a second time and the persisted one is that of the second
    epoch, whereas the first minimum is at the first epoch and the only
    strict improvement is the first epoch. *)
Theorem checkpoint_after_zero_loss :
  checkpoint (train_loop [0; 1 # 2]) = Some 1%nat
  /\ writes (train_loop [0; 1 # 2]) = [0; 1]%nat
  /\ first_argmin [0; 1 # 2] = Some 0%nat
  /\ improvements [0; 1 # 2] = [0%nat].
Proof. repeat split; reflexivity. Qed.

End CheckpointSelection.

(** ** General facts about the error monad and the tensor operations *)

Section Generalities.

Lemma bind_ok {A B} (m : result A) (k : A -> result B) (b : B) :
  Py.bind m k = Ok b -> exists a, m = Ok a /\ k a = Ok b.
Proof. destruct m as [a | e]; simpl; [eauto | discriminate]. Qed.

Lemma mapM_ok {A B} (f : A -> result B) (l : list A) (r : list B) :
  mapM f l = Ok r -> Forall2 (fun x y => f x = Ok y) l r.
Proof.
  revert r. induction l as [| x l IH]; simpl; intros r H.
  - injection H as <-. constructor.
  - apply bind_ok in H as (y & Hy & H). apply bind_ok in H as (ys & Hys & H).
    injection H as <-. constructor; auto.
Qed.

Lemma mapM_ext {A B} (f g : A -> result B) (l : list A) :
  (forall x, In x l -> f x = g x) -> mapM f l = mapM g l.
Proof.
  induction l as [| x l IH]; simpl; intros H; [reflexivity |].
  rewrite (H x (or_introl eq_refl)), IH; [reflexivity |].
  intros; apply H; now right.
Qed.

Lemma zip_strict_ok {A B} (l : list A) (m : list B) (r : list (A * B)) :
  zip_strict l m = Ok r -> r = combine l m /\ length l = length m.
Proof.
  revert m r. induction l as [| x l IH]; intros [| y m] r H; simpl in H;
    try discriminate.
  - injection H as <-. split; reflexivity.
  - apply bind_ok in H as (r' & Hr' & H). injection H as <-.
    destruct (IH _ _ Hr') as [-> Hlen]. split; simpl; congruence.
Qed.

Lemma zip_strict_same_length {A B} (l : list A) (m : list B) :
  length l = length m -> zip_strict l m = Ok (combine l m).
Proof.
  revert m. induction l as [| x l IH]; intros [| y m] H; simpl in *;
    try discriminate; [reflexivity |].
  rewrite IH by congruence. reflexivity.
Qed.

Lemma prod_cons (p : Q) (l : list Q) : prod (p :: l) = p * prod l.
Proof. reflexivity. Qed.

Lemma prod_app (l m : list Q) : prod m = 1 -> prod (l ++ m) = prod l.
Proof.
  intros Hm. induction l as [| p l IH]; [exact Hm |].
  rewrite <- app_comm_cons, !prod_cons, IH. reflexivity.
Qed.

Lemma prod_ones (n : nat) : prod (repeat 1 n) = 1.
Proof.
  induction n as [| n IH]; [reflexivity |].
  cbn [repeat]. rewrite prod_cons, IH. reflexivity.
Qed.

(** A factor equal to zero makes the product zero. *)
Lemma prod_zero (l m : list Q) (z : Q) : z == 0 -> prod (l ++ z :: m) == 0.
Proof.
  intros Hz. induction l as [| p l IH].
  - cbn [app]. rewrite prod_cons, Hz. apply Qmult_0_l.
  - rewrite <- app_comm_cons, prod_cons, IH. apply Qmult_0_r.
Qed.

Lemma slice_middle {A} (before seg after : list A) :
  slice (before ++ seg ++ after) (length before) (length seg) = seg.
Proof.
  unfold slice.
  rewrite skipn_app, skipn_all, Nat.sub_diag. simpl.
  rewrite firstn_app, firstn_all, Nat.sub_diag. simpl.
  apply app_nil_r.
Qed.

(** Setting to 1 the slots that a mask selects after the first [n]. *)
Lemma masked_ones_padding (ps pads : list Q) :
  masked_ones (ps ++ pads)
              (repeat false (length ps) ++ repeat true (length pads))
  = Ok (ps ++ repeat 1 (length pads)).
Proof.
  unfold masked_ones.
  rewrite zip_strict_same_length
    by (rewrite !length_app, !repeat_length; reflexivity).
  simpl. f_equal.
  induction ps as [| p ps IH]; simpl; [| now rewrite IH].
  induction pads as [| p pads IH]; simpl; [reflexivity | now rewrite IH].
Qed.

End Generalities.

(** ** The product reduction of the three aggregators *)

Section ProductReduction.

Import LMKT Baselines.

Lemma eqb_mask_padding (idxs : list nat) (n : nat) :
  Forall (fun i => i <> 0%nat) idxs ->
  map (Nat.eqb 0) (idxs ++ repeat 0%nat n)
  = repeat false (length idxs) ++ repeat true n.
Proof.
  intros H. rewrite map_app. f_equal.
  - induction H as [| i idxs Hi _ IH]; [reflexivity |].
    cbn [map length repeat]. rewrite IH.
    destruct i; [contradiction | reflexivity].
  - induction n as [| n IH]; [reflexivity |].
    cbn [map repeat]. now rewrite IH.
Qed.

Lemma pad_mask_row_padding (n m : nat) :
  pad_mask_row (n + m) n = repeat false n ++ repeat true m.
Proof.
  unfold pad_mask_row. rewrite seq_app, map_app. f_equal.
  - assert (H : forall s k, (s + k <= n)%nat ->
                map (fun j => n <=? j) (seq s k) = repeat false k).
    { intros s k. revert s. induction k as [| k IH]; intros s Hs; simpl; [reflexivity |].
      rewrite IH by lia. destruct (Nat.leb_spec n s); [lia | reflexivity]. }
    apply H. lia.
  - assert (H : forall s k, (n <= s)%nat ->
                map (fun j => n <=? j) (seq s k) = repeat true k).
    { intros s k. revert s. induction k as [| k IH]; intros s Hs; simpl; [reflexivity |].
      rewrite IH by lia. destruct (Nat.leb_spec n s); [reflexivity | lia]. }
    apply H. simpl. lia.
Qed.

Lemma corr_prob_packed_padding (ps pads : list Q) (idxs : list nat) :
  length idxs = length ps ->
  Forall (fun i => i <> 0%nat) idxs ->
  corr_prob_packed (ps ++ pads) (idxs ++ repeat 0%nat (length pads)) = Ok (prod ps).
Proof.
  intros Hlen Hnz. unfold corr_prob_packed.
  rewrite (eqb_mask_padding _ _ Hnz), Hlen, masked_ones_padding. simpl.
  now rewrite (prod_app _ _ (prod_ones _)).
Qed.

Lemma corr_prob_turn_padding (ps pads : list Q) :
  corr_prob_turn (ps ++ pads, pad_mask_row (length (ps ++ pads)) (length ps))
  = Ok (prod ps).
Proof.
  unfold corr_prob_turn. simpl.
  rewrite length_app, pad_mask_row_padding, masked_ones_padding. simpl.
  now rewrite (prod_app _ _ (prod_ones _)).
Qed.

End ProductReduction.

(** ** Packed and unpacked aggregators agree *)

Section PackedUnpacked.

Import LMKT.

Variable ff : float_funs.
Variables true_token false_token : nat.

Lemma group_loop_corr (kc_probs : list Q) (nums : list nat) :
  forall counter,
    snd (group_loop kc_probs nums counter)
    = map prod (fst (group_loop kc_probs nums counter)).
Proof.
  induction nums as [| n rest IH]; intros counter; simpl; [reflexivity |].
  specialize (IH (counter + n)%nat).
  destruct (group_loop kc_probs rest (counter + n)) as [g c]. simpl in *.
  now rewrite IH.
Qed.

Lemma Forall2_combine_snd {A B C} (P : A * B -> C -> Prop)
    (l : list A) (m : list B) (r : list C) :
  length l = length m ->
  Forall2 P (combine l m) r ->
  Forall2 (fun y z => exists x, P (x, y) z) m r.
Proof.
  revert m r. induction l as [| x l IH]; intros [| y m] r Hlen H; simpl in *;
    try discriminate.
  - inversion H. constructor.
  - inversion H as [| ? z ? r' Hz Hr]; subst. constructor; [eauto |].
    apply IH; [congruence | assumption].
Qed.

Lemma kc_probs_packed_shape (logits : logits_t) (last_idxs : list (list nat))
    (kc : list (list Q)) :
  kc_probs_packed ff true_token false_token logits last_idxs = Ok kc ->
  Forall2 (fun probs idxs => length probs = length idxs) kc last_idxs.
Proof.
  unfold kc_probs_packed. intros H.
  destruct (zip_strict logits last_idxs) as [rows | e] eqn:Ez; [| discriminate].
  apply zip_strict_ok in Ez as [-> Hlen].
  apply mapM_ok in H. apply Forall2_combine_snd in H; [| exact Hlen].
  apply Forall2_flip.
  eapply Forall2_impl; [| exact H]. simpl.
  intros idxs probs (row & Hrow). apply mapM_ok in Hrow.
  symmetry. eapply Forall2_length; eassumption.
Qed.

Lemma forallb_zero_repeat (l : list nat) :
  forallb (Nat.eqb 0) l = true -> l = repeat 0%nat (length l).
Proof.
  induction l as [| i l IH]; simpl; intros H; [reflexivity |].
  apply andb_true_iff in H as [Hi Hl].
  destruct i; [| discriminate]. now rewrite <- IH.
Qed.

Lemma forallb_nonzero (l : list nat) :
  forallb (fun i => negb (i =? 0)%nat) l = true -> Forall (fun i => i <> 0%nat) l.
Proof.
  induction l as [| i l IH]; simpl; intros H; constructor.
  - apply andb_true_iff in H as [Hi _]. destruct i; [discriminate | lia].
  - apply IH. now apply andb_true_iff in H as [_ Hl].
Qed.

(** Under the invariant, the packed reduction of a row is the product of
    the turn's real KC probabilities. *)
Lemma corr_prob_packed_row (n : nat) (probs : list Q) (idxs : list nat) :
  padded_row n idxs = true ->
  length probs = length idxs ->
  corr_prob_packed probs idxs = Ok (prod (firstn n probs)).
Proof.
  unfold padded_row. intros H Hlen. apply andb_true_iff in H as [Hreal Hpad].
  apply forallb_nonzero in Hreal. apply forallb_zero_repeat in Hpad.
  rewrite <- (firstn_skipn n probs) at 1.
  rewrite <- (firstn_skipn n idxs), Hpad.
  replace (length (skipn n idxs)) with (length (skipn n probs))
    by (rewrite !length_skipn; congruence).
  apply corr_prob_packed_padding; [| assumption].
  rewrite !length_firstn. congruence.
Qed.

Lemma packed_rows (kc : list (list Q)) (last_idxs : list (list nat)) :
  Forall2 (fun probs idxs => length probs = length idxs) kc last_idxs ->
  forall (nums : list nat) (corr : list Q),
    length nums = length last_idxs ->
    forallb (fun ni : nat * list nat => padded_row (fst ni) (snd ni))
            (combine nums last_idxs) = true ->
    mapM (fun pl : list Q * list nat => corr_prob_packed (fst pl) (snd pl))
         (combine kc last_idxs) = Ok corr ->
    corr = map prod (map (fun pn : list Q * nat => firstn (snd pn) (fst pn))
                         (combine kc nums)).
Proof.
  induction 1 as [| probs idxs kc last_idxs Hlen _ IH];
    intros [| n nums] corr Hn Hpad Hcorr; simpl in *; try discriminate.
  - now injection Hcorr as <-.
  - apply andb_true_iff in Hpad as [Hrow Hpad].
    rewrite (corr_prob_packed_row _ _ _ Hrow Hlen) in Hcorr. simpl in Hcorr.
    apply bind_ok in Hcorr as (c & Hc & Hcorr). injection Hcorr as <-.
    f_equal. apply IH; [congruence | assumption | assumption].
Qed.

End PackedUnpacked.

(** ** The baseline loss: shift by one turn and ignored labels *)

Section BaselineLoss.

Import Baselines.

Variable ff : float_funs.

Lemma nth_error_mapM {A B} (f : A -> result B) (l : list A) (r : list B) :
  mapM f l = Ok r ->
  forall i y, nth_error r i = Some y -> exists x, nth_error l i = Some x /\ f x = Ok y.
Proof.
  intros H. apply mapM_ok in H.
  induction H as [| x y l r Hxy _ IH]; intros [| i] z Hz; simpl in *; try discriminate.
  - injection Hz as <-. eauto.
  - eauto.
Qed.

Lemma nth_error_combine {A B} (l : list A) (m : list B) :
  forall i x y, nth_error (combine l m) i = Some (x, y) ->
                nth_error l i = Some x /\ nth_error m i = Some y.
Proof.
  revert m. induction l as [| a l IH]; intros [| b m] [| i] x y H; simpl in *;
    try discriminate.
  - injection H as <- <-. split; reflexivity.
  - eauto.
Qed.

Lemma nth_error_map_inv {A B} (f : A -> B) (l : list A) (i : nat) (y : B) :
  nth_error (map f l) i = Some y -> exists x, nth_error l i = Some x /\ y = f x.
Proof.
  rewrite nth_error_map. destruct (nth_error l i) as [x |]; simpl; [| discriminate].
  intros H. injection H as <-. eauto.
Qed.

Lemma nth_error_tl {A} (l : list A) (t : nat) : nth_error (tl l) t = nth_error l (S t).
Proof. destruct l; [destruct t |]; reflexivity. Qed.

Lemma nth_error_removelast {A} (l : list A) (t : nat) (x : A) :
  nth_error (removelast l) t = Some x -> nth_error l t = Some x /\ (S t < length l)%nat.
Proof.
  revert t. induction l as [| a l IH]; intros t H; [destruct t; discriminate |].
  destruct l as [| a' l]; [destruct t; discriminate |].
  change (removelast (a :: a' :: l)) with (a :: removelast (a' :: l)) in H.
  destruct t as [| t]; simpl in H.
  - injection H as <-. split; [reflexivity | simpl; lia].
  - destruct (IH _ H) as [H1 H2]. split; [exact H1 | simpl in *; lia].
Qed.

Lemma gather_turns_nth (y : list (list Q)) (ids : list (list nat)) (r : list (list Q)) :
  gather_turns y ids = Ok r ->
  length r = length ids
  /\ forall t g, nth_error r t = Some g ->
       exists yt it, nth_error y t = Some yt /\ nth_error ids t = Some it
                     /\ gather_row yt it = Ok g.
Proof.
  revert y r. induction ids as [| i ids IH]; intros y r H; simpl in H.
  - injection H as <-. split; [reflexivity |]. intros [| t] g Hg; discriminate.
  - destruct y as [| yt y]; [discriminate |].
    apply bind_ok in H as (g0 & Hg0 & H). apply bind_ok in H as (rest & Hrest & H).
    injection H as <-. destruct (IH _ _ Hrest) as [Hlen Hnth].
    split; [simpl; congruence |].
    intros [| t] g Hg; simpl in *.
    + injection Hg as <-. eauto.
    + eauto.
Qed.

Lemma gather_dim2_nth (y : tensor3) (ids : list (list (list nat))) (r : tensor3) :
  gather_dim2 y ids = Ok r ->
  length r = length ids
  /\ forall i row, nth_error r i = Some row ->
       exists yb idsb, nth_error y i = Some yb /\ nth_error ids i = Some idsb
                       /\ gather_turns yb idsb = Ok row.
Proof.
  revert y r. induction ids as [| i ids IH]; intros y r H; simpl in H.
  - injection H as <-. split; [reflexivity |]. intros [| t] g Hg; discriminate.
  - destruct y as [| yb y]; [discriminate |].
    apply bind_ok in H as (g0 & Hg0 & H). apply bind_ok in H as (rest & Hrest & H).
    injection H as <-. destruct (IH _ _ Hrest) as [Hlen Hnth].
    split; [simpl; congruence |].
    intros [| t] g Hg; simpl in *.
    + injection Hg as <-. eauto.
    + eauto.
Qed.

Lemma pad_mask_row_min (K n : nat) : pad_mask_row K n = pad_mask_row K (Nat.min n K).
Proof.
  unfold pad_mask_row. apply map_ext_in. intros k Hk. apply in_seq in Hk.
  destruct (Nat.leb_spec n k), (Nat.leb_spec (Nat.min n K) k); try reflexivity; lia.
Qed.

(** The reduction of one turn, for any declared KC count. *)
Lemma corr_prob_turn_firstn (g : list Q) (n : nat) (c : Q) :
  corr_prob_turn (g, pad_mask_row (length g) n) = Ok c -> c = prod (firstn n g).
Proof.
  intros H. rewrite pad_mask_row_min in H.
  rewrite <- (firstn_skipn n g) in H at 1 2.
  replace (Nat.min n (length g)) with (length (firstn n g)) in H
    by apply length_firstn.
  rewrite corr_prob_turn_padding in H. now injection H.
Qed.

Lemma mapM_length {A B} (f : A -> result B) (l : list A) (r : list B) :
  mapM f l = Ok r -> length r = length l.
Proof. intros H. apply mapM_ok in H. symmetry. eapply Forall2_length; eassumption. Qed.

Lemma select_ok {A} (x : list A) (mask : list bool) (r : list A) :
  select x mask = Ok r ->
  length x = length mask /\ r = map fst (filter snd (combine x mask)).
Proof.
  unfold select. intros H.
  destruct (zip_strict x mask) as [rows | e] eqn:E; [| discriminate].
  apply zip_strict_ok in E as [-> Hlen]. injection H as <-. now split.
Qed.

Lemma filter_by_label {A B} (p : B -> bool) (xs : list A) (ls : list B) :
  length xs = length ls ->
  map fst (filter snd (combine xs (map p ls)))
  = map fst (filter (fun cl => p (snd cl)) (combine xs ls))
  /\ map fst (filter snd (combine ls (map p ls)))
     = map snd (filter (fun cl => p (snd cl)) (combine xs ls)).
Proof.
  revert ls. induction xs as [| x xs IH]; intros [| l ls] H; simpl in *;
    try discriminate; [split; reflexivity |].
  destruct (IH ls) as [IH1 IH2]; [congruence |].
  destruct (p l); simpl; rewrite IH1, IH2; split; reflexivity.
Qed.

Lemma combine_app_same {A B} (a x : list A) (b y : list B) :
  length a = length b -> combine (a ++ x) (b ++ y) = combine a b ++ combine x y.
Proof.
  revert b. induction a as [| u a IH]; intros [| v b] H; simpl in *;
    try discriminate; [reflexivity |].
  rewrite IH by congruence. reflexivity.
Qed.

Lemma combine_concat {A B} (xs : list (list A)) (ys : list (list B)) :
  Forall2 (fun a b => length a = length b) xs ys ->
  combine (concat xs) (concat ys)
  = concat (map (fun ab => combine (fst ab) (snd ab)) (combine xs ys)).
Proof.
  induction 1 as [| a b xs ys Hab _ IH]; simpl; [reflexivity |].
  rewrite combine_app_same by assumption. now rewrite IH.
Qed.

Lemma gather_turns_shape (y : list (list Q)) (ids : list (list nat)) (r : list (list Q)) :
  gather_turns y ids = Ok r -> length r = length ids.
Proof. intros H. now apply gather_turns_nth in H. Qed.

Lemma gather_dim2_shape (y : tensor3) (ids : list (list (list nat))) :
  forall r, gather_dim2 y ids = Ok r ->
            Forall2 (fun row idsb => length row = length idsb) r ids.
Proof.
  revert y. induction ids as [| i ids IH]; intros y r H; simpl in H.
  - injection H as <-. constructor.
  - destruct y as [| yb y]; [discriminate |].
    apply bind_ok in H as (g0 & Hg0 & H). apply bind_ok in H as (rest & Hrest & H).
    injection H as <-. constructor; [eapply gather_turns_shape; eassumption | eauto].
Qed.

Lemma corr_probs_dialogue_length (probs : list (list Q)) (mask : list (list bool))
    (crow : list Q) :
  corr_probs_dialogue probs mask = Ok crow -> length crow = length probs.
Proof.
  unfold corr_probs_dialogue. intros H.
  apply bind_ok in H as (rows & Hrows & H).
  apply zip_strict_ok in Hrows as [-> Hlen]. apply mapM_length in H.
  rewrite H, length_combine, <- Hlen. apply Nat.min_id.
Qed.

Lemma corr_rows_shape (kp : tensor3) (masks : list (list (list bool))) :
  forall corr,
    mapM (fun pm : list (list Q) * list (list bool) =>
            corr_probs_dialogue (fst pm) (snd pm))
         (combine kp masks) = Ok corr ->
    length kp = length masks ->
    Forall2 (fun crow row => length crow = length row) corr kp.
Proof.
  revert masks. induction kp as [| row kp IH]; intros [| m masks] corr H Hlen;
    simpl in *; try discriminate.
  - injection H as <-. constructor.
  - apply bind_ok in H as (crow & Hcrow & H). apply bind_ok in H as (rest & Hrest & H).
    injection H as <-. constructor.
    + eapply corr_probs_dialogue_length; eassumption.
    + eapply IH; [eassumption | congruence].
Qed.

Lemma Forall2_length_trans {A B C} (l : list (list A)) (m : list (list B))
    (r : list (list C)) (d : nat) :
  Forall2 (fun a b => length a = length b) l m ->
  Forall2 (fun b c => length b = (length c - d)%nat) m r ->
  Forall2 (fun a c => length a = (length c - d)%nat) l r.
Proof.
  intros H. revert r. induction H as [| a b l m Hab _ IH]; intros r Hr;
    inversion Hr; subst; constructor; [congruence | auto].
Qed.

Lemma corr_prob_turn_masked (g : list Q) (K n : nat) (c : Q) :
  corr_prob_turn (g, pad_mask_row K n) = Ok c -> c = prod (firstn n g).
Proof.
  intros H. assert (HK : length g = K).
  { unfold corr_prob_turn, masked_ones in H. simpl in H.
    apply bind_ok in H as (m & Hm & _). apply bind_ok in Hm as (r & Hr & _).
    apply zip_strict_ok in Hr as [_ Hr].
    unfold pad_mask_row in Hr. now rewrite length_map, length_seq in Hr. }
  subst K. now apply corr_prob_turn_firstn.
Qed.

(** C7.  On a batch whose label tensor has the shape of its KC identifiers,
    when [get_baseline_loss] returns:
    - the correctness probability at position [t] of dialogue [i] is the
      product of the outputs at position [t], gathered at the KC identifiers
      of turn [t + 1] and restricted to the KC count of turn [t + 1];
    - there is one such probability per turn but the first, and the outputs
      at the last position play no role;
    - the loss is the BCE loss of these probabilities against the labels of
      turn [t + 1], over the positions whose label is not -100. *)
Theorem baseline_loss_shift_and_mask
    (y : tensor3) (b : batch) (loss : Q) (corr : list (list Q)) :
  labels_shaped b ->
  get_baseline_loss ff y b = Ok (loss, corr) ->
  (forall i t c, at2 corr i t = Some c ->
     exists yt ids n g,
       at2 y i t = Some yt /\ at2 (kc_ids b) i (S t) = Some ids
       /\ at2 (num_kcs b) i (S t) = Some n
       /\ gather_row yt ids = Ok g /\ c = prod (firstn n g))
  /\ Forall2 (fun crow lrow => length crow = (length lrow - 1)%nat) corr (labels b)
  /\ (forall y', map (@removelast _) y' = map (@removelast _) y ->
                get_baseline_loss ff y' b = Ok (loss, corr))
  /\ (let pairs := filter (fun cl : Q * Z => not_ignored (snd cl))
                          (shifted_pairs corr (labels b)) in
      BCELoss ff (map fst pairs) (map (fun cl : Q * Z => inject_Z (snd cl)) pairs)
      = Ok loss).
Proof.
  intros Hshape H.
  assert (H0 := H). unfold get_baseline_loss in H.
  apply bind_ok in H as (kp & Hkp & H).
  apply bind_ok in H as (dialogues & Hd & H).
  apply bind_ok in H as (corr0 & Hcorr & H).
  apply bind_ok in H as (labels_sel & Hls & H).
  apply bind_ok in H as (corr_sel & Hcs & H).
  apply bind_ok in H as (loss0 & Hloss & H).
  injection H as -> ->.
  apply zip_strict_ok in Hd as [-> Hdlen].
  assert (Hrows : Forall2 (fun crow lrow => length crow = (length lrow - 1)%nat)
                          corr (labels b)).
  { pose proof (corr_rows_shape _ _ _ Hcorr Hdlen) as H1.
    pose proof (gather_dim2_shape _ _ _ Hkp) as H2.
    apply Forall2_length_trans with (m := kp); [exact H1 |].
    clear - H2 Hshape. unfold labels_shaped in Hshape.
    revert kp H2. induction Hshape as [| lrow idsrow ls ids Hl _ IH]; intros kp H2;
      simpl in H2; inversion H2; subst; constructor; [| auto].
    match goal with Hk : length _ = length (tl idsrow) |- _ => rewrite Hk end.
    rewrite Hl. destruct idsrow; simpl; lia. }
  split; [| split; [exact Hrows | split]].
  - intros i t c Hc. unfold at2 in Hc.
    destruct (nth_error corr i) as [crow |] eqn:Ei; [| discriminate].
    destruct (nth_error_mapM _ _ _ Hcorr _ _ Ei) as ([kprow mrow] & Hpm & Hdial).
    apply nth_error_combine in Hpm as [Hkprow Hmrow]. simpl in Hdial.
    unfold corr_probs_dialogue in Hdial.
    apply bind_ok in Hdial as (rows & Hrows' & Hdial).
    apply zip_strict_ok in Hrows' as [-> _].
    destruct (nth_error_mapM _ _ _ Hdial _ _ Hc) as ([g m] & Hgm & Hturn).
    apply nth_error_combine in Hgm as [Hg Hm].
    destruct (gather_dim2_nth _ _ _ Hkp) as [_ Hnth].
    destruct (Hnth _ _ Hkprow) as (yb & idsb & Hyb & Hidsb & Hturns).
    destruct (gather_turns_nth _ _ _ Hturns) as [_ Hnth'].
    destruct (Hnth' _ _ Hg) as (yt & it & Hyt & Hit & Hrow).
    apply nth_error_map_inv in Hyb as (yb0 & Hyb0 & ->).
    apply nth_error_removelast in Hyt as [Hyt _].
    apply nth_error_map_inv in Hidsb as (idsb0 & Hidsb0 & ->).
    rewrite nth_error_tl in Hit.
    apply nth_error_map_inv in Hmrow as (mrow0 & Hmrow0 & ->).
    unfold kc_pad_mask in Hmrow0.
    apply nth_error_map_inv in Hmrow0 as (nrow & Hnrow & ->).
    rewrite nth_error_tl in Hm.
    apply nth_error_map_inv in Hm as (n & Hn & ->).
    exists yt, it, n, g. unfold at2. rewrite Hyb0, Hidsb0, Hnrow.
    repeat split; try assumption.
    eapply corr_prob_turn_masked; eassumption.
  - intros y' Hy'. unfold get_baseline_loss. rewrite Hy'. exact H0.
  - cbv zeta.
    apply select_ok in Hls as [_ ->]. apply select_ok in Hcs as [Hlen ->].
    rewrite length_map in Hlen.
    destruct (filter_by_label (fun l => negb (l =? IGNORE)%Z) _ _ Hlen) as [E1 E2].
    rewrite E1, E2, map_map in Hloss.
    unfold shifted_pairs.
    assert (Hpairs : combine (concat corr) (concat (map (@tl _) (labels b)))
                     = concat (map (fun cl : list Q * list Z =>
                                      combine (fst cl) (tl (snd cl)))
                                   (combine corr (labels b)))).
    { rewrite combine_concat.
      - f_equal. clear. generalize (labels b) as ls.
        induction corr as [| c cs IH]; intros [| l ls]; simpl; try reflexivity.
        now rewrite IH.
      - clear - Hrows. induction Hrows as [| c l cs ls Hcl _ IH]; simpl; constructor;
          [| assumption].
        rewrite Hcl. destruct l; simpl; lia. }
    rewrite <- Hpairs. exact Hloss.
Qed.

End BaselineLoss.

Lemma baseline_loss_shift_and_mask_witness :
  labels_shaped sample_batch
  /\ Baselines.get_baseline_loss sample_funs sample_outputs sample_batch
     = Ok (7476 # 14112, [[1 # 12; 1 # 7; 1]])
  /\ BCELoss sample_funs [1 # 12; 1 # 7] [1; 0] = Ok (7476 # 14112).
Proof.
  assert (Hs : labels_shaped sample_batch) by (repeat constructor).
  assert (Hl : Baselines.get_baseline_loss sample_funs sample_outputs sample_batch
               = Ok (7476 # 14112, [[1 # 12; 1 # 7; 1]])) by reflexivity.
  split; [exact Hs |]. split; [exact Hl |].
  exact (proj2 (proj2 (proj2
           (baseline_loss_shift_and_mask sample_funs _ _ _ _ Hs Hl)))).
Defined.

(** ** In-place updates of the batch *)

Section BatchMutation.

Import LMKT Baselines.

Lemma finfo_min_negative (d : float_dtype) : (finfo_min d < 0)%Z.
Proof. destruct d; reflexivity. Qed.

Lemma invert_entry_binary (min_dtype x : Z) :
  (min_dtype < 0)%Z -> x = 0%Z \/ x = 1%Z ->
  invert_entry min_dtype x = (if (x =? 0)%Z then min_dtype else 0%Z)
  /\ invert_entry min_dtype (invert_entry min_dtype x) = min_dtype
  /\ invert_entry min_dtype x <> x.
Proof.
  intros Hm [-> | ->]; unfold invert_entry; simpl.
  - destruct (Z.eqb_spec min_dtype 1); [lia |].
    destruct (Z.eqb_spec min_dtype 0); [lia |].
    rewrite (proj2 (Z.eqb_neq _ _) n). repeat split; lia.
  - simpl. destruct (Z.eqb_spec min_dtype 1); [lia |]. repeat split; lia.
Qed.

Lemma map_map_changed {A} (f : A -> A) (t : list (list A)) :
  concat t <> [] ->
  Forall (Forall (fun x => f x <> x)) t ->
  map (map f) t <> t.
Proof.
  induction t as [| row t IH]; intros Hne Hall E; [now apply Hne |].
  inversion Hall as [| ? ? Hrow Ht]; subst.
  simpl in E. injection E as Erow Et.
  destruct row as [| x row].
  - apply IH; assumption.
  - inversion Hrow; subst. simpl in Erow. injection Erow as Ex _. contradiction.
Qed.

Lemma fold_left_max_spec (l : list nat) :
  forall x, let r := fold_left Nat.max l x in
            (r = x \/ In r l) /\ (x <= r)%nat /\ forall i, In i l -> (i <= r)%nat.
Proof.
  induction l as [| a l IH]; intros x; simpl.
  - repeat split; [now left | lia | contradiction].
  - destruct (IH (Nat.max x a)) as (Hin & Hle & Hall).
    repeat split.
    + destruct Hin as [-> | Hin]; [| now right; right].
      destruct (Nat.max_spec x a) as [[_ ->] | [_ ->]]; [right; now left | now left].
    + lia.
    + intros i [-> | Hi]; [lia | now apply Hall].
Qed.

Lemma tensor_max_spec (t : list (list nat)) (m : nat) :
  tensor_max t = Ok m ->
  In m (concat t) /\ forall i, In i (concat t) -> (i <= m)%nat.
Proof.
  unfold tensor_max. destruct (concat t) as [| x l]; [discriminate |].
  intros H. injection H as <-.
  destruct (fold_left_max_spec l x) as (Hin & Hle & Hall).
  split.
  - destruct Hin as [-> | Hin]; [now left | now right].
  - intros i [<- | Hi]; [exact Hle | now apply Hall].
Qed.

Lemma tensor_max_intro (t : list (list nat)) (m : nat) :
  In m (concat t) -> (forall i, In i (concat t) -> (i <= m)%nat) ->
  tensor_max t = Ok m.
Proof.
  unfold tensor_max. intros Hin Hall.
  destruct (concat t) as [| x l]; [contradiction |].
  destruct (fold_left_max_spec l x) as (Hr & Hle & Hmax).
  f_equal. apply Nat.le_antisymm.
  - apply Hall. destruct Hr as [-> | Hr]; [now left | now right].
  - destruct Hin as [<- | Hin]; [exact Hle | now apply Hmax].
Qed.

Lemma concat_shift_clip (m : nat) (t : list (list nat)) :
  concat (shift_clip m t) = map (fun i => Nat.min (i + 1) m) (concat t).
Proof. unfold shift_clip. now rewrite concat_map. Qed.

(** The maximum is a fixed point of the clipped shift. *)
Lemma tensor_max_shift_clip (t : list (list nat)) (m : nat) :
  tensor_max t = Ok m -> tensor_max (shift_clip m t) = Ok m.
Proof.
  intros H. apply tensor_max_spec in H as [Hin Hall].
  apply tensor_max_intro; rewrite concat_shift_clip.
  - apply in_map_iff. exists m. split; [lia | assumption].
  - intros i Hi. apply in_map_iff in Hi as (j & <- & _). lia.
Qed.

Variable ff : float_funs.
Variables true_token false_token : nat.

(** C10.  [get_lmkt_loss_packed] leaves in the batch the additive mask it
    computed from the 0/1 mask, so that a second call on that batch inverts
    the additive mask again and masks every position; with the shift,
    [select_flat_baseline_out_vectors] leaves in the batch the incremented
    and clipped turn-end indices, so that a second call gathers at indices
    incremented twice.  Neither call returns the batch it was given, as soon
    as the mask has an entry, respectively as soon as some index is below
    the maximum. *)
Theorem batch_mutated_in_place
    (model : lm) (b : batch_packed) (y : tensor3) (bb : batch) (m : nat) :
  Forall (Forall (fun x => x = 0%Z \/ x = 1%Z)) (p_attention_mask b) ->
  tensor_max (turn_end_idxs bb) = Ok m ->
  let min_dtype := finfo_min (dtype model) in
  let b1 := fst (get_lmkt_loss_packed ff true_token false_token model b) in
  let b2 := fst (get_lmkt_loss_packed ff true_token false_token model b1) in
  let bb1 := fst (select_flat_baseline_out_vectors y bb true) in
  let bb2 := fst (select_flat_baseline_out_vectors y bb1 true) in
  p_attention_mask b1
    = map (map (fun x => if (x =? 0)%Z then min_dtype else 0%Z)) (p_attention_mask b)
  /\ p_attention_mask b2 = map (map (fun _ => min_dtype)) (p_attention_mask b)
  /\ (concat (p_attention_mask b) <> [] -> b1 <> b)
  /\ turn_end_idxs bb1 = shift_clip m (turn_end_idxs bb)
  /\ snd (select_flat_baseline_out_vectors y bb true)
     = gather_dim1 y (shift_clip m (turn_end_idxs bb))
  /\ turn_end_idxs bb2 = shift_clip m (shift_clip m (turn_end_idxs bb))
  /\ snd (select_flat_baseline_out_vectors y bb1 true)
     = gather_dim1 y (shift_clip m (shift_clip m (turn_end_idxs bb)))
  /\ ((exists i, In i (concat (turn_end_idxs bb)) /\ (i < m)%nat) -> bb1 <> bb).
Proof.
  intros Hbin Hmax min_dtype b1 b2 bb1 bb2.
  pose proof (finfo_min_negative (dtype model)) as Hneg. fold min_dtype in Hneg.
  assert (E1 : p_attention_mask b1 = invert_mask min_dtype (p_attention_mask b))
    by reflexivity.
  assert (E2 : p_attention_mask b2 = invert_mask min_dtype (p_attention_mask b1))
    by reflexivity.
  assert (F1 : turn_end_idxs bb1 = shift_clip m (turn_end_idxs bb)
               /\ snd (select_flat_baseline_out_vectors y bb true)
                  = gather_dim1 y (shift_clip m (turn_end_idxs bb))).
  { subst bb1. unfold select_flat_baseline_out_vectors. rewrite Hmax. now split. }
  destruct F1 as [F1 F1'].
  assert (F2 : turn_end_idxs bb2 = shift_clip m (shift_clip m (turn_end_idxs bb))
               /\ snd (select_flat_baseline_out_vectors y bb1 true)
                  = gather_dim1 y (shift_clip m (shift_clip m (turn_end_idxs bb)))).
  { subst bb2. unfold select_flat_baseline_out_vectors.
    rewrite F1, (tensor_max_shift_clip _ _ Hmax). now split. }
  destruct F2 as [F2 F2'].
  repeat split; try assumption.
  - rewrite E1. unfold invert_mask. apply map_ext_in. intros row Hrow.
    apply map_ext_in. intros x Hx.
    rewrite Forall_forall in Hbin. specialize (Hbin _ Hrow).
    rewrite Forall_forall in Hbin.
    now apply invert_entry_binary; [| apply Hbin].
  - rewrite E2, E1. unfold invert_mask. rewrite map_map. apply map_ext_in.
    intros row Hrow. rewrite map_map. apply map_ext_in. intros x Hx.
    rewrite Forall_forall in Hbin. specialize (Hbin _ Hrow).
    rewrite Forall_forall in Hbin.
    now apply invert_entry_binary; [| apply Hbin].
  - intros Hne E. apply (f_equal p_attention_mask) in E. rewrite E1 in E.
    revert E. apply map_map_changed; [exact Hne |].
    eapply Forall_impl; [| exact Hbin]. intros row Hrow.
    eapply Forall_impl; [| exact Hrow]. intros x Hx.
    now apply invert_entry_binary.
  - intros (i & Hi & Hlt) E. apply (f_equal turn_end_idxs) in E. rewrite F1 in E.
    apply (f_equal (@concat _)) in E. rewrite concat_shift_clip in E.
    clear - Hi Hlt E. induction (concat (turn_end_idxs bb)) as [| j l IH];
      [contradiction |].
    simpl in E. injection E as Ej El. destruct Hi as [-> | Hi]; [lia | auto].
Qed.

End BatchMutation.

Lemma batch_mutated_in_place_witness :
  LMKT.p_attention_mask
    (fst (LMKT.get_lmkt_loss_packed sample_funs 0 1 masking_lm sample_packed))
  = map (map (fun x => if (x =? 0)%Z then finfo_min bfloat16 else 0%Z))
        [[1; 1; 1]; [1; 1; 0]]%Z
  /\ Baselines.turn_end_idxs
       (fst (Baselines.select_flat_baseline_out_vectors sample_outputs sample_batch true))
     = [[1; 3; 3; 3]]%nat
  /\ snd (LMKT.get_lmkt_loss_packed sample_funs 0 1 masking_lm sample_packed)
     <> snd (LMKT.get_lmkt_loss_packed sample_funs 0 1 masking_lm
               (fst (LMKT.get_lmkt_loss_packed sample_funs 0 1 masking_lm sample_packed))).
Proof.
  assert (Hbin : Forall (Forall (fun x => x = 0%Z \/ x = 1%Z))
                        (LMKT.p_attention_mask sample_packed))
    by (repeat constructor; auto).
  assert (Hmax : Baselines.tensor_max (Baselines.turn_end_idxs sample_batch) = Ok 3%nat)
    by reflexivity.
  destruct (batch_mutated_in_place sample_funs 0 1 masking_lm sample_packed
              sample_outputs sample_batch 3 Hbin Hmax)
    as (H1 & _ & _ & H4 & _).
  split; [exact H1 |]. split; [exact H4 |].
  vm_compute. discriminate.
Defined.

(** ** Metrics engine *)

Section MetricsEngine.

Import Metrics.

Lemma classes_single (c : Z) (labels : list Z) :
  labels <> [] -> Forall (eq c) labels -> classes labels = [c].
Proof.
  unfold classes. induction labels as [| l labels IH]; intros Hne Hall; [contradiction |].
  apply Forall_cons_iff in Hall as [<- Hall']. simpl.
  destruct labels as [| l' labels]; [reflexivity |].
  destruct (in_dec Z.eq_dec c (l' :: labels)) as [_ | Hn].
  - apply IH; [discriminate | assumption].
  - apply Forall_cons_iff in Hall' as [<- _]. exfalso. apply Hn. now left.
Qed.

Lemma accuracy_score_ok (labels hard : list Z) :
  length labels = length hard -> exists acc, accuracy_score labels hard = Ok acc.
Proof.
  intros H. unfold accuracy_score. rewrite H, Nat.eqb_refl. simpl. eauto.
Qed.

(** C9.  On labels of a single class (and predictions of the same length),
    [compute_metrics] raises the error of [roc_auc_score], and so does
    [compute_all_metrics], whether the degenerate vector is that of all the
    turns or that of the final turns: nothing is returned and no report is
    written. *)
Theorem single_class_error_propagates (c : Z) (labels : list Z) (preds : list Q) :
  labels <> [] ->
  Forall (eq c) labels ->
  length labels = length preds ->
  roc_auc_score labels preds = Raise only_one_class
  /\ compute_metrics labels preds = Raise only_one_class
  /\ (forall loss final_labels final_preds suffix,
        compute_all_metrics loss labels preds final_labels final_preds suffix
        = Raise only_one_class)
  /\ (forall loss all_labels all_preds suffix m,
        compute_metrics all_labels all_preds = Ok m ->
        compute_all_metrics loss all_labels all_preds labels preds suffix
        = Raise only_one_class).
Proof.
  intros Hne Hall Hlen.
  assert (Hauc : roc_auc_score labels preds = Raise only_one_class).
  { unfold roc_auc_score. rewrite Hlen, Nat.eqb_refl. simpl.
    now rewrite (classes_single c). }
  assert (Hm : compute_metrics labels preds = Raise only_one_class).
  { unfold compute_metrics.
    destruct (accuracy_score_ok labels (map np_round preds)) as [acc ->];
      [now rewrite length_map |].
    simpl. now rewrite Hauc. }
  repeat split; try assumption.
  - intros. unfold compute_all_metrics. now rewrite Hm.
  - intros loss al ap suffix m Hal. unfold compute_all_metrics.
    rewrite Hal. simpl. now rewrite Hm.
Qed.

Lemma single_class_error_propagates_witness :
  compute_metrics [1; 1; 1]%Z [9 # 10; 4 # 10; 7 # 10] = Raise only_one_class
  /\ compute_all_metrics (1 # 2) [1; 0; 1]%Z [9 # 10; 4 # 10; 7 # 10]
                         [1; 1; 1]%Z [9 # 10; 4 # 10; 7 # 10] "run"
     = Raise only_one_class.
Proof.
  assert (Hall : Forall (eq 1%Z) [1; 1; 1]%Z) by (repeat constructor).
  assert (Hne : [1; 1; 1]%Z <> []) by discriminate.
  destruct (single_class_error_propagates 1 [1; 1; 1]%Z [9 # 10; 4 # 10; 7 # 10]
              Hne Hall eq_refl) as (_ & Hm & _ & Hfinal).
  split; [exact Hm |].
  destruct (compute_metrics [1; 0; 1]%Z [9 # 10; 4 # 10; 7 # 10]) as [m | e] eqn:E;
    [| vm_compute in E; discriminate].
  exact (Hfinal (1 # 2) _ _ "run"%string m E).
Defined.

End MetricsEngine.

(** ** The vector returned by the evaluation drivers *)

Section ReturnedVector.

Import Metrics.

Lemma compute_all_metrics_ok (loss : Q) (all_labels : list Z) (all_preds : list Q)
    (final_labels : list Z) (final_preds : list Q) (suffix path : string)
    (rep : report) (am fm : metrics_t) :
  compute_all_metrics loss all_labels all_preds final_labels final_preds suffix
    = Ok (path, rep, (am, fm)) ->
  compute_metrics all_labels all_preds = Ok am
  /\ compute_metrics final_labels final_preds = Ok fm
  /\ path = ("results/metrics_" ++ suffix ++ ".txt")%string
  /\ rep = {| rep_loss := loss;
              rep_overall := describe all_labels all_preds am;
              rep_final := describe final_labels final_preds fm |}.
Proof.
  unfold compute_all_metrics. intros H.
  apply bind_ok in H as (am' & Ham & H). apply bind_ok in H as (fm' & Hfm & H).
  injection H as <- <- <- <-. repeat split; assumption.
Qed.

(** C6, as the code has it.  [compute_all_metrics] calls [compute_metrics] on
    all the turns, then on the final turns, writes the report and returns the
    two metric tuples.  Each driver passes it the labels and predictions it
    has collected over all the turns, then those of the final turns, and
    returns the loss followed by the five metrics of all the turns and the
    five metrics of the final turns: eleven entries, the loss appearing
    once. *)
Theorem returned_vector_layout :
  (forall loss all_labels all_preds final_labels final_preds suffix path rep am fm,
      compute_all_metrics loss all_labels all_preds final_labels final_preds suffix
        = Ok (path, rep, (am, fm)) ->
      compute_metrics all_labels all_preds = Ok am
      /\ compute_metrics final_labels final_preds = Ok fm
      /\ path = ("results/metrics_" ++ suffix ++ ".txt")%string
      /\ rep = {| rep_loss := loss;
                  rep_overall := describe all_labels all_preds am;
                  rep_final := describe final_labels final_preds fm |})
  /\ (forall (Batch : Type) meta_data labels get_loss suffix
             (loader : list Batch) (ev : EvalLM.evaluation),
        EvalLM.test_lmkt meta_data labels get_loss suffix loader = Ok ev ->
        exists st final_labels final_preds loss
               acc auc prec rec f1 acc' auc' prec' rec' f1',
          EvalLM.collect meta_data labels get_loss loader = Ok st
          /\ EvalLM.final_turns (EvalLM.dialogue_idx_to_sample_idxs st)
                                (EvalLM.all_labels st) = Ok final_labels
          /\ EvalLM.final_turns (EvalLM.dialogue_idx_to_sample_idxs st)
                                (EvalLM.all_preds st) = Ok final_preds
          /\ EvalLM.average_loss (EvalLM.total_loss st) (length loader) = Ok loss
          /\ compute_metrics (EvalLM.all_labels st) (EvalLM.all_preds st)
             = Ok (acc, auc, prec, rec, f1)
          /\ compute_metrics final_labels final_preds
             = Ok (acc', auc', prec', rec', f1')
          /\ EvalLM.metrics_report ev
             = {| rep_loss := loss;
                  rep_overall := describe (EvalLM.all_labels st) (EvalLM.all_preds st)
                                          (acc, auc, prec, rec, f1);
                  rep_final := describe final_labels final_preds
                                        (acc', auc', prec', rec', f1') |}
          /\ EvalLM.returned ev
             = [loss; acc; auc; prec; rec; f1; acc'; auc'; prec'; rec'; f1'])
  /\ (forall ff fw env a fold (ev : Baselines.evaluation),
        Baselines.test_baseline ff fw env a fold = Ok ev ->
        exists st loss acc auc prec rec f1 acc' auc' prec' rec' f1',
          Baselines.collect ff fw env a fold = Ok st
          /\ Baselines.test_dataloader env a fold <> []
          /\ loss = Baselines.total_loss st
                    / inject_Z (Z.of_nat (length (Baselines.test_dataloader env a fold)))
          /\ compute_metrics (Baselines.all_labels st) (Baselines.all_preds st)
             = Ok (acc, auc, prec, rec, f1)
          /\ compute_metrics (Baselines.final_turn_labels st)
                             (Baselines.final_turn_preds st)
             = Ok (acc', auc', prec', rec', f1')
          /\ Baselines.metrics_report ev
             = {| rep_loss := loss;
                  rep_overall := describe (Baselines.all_labels st)
                                          (Baselines.all_preds st)
                                          (acc, auc, prec, rec, f1);
                  rep_final := describe (Baselines.final_turn_labels st)
                                        (Baselines.final_turn_preds st)
                                        (acc', auc', prec', rec', f1') |}
          /\ Baselines.returned ev
             = [loss; acc; auc; prec; rec; f1; acc'; auc'; prec'; rec'; f1']).
Proof.
  split; [exact compute_all_metrics_ok | split].
  - intros Batch meta_data labels get_loss suffix loader ev H.
    unfold EvalLM.test_lmkt in H.
    apply bind_ok in H as (st & Hst & H). apply bind_ok in H as (loss & Hloss & H).
    apply bind_ok in H as (fl & Hfl & H). apply bind_ok in H as (fp & Hfp & H).
    apply bind_ok in H as ([[path rep] [am fm]] & Hm & H).
    apply bind_ok in H as (kc & _ & H). injection H as <-.
    apply compute_all_metrics_ok in Hm as (Ham & Hfm & _ & ->).
    destruct am as [[[[acc auc] prec] rec] f1], fm as [[[[acc' auc'] prec'] rec'] f1'].
    exists st, fl, fp, loss, acc, auc, prec, rec, f1, acc', auc', prec', rec', f1'.
    repeat split; assumption.
  - intros ff fw env a fold ev H.
    unfold Baselines.test_baseline in H.
    apply bind_ok in H as (st & Hst & H). apply bind_ok in H as (loss & Hloss & H).
    apply bind_ok in H as ([[path rep] [am fm]] & Hm & H). injection H as <-.
    apply compute_all_metrics_ok in Hm as (Ham & Hfm & _ & ->).
    destruct am as [[[[acc auc] prec] rec] f1], fm as [[[[acc' auc'] prec'] rec'] f1'].
    exists st, loss, acc, auc, prec, rec, f1, acc', auc', prec', rec', f1'.
    destruct (Baselines.test_dataloader env a fold) as [| b0 rest] eqn:El;
      [discriminate |].
    injection Hloss as <-.
    repeat split; try assumption; discriminate.
Qed.

Lemma returned_vector_layout_witness :
  exists ev st acc auc prec rec f1 acc' auc' prec' rec' f1',
    EvalLM.test_lmkt_unpacked sample_funs 0 1 sample_lm "run" loader_of_one = Ok ev
    /\ EvalLM.collect LMKT.u_meta_data LMKT.u_labels
         (LMKT.get_lmkt_loss_unpacked sample_funs 0 1 sample_lm) loader_of_one = Ok st
    /\ compute_metrics (EvalLM.all_labels st) (EvalLM.all_preds st)
       = Ok (acc, auc, prec, rec, f1)
    /\ EvalLM.returned ev
       = [EvalLM.total_loss st / 3; acc; auc; prec; rec; f1;
          acc'; auc'; prec'; rec'; f1'].
Proof.
  destruct (EvalLM.test_lmkt_unpacked sample_funs 0 1 sample_lm "run" loader_of_one)
    as [ev | e] eqn:E; [| vm_compute in E; discriminate].
  destruct (proj1 (proj2 returned_vector_layout) _ _ _ _ _ _ _ E)
    as (st & fl & fp & loss & acc & auc & prec & rec & f1
        & acc' & auc' & prec' & rec' & f1'
        & Hst & _ & _ & Hloss & Ham & _ & _ & Hret).
  exists ev, st, acc, auc, prec, rec, f1, acc', auc', prec', rec', f1'.
  injection Hloss as <-.
  repeat split; assumption.
Defined.

(** The returned vector is not of the layout "six entries twice": on a run
    over two dialogues it has eleven entries. *)
Lemma returned_vector_not_twice_six :
  match EvalLM.test_lmkt_unpacked sample_funs 0 1 sample_lm "run" loader_of_one with
  | Ok ev => length (EvalLM.returned ev) = 11%nat /\ ~ twice_six (EvalLM.returned ev)
  | Raise _ => False
  end.
Proof.
  destruct (EvalLM.test_lmkt_unpacked sample_funs 0 1 sample_lm "run" loader_of_one)
    as [ev | e] eqn:E; [| vm_compute in E; discriminate].
  vm_compute in E. injection E as <-. split; [reflexivity |].
  intros (l & a & u & p & r & f & l' & a' & u' & p' & r' & f' & H).
  apply (f_equal (@length Q)) in H. discriminate.
Qed.

End ReturnedVector.

(** ** The majority policy *)

Section MajorityPolicy.

Import Metrics Baselines.

Lemma index_map {A B} (f : A -> B) (l : list A) (i : nat) :
  index (map f l) i = fmap f (index l i).
Proof.
  unfold index, fmap. rewrite nth_error_map.
  destruct (nth_error l i); reflexivity.
Qed.

Lemma zindex_map {A B} (f : A -> B) (l : list A) (i : Z) :
  zindex (map f l) i = fmap f (zindex l i).
Proof.
  unfold zindex. rewrite length_map.
  destruct (i <? 0)%Z; [destruct (i + Z.of_nat (length l) <? 0)%Z |];
    try apply index_map; reflexivity.
Qed.

Lemma select_map {A B} (f : A -> B) (x : list A) (mask : list bool) :
  select (map f x) mask = fmap (map f) (select x mask).
Proof.
  unfold select.
  assert (H : forall (x : list A) mask,
             zip_strict (map f x) mask
             = fmap (map (fun am : A * bool => (f (fst am), snd am))) (zip_strict x mask)).
  { clear. induction x as [| a x IH]; intros [| m mask]; simpl; try reflexivity.
    rewrite IH. destruct (zip_strict x mask); reflexivity. }
  rewrite H. destruct (zip_strict x mask) as [r | e]; simpl; [| reflexivity].
  f_equal. induction r as [| [a m] r IH]; simpl; [reflexivity |].
  destruct m; simpl; now rewrite IH.
Qed.

Lemma select2_map {A B} (f : A -> B) (x : list (list A)) (mask : list (list bool)) :
  select2 (map (map f) x) mask = fmap (map f) (select2 x mask).
Proof.
  unfold select2.
  assert (H : forall (x : list (list A)) mask,
             zip_strict (map (map f) x) mask
             = fmap (map (fun am : list A * list bool => (map f (fst am), snd am)))
                    (zip_strict x mask)).
  { clear. induction x as [| a x IH]; intros [| m mask]; simpl; try reflexivity.
    rewrite IH. destruct (zip_strict x mask); reflexivity. }
  rewrite H. destruct (zip_strict x mask) as [rows | e]; simpl; [| reflexivity].
  induction rows as [| [row m] rows IH]; simpl; [reflexivity |].
  rewrite select_map. destruct (select row m) as [r | e]; simpl; [| reflexivity].
  unfold fmap, Py.bind in IH |- *.
  destruct (mapM _ (map _ rows)) as [rs' | e'];
    destruct (mapM _ rows) as [rs | e]; simpl in *; try congruence.
  injection IH as IH. now rewrite map_app, IH.
Qed.

Lemma pick_map {A B} (f : A -> B) (x : list (list A)) (idxs : list Z) :
  pick (map (map f) x) idxs = fmap (map f) (pick x idxs).
Proof.
  unfold pick. generalize (combine (seq 0 (length idxs)) idxs) as bis.
  induction bis as [| [b i] bis IH]; simpl; [reflexivity |].
  rewrite index_map. destruct (index x b) as [row | e]; simpl; [| reflexivity].
  rewrite zindex_map. destruct (zindex row i) as [v | e]; simpl; [| reflexivity].
  rewrite IH. clear IH.
  destruct (mapM (fun bi : nat * Z => row <- index x (fst bi) ;; zindex row (snd bi)) bis);
    reflexivity.
Qed.

Variable ff : float_funs.
Variable fw : forwards.

Lemma load_model_majority (env : collaborators) (a : args) (fold : fold_t env) :
  model_type a = "majority"%string -> load_model env a fold = Ok None.
Proof. intros H. unfold load_model. now rewrite H. Qed.

Lemma process_batch_majority (env : collaborators) (a : args) (fold : fold_t env)
    (st st' : collected) (n : nat) (b : batch) :
  model_type a = "majority"%string ->
  process_batch ff fw env a fold None st n b = Ok st' ->
  constant_preds (inject_Z (majority_class env (test_dataset env a fold))) st ->
  constant_preds (inject_Z (majority_class env (test_dataset env a fold))) st'.
Proof.
  intros Ha H [Hall Hfin]. unfold process_batch, predict in H. rewrite Ha in H.
  simpl in H.
  apply bind_ok in H as (labels_sel & Hls & H).
  apply bind_ok in H as (preds_sel & Hps & H).
  apply bind_ok in H as (final_labels & Hfl & H).
  apply bind_ok in H as (final_preds & Hfp & H).
  injection H as <-. unfold constant_preds. simpl.
  rewrite select2_map, Hls in Hps. rewrite pick_map, Hfl in Hfp.
  simpl in Hps, Hfp. injection Hps as <-. injection Hfp as <-.
  rewrite Hall, Hfin, !map_app. split; reflexivity.
Qed.

Lemma batches_from_majority (env : collaborators) (a : args) (fold : fold_t env)
    (loader : list batch) :
  model_type a = "majority"%string ->
  forall st st' n,
    batches_from ff fw env a fold None st n loader = Ok st' ->
    constant_preds (inject_Z (majority_class env (test_dataset env a fold))) st ->
    constant_preds (inject_Z (majority_class env (test_dataset env a fold))) st'.
Proof.
  intros Ha. induction loader as [| b rest IH]; intros st st' n H Hst; simpl in H.
  - now injection H as <-.
  - apply bind_ok in H as (st1 & H1 & H).
    eapply IH; [exact H |]. eapply process_batch_majority; eassumption.
Qed.

Lemma collect_majority (env : collaborators) (a : args) (fold : fold_t env)
    (st : collected) :
  model_type a = "majority"%string ->
  collect ff fw env a fold = Ok st ->
  constant_preds (inject_Z (majority_class env (test_dataset env a fold))) st.
Proof.
  intros Ha H. unfold collect in H. rewrite (load_model_majority _ _ _ Ha) in H.
  simpl in H. eapply batches_from_majority; [exact Ha | exact H |].
  split; reflexivity.
Qed.

(** The evaluation does not read the training split. *)
Lemma test_baseline_ignores_training_split (env : collaborators) (a : args)
    (fold : fold_t env)
    (splits : args -> fold_t env -> df env * df env * df env) :
  (forall a f, snd (fst (splits a f)) = snd (fst (load_annotated_data env a f))
               /\ snd (splits a f) = snd (load_annotated_data env a f)) ->
  test_baseline ff fw (with_splits env splits) a fold = test_baseline ff fw env a fold.
Proof.
  intros H.
  assert (Hdf : test_df (with_splits env splits) a fold = test_df env a fold).
  { unfold test_df. simpl. destruct (H a fold) as [Hv Ht].
    destruct (splits a fold) as [[tr' v'] t'].
    destruct (load_annotated_data env a fold) as [[tr v] t].
    simpl in Hv, Ht. now subst. }
  assert (Hds : test_dataset (with_splits env splits) a fold = test_dataset env a fold).
  { unfold test_dataset. now rewrite Hdf. }
  assert (Hdl : test_dataloader (with_splits env splits) a fold
                = test_dataloader env a fold).
  { unfold test_dataloader. now rewrite Hds. }
  assert (Hpb : forall model st n b,
             process_batch ff fw (with_splits env splits) a fold model st n b
             = process_batch ff fw env a fold model st n b).
  { intros. unfold process_batch, predict. now rewrite Hds. }
  assert (Hbf : forall model loader st n,
             batches_from ff fw (with_splits env splits) a fold model st n loader
             = batches_from ff fw env a fold model st n loader).
  { intros model loader. induction loader as [| b rest IH]; intros st n; simpl;
      [reflexivity |].
    rewrite Hpb. destruct (process_batch ff fw env a fold model st n b); simpl;
      [apply IH | reflexivity]. }
  unfold test_baseline, collect. rewrite Hdl.
  change (load_model (with_splits env splits) a fold) with (load_model env a fold).
  destruct (load_model env a fold) as [model | e]; simpl; [| reflexivity].
  now rewrite Hbf.
Qed.

Lemma ratio_self (n : nat) : (0 < n)%nat -> ratio n n * 100 == 100.
Proof.
  intros Hn. unfold ratio.
  assert (Hz : ~ inject_Z (Z.of_nat n) == 0).
  { intros E. unfold Qeq in E. simpl in E. lia. }
  field. exact Hz.
Qed.

Lemma count_fst_positive (labels : list Z) (hard : list Z) :
  length labels = length hard -> In 1%Z labels ->
  (0 < count (fun lh : Z * Z => (fst lh =? 1)%Z) (combine labels hard))%nat.
Proof.
  unfold count. revert hard.
  induction labels as [| l labels IH]; intros [| h hard] Hlen Hin; simpl in *;
    try contradiction; try discriminate.
  destruct (Z.eqb_spec l 1); simpl; [lia |].
  destruct Hin as [-> | Hin]; [contradiction |]. apply IH; [congruence | assumption].
Qed.

(** With every prediction equal to 1, a recall that is computed at all is
    100: the labels then hold both classes, the class 1 among them. *)
Lemma recall_of_constant_one (labels : list Z) (acc auc prec rec f1 : Q) :
  compute_metrics labels (map (fun _ => inject_Z 1) labels)
    = Ok (acc, auc, prec, rec, f1) ->
  rec == 100.
Proof.
  unfold compute_metrics. intros H.
  replace (map np_round (map (fun _ : Z => inject_Z 1) labels))
    with (map (fun _ : Z => 1%Z) labels) in H
    by (rewrite map_map; reflexivity).
  apply bind_ok in H as (acc0 & _ & H). apply bind_ok in H as (auc0 & Hauc & H).
  apply bind_ok in H as ([[prec0 rec0] f0] & Hprf & H). injection H as _ _ _ <- _.
  set (hard := map (fun _ : Z => 1%Z) labels) in *.
  assert (Hlen : length labels = length hard) by (unfold hard; now rewrite length_map).
  (* two classes *)
  unfold roc_auc_score in Hauc.
  destruct (negb (length labels =? length (map (fun _ : Z => inject_Z 1) labels))%nat);
    [discriminate |].
  destruct (classes labels) as [| c1 [| c2 [| c3 cs]]] eqn:Ec; try discriminate.
  clear Hauc.
  assert (Hnd : NoDup [c1; c2]) by (rewrite <- Ec; apply NoDup_nodup).
  assert (Hc1 : In c1 labels) by (apply (nodup_In Z.eq_dec); fold (classes labels);
                                  rewrite Ec; now left).
  assert (Hc2 : In c2 labels) by (apply (nodup_In Z.eq_dec); fold (classes labels);
                                  rewrite Ec; right; now left).
  (* at most two values among labels and predictions *)
  unfold precision_recall_fscore_support in Hprf.
  destruct (negb (length labels =? length hard)%nat); [discriminate |].
  destruct (2 <? length (nodup Z.eq_dec (labels ++ hard)))%nat eqn:E2; [discriminate |].
  apply Nat.ltb_ge in E2.
  match type of Hprf with
  | (if ?c then _ else _) = _ => destruct c; [discriminate |]
  end.
  injection Hprf as _ <- _.
  assert (H1 : In 1%Z labels).
  { destruct (in_dec Z.eq_dec 1%Z labels) as [Hin | Hnin]; [exact Hin | exfalso].
    assert (Hh : In 1%Z hard).
    { unfold hard. destruct labels as [| l labels]; [contradiction |]. now left. }
    assert (Hnd3 : NoDup [1%Z; c1; c2]).
    { constructor; [| exact Hnd]. intros [E | [E | []]]; subst; contradiction. }
    assert (Hincl : incl [1%Z; c1; c2] (nodup Z.eq_dec (labels ++ hard))).
    { intros z [<- | [<- | [<- | []]]]; apply nodup_In, in_or_app; auto. }
    pose proof (NoDup_incl_length Hnd3 Hincl) as Hle. simpl in Hle. lia. }
  assert (Htp : count (fun lh : Z * Z => (fst lh =? 1)%Z && (snd lh =? 1)%Z)
                      (combine labels hard)
                = count (fun lh : Z * Z => (fst lh =? 1)%Z) (combine labels hard)).
  { unfold count. f_equal. apply filter_ext_in. intros [l h] Hin.
    apply in_combine_r in Hin. unfold hard in Hin.
    apply in_map_iff in Hin as (_ & <- & _). simpl. apply andb_true_r. }
  rewrite Htp. apply ratio_self. now apply count_fst_positive.
Qed.

(** C4, as the code has it.  Under the "majority" policy every evaluated
    position, and every final-turn position, is predicted the
    [majority_class] of the dataset that is evaluated (built from the test
    split, or from the validation split under [testonval]); the training
    split is not read; and when that class is 1, the recall that the driver
    returns, over all the turns and over the final turns, is 100. *)
Theorem majority_policy_constant (env : collaborators) (a : args) (fold : fold_t env) :
  model_type a = "majority"%string ->
  let c := majority_class env (test_dataset env a fold) in
  (forall st, collect ff fw env a fold = Ok st ->
              all_preds st = map (fun _ => inject_Z c) (all_labels st)
              /\ final_turn_preds st = map (fun _ => inject_Z c) (final_turn_labels st))
  /\ (forall splits : args -> fold_t env -> df env * df env * df env,
        (forall a f, snd (fst (splits a f)) = snd (fst (load_annotated_data env a f))
                     /\ snd (splits a f) = snd (load_annotated_data env a f)) ->
        test_baseline ff fw (with_splits env splits) a fold
        = test_baseline ff fw env a fold)
  /\ (c = 1%Z ->
      forall ev, test_baseline ff fw env a fold = Ok ev ->
                 nth 4 (returned ev) 0 == 100 /\ nth 9 (returned ev) 0 == 100).
Proof.
  intros Ha c. split; [| split].
  - intros st Hst. exact (collect_majority _ _ _ _ Ha Hst).
  - intros splits Hs. now apply test_baseline_ignores_training_split.
  - intros Hc ev H. unfold test_baseline in H.
    apply bind_ok in H as (st & Hst & H). apply bind_ok in H as (loss & _ & H).
    apply bind_ok in H as ([[path rep] [am fm]] & Hm & H). injection H as <-.
    apply compute_all_metrics_ok in Hm as (Ham & Hfm & _ & _).
    destruct (collect_majority _ _ _ _ Ha Hst) as [Hall Hfin].
    fold c in Hall, Hfin. rewrite Hc in Hall, Hfin. rewrite Hall in Ham.
    rewrite Hfin in Hfm.
    destruct am as [[[[acc auc] prec] rec] f1], fm as [[[[acc' auc'] prec'] rec'] f1'].
    simpl. split; eapply recall_of_constant_one; eassumption.
Qed.

End MajorityPolicy.

Lemma majority_policy_constant_witness :
  Baselines.model_type (sample_args "majority") = "majority"%string
  /\ Baselines.majority_class (labels_pipeline positive_splits)
       (Baselines.test_dataset (labels_pipeline positive_splits)
                               (sample_args "majority") tt) = 1%Z
  /\ exists ev,
       Baselines.test_baseline sample_funs sample_forwards
         (labels_pipeline positive_splits) (sample_args "majority") tt = Ok ev
       /\ nth 4 (Baselines.returned ev) 0 == 100
       /\ nth 9 (Baselines.returned ev) 0 == 100.
Proof.
  split; [reflexivity |]. split; [reflexivity |].
  destruct (Baselines.test_baseline sample_funs sample_forwards
              (labels_pipeline positive_splits) (sample_args "majority") tt)
    as [ev | e] eqn:E; [| vm_compute in E; discriminate].
  exists ev. split; [reflexivity |].
  exact (proj2 (proj2 (majority_policy_constant sample_funs sample_forwards
                         (labels_pipeline positive_splits) (sample_args "majority") tt
                         eq_refl)) eq_refl ev E).
Defined.

(** The training split of the sample has the labels 1 in the majority, its
    test split the labels 0: the "majority" policy predicts 0 at each of the
    five evaluated positions, and the recall it returns is 0. *)
Lemma majority_policy_not_training_majority :
  majority_of (fst (fst sample_splits)) = 1%Z
  /\ Py.fmap Baselines.all_preds
       (Baselines.collect sample_funs sample_forwards (labels_pipeline sample_splits)
                          (sample_args "majority") tt)
     = Ok [0; 0; 0; 0; 0]
  /\ match Baselines.test_baseline sample_funs sample_forwards
             (labels_pipeline sample_splits) (sample_args "majority") tt with
     | Ok ev => nth 4 (Baselines.returned ev) 0 == 0
     | Raise _ => False
     end.
Proof.
  split; [reflexivity |]. split; [reflexivity |].
  vm_compute. reflexivity.
Qed.

(** ** Unsupported model types *)

Section UnsupportedModels.

Import Baselines.

Variable ff : float_funs.
Variable fw : forwards.

Lemma not_in_baseline_models (x : string) :
  py_in x BASELINE_MODELS = false ->
  (x =? "dkt-multi")%string = false /\ (x =? "dkt-sem")%string = false
  /\ (x =? "dkt")%string = false /\ (x =? "akt")%string = false
  /\ (x =? "dkvmn")%string = false /\ (x =? "saint")%string = false
  /\ (x =? "simplekt")%string = false.
Proof.
  unfold py_in, BASELINE_MODELS. cbn [existsb]. intros H.
  repeat (apply orb_false_elim in H as [? H]). repeat split; assumption.
Qed.

(** Outside the supported architectures, model construction raises the
    configuration error. *)
Lemma get_baseline_model_unsupported (n_kcs : nat) (a : args) :
  py_in (model_type a) BASELINE_MODELS = false ->
  get_baseline_model n_kcs a
  = Raise (Exception ("Model " ++ model_type a ++ " not supported")).
Proof.
  intros H. apply not_in_baseline_models in H as (H1 & H2 & H3 & H4 & H5 & H6 & H7).
  unfold get_baseline_model. now rewrite H1, H2, H3, H4, H5, H6, H7.
Qed.

(** So does the dispatch of the loss, which leaves the batch as it is. *)
Lemma compute_baseline_loss_unsupported (model : baseline_model) (b : batch) (a : args) :
  py_in (model_type a) BASELINE_MODELS = false ->
  compute_baseline_loss ff fw model b a
  = (b, Raise (Exception ("Model " ++ model_type a ++ " not supported"))).
Proof.
  intros H. apply not_in_baseline_models in H as (H1 & H2 & H3 & H4 & H5 & H6 & H7).
  unfold compute_baseline_loss. now rewrite H1, H2, H3, H4, H5, H6, H7.
Qed.

(** The evaluation driver builds no model for such a type; unless the type
    is one of the two trivial policies, its loop binds neither [loss] nor
    [corr_probs], and the first batch ends on the unbound [loss]; without
    any batch, the average of the loss divides by zero. *)
Lemma test_baseline_unsupported (env : collaborators) (a : args) (fold : fold_t env) :
  py_in (model_type a) BASELINE_MODELS = false ->
  (model_type a =? "random")%string = false ->
  (model_type a =? "majority")%string = false ->
  test_baseline ff fw env a fold
  = match test_dataloader env a fold with
    | [] => Raise ZeroDivisionError
    | _ :: _ => Raise (UnboundLocalError "loss")
    end.
Proof.
  intros Hb Hr Hm. unfold test_baseline, collect, load_model. rewrite Hb. simpl.
  destruct (test_dataloader env a fold) as [| b rest]; simpl; [reflexivity |].
  unfold process_batch, predict. now rewrite Hr, Hm.
Qed.

Lemma test_baseline_unsupported_witness :
  test_baseline ff fw (labels_pipeline sample_splits) (sample_args "linear") tt
  = Raise (UnboundLocalError "loss").
Proof.
  exact (test_baseline_unsupported (labels_pipeline sample_splits)
           (sample_args "linear") tt eq_refl eq_refl eq_refl).
Defined.

End UnsupportedModels.

(** C8, at the model type "linear", which no branch supports: model
    construction and the dispatch of the loss raise "Model linear not
    supported", whereas [test_baseline] builds no model and raises
    [UnboundLocalError] on [loss] at its first batch. *)
Theorem unsupported_model_type_errors :
  Baselines.get_baseline_model 3 (sample_args "linear")
    = Raise (Exception "Model linear not supported")
  /\ Baselines.compute_baseline_loss sample_funs sample_forwards
       (Baselines.DKT 3 64) sample_batch (sample_args "linear")
     = (sample_batch, Raise (Exception "Model linear not supported"))
  /\ Baselines.test_baseline sample_funs sample_forwards
       (labels_pipeline sample_splits) (sample_args "linear") tt
     = Raise (UnboundLocalError "loss").
Proof. repeat split; reflexivity. Qed.

(** ** Final-turn extraction *)

Section FinalTurns.

Import LMKT EvalLM.

(** *** Batch size 1: the recorded positions are the global ones *)

#[local] Arguments zindex : simpl never.
#[local] Arguments index : simpl never.

Lemma build_from_snoc (ids : list nat) (k : nat) :
  forall d n, build_from d n (ids ++ [k])
              = setdefault_append (build_from d n ids) k (n + length ids).
Proof.
  induction ids as [| j ids IH]; intros d n; simpl.
  - now rewrite Nat.add_0_r.
  - rewrite IH. f_equal. lia.
Qed.

Lemma zindex_last {A} (l : list A) (a : A) : zindex (l ++ [a]) (-1) = Ok a.
Proof.
  unfold zindex. rewrite length_app. cbn [length].
  change (-1 <? 0)%Z with true. cbv iota.
  destruct (Z.ltb_spec (-1 + Z.of_nat (length l + 1)) 0); [lia |].
  replace (Z.to_nat (-1 + Z.of_nat (length l + 1))) with (length l) by lia.
  unfold index. now rewrite nth_error_app2, Nat.sub_diag by lia.
Qed.

Lemma index_snoc_old {A} (xs : list A) (x : A) (i : nat) :
  (i < length xs)%nat -> index (xs ++ [x]) i = index xs i.
Proof. intros H. unfold index. now rewrite nth_error_app1. Qed.

Lemma index_snoc_new {A} (xs : list A) (x : A) : index (xs ++ [x]) (length xs) = Ok x.
Proof. unfold index. now rewrite nth_error_app2, Nat.sub_diag by lia. Qed.

Lemma finals_snoc_old {A} (d : index_map) (xs : list A) (x : A) :
  bounded d (length xs) -> finals d (xs ++ [x]) = finals d xs.
Proof.
  intros H. unfold finals. apply mapM_ext. intros kv Hkv.
  unfold bounded in H. rewrite Forall_forall in H.
  destruct (H _ Hkv) as (i & -> & Hi). simpl. now rewrite index_snoc_old.
Qed.

Lemma finals_setdefault_append {A} (d : index_map) (xs : list A) (x : A) (k : nat) :
  bounded d (length xs) ->
  forall l, finals d xs = Ok l ->
            finals (setdefault_append d k (length xs)) (xs ++ [x]) = Ok (aset k x l).
Proof.
  induction d as [| [k' idxs] d IH]; intros Hb l Hl.
  - injection Hl as <-. unfold finals. simpl. now rewrite index_snoc_new.
  - inversion Hb as [| ? ? (i & Hi & Hlt) Hb']; subst. simpl in Hi.
    unfold finals in Hl. simpl in Hl. rewrite Hi in Hl. simpl in Hl.
    apply bind_ok in Hl as ([k0 v] & Hv & Hl). apply bind_ok in Hl as (l' & Hl' & Hl).
    injection Hl as <-.
    apply bind_ok in Hv as (v0 & Hv0 & Hv). injection Hv as <- <-.
    simpl. destruct (Nat.eqb_spec k' k) as [-> | Hne].
    + unfold finals. simpl. rewrite zindex_last. simpl. rewrite index_snoc_new. simpl.
      fold (finals d (xs ++ [x])). rewrite (finals_snoc_old _ _ _ Hb').
      unfold finals. now rewrite Hl'.
    + unfold finals. simpl. rewrite Hi. simpl. rewrite index_snoc_old, Hv0 by exact Hlt.
      simpl. fold (finals (setdefault_append d k (length xs)) (xs ++ [x])).
      now rewrite (IH Hb' _ Hl').
Qed.

Lemma bounded_setdefault_append (d : index_map) (k n : nat) :
  bounded d n -> bounded (setdefault_append d k n) (S n).
Proof.
  unfold bounded. induction 1 as [| [k' idxs] d (i & Hi & Hlt) Hd IH]; simpl.
  - constructor; [| constructor]. exists n. split; [| lia].
    change [n] with ([] ++ [n]). apply zindex_last.
  - destruct (k' =? k)%nat.
    + constructor.
      * exists n. split; [apply zindex_last | lia].
      * eapply Forall_impl; [| exact Hd].
        intros kv (j & Hj & Hjn). exists j. split; [assumption | lia].
    + constructor; [| exact IH]. exists i. split; [assumption | lia].
Qed.

Lemma first_seen_snoc (ids : list nat) (k : nat) :
  forall seen,
    first_seen seen (ids ++ [k])
    = first_seen seen ids
      ++ (if existsb (Nat.eqb k) seen || existsb (Nat.eqb k) ids then [] else [k]).
Proof.
  induction ids as [| j ids IH]; intros seen; simpl.
  - rewrite orb_false_r. destruct (existsb (Nat.eqb k) seen); reflexivity.
  - destruct (existsb (Nat.eqb j) seen) eqn:Ej.
    + rewrite IH. f_equal.
      destruct (Nat.eqb_spec k j) as [-> | _]; simpl; [now rewrite Ej | reflexivity].
    + simpl. rewrite IH. do 2 f_equal. simpl.
      destruct (k =? j)%nat, (existsb (Nat.eqb k) seen); reflexivity.
Qed.

Lemma existsb_first_seen (k : nat) (ids : list nat) :
  forall seen,
    existsb (Nat.eqb k) (first_seen seen ids)
    = existsb (Nat.eqb k) ids && negb (existsb (Nat.eqb k) seen).
Proof.
  induction ids as [| j ids IH]; intros seen; simpl; [reflexivity |].
  destruct (existsb (Nat.eqb j) seen) eqn:Ej.
  - rewrite IH. destruct (Nat.eqb_spec k j) as [-> | _]; simpl; [| reflexivity].
    rewrite Ej. simpl. apply andb_false_r.
  - simpl. rewrite IH. simpl.
    destruct (Nat.eqb_spec k j) as [-> | _]; simpl;
      [now rewrite Ej | reflexivity].
Qed.

Lemma NoDup_first_seen (ids : list nat) : forall seen, NoDup (first_seen seen ids).
Proof.
  induction ids as [| j ids IH]; intros seen; simpl; [constructor |].
  destruct (existsb (Nat.eqb j) seen); [apply IH |].
  constructor; [| apply IH]. intros Hin.
  assert (E : existsb (Nat.eqb j) (first_seen (j :: seen) ids) = true).
  { apply existsb_exists. exists j. split; [assumption | apply Nat.eqb_refl]. }
  rewrite existsb_first_seen in E. simpl in E. rewrite Nat.eqb_refl in E.
  simpl in E. now rewrite andb_false_r in E.
Qed.

Lemma last_of_dialogue_snoc {A} (d k : nat) (x : A) (s : list (nat * A)) :
  last_of_dialogue d (s ++ [(k, x)])
  = if (k =? d)%nat then Some x else last_of_dialogue d s.
Proof.
  induction s as [| [k' y] s IH]; simpl.
  - reflexivity.
  - rewrite IH. destruct (k =? d)%nat; reflexivity.
Qed.

Lemma aset_keys {A} (L : nat -> A) (k : nat) (x : A) (keys : list nat) :
  NoDup keys ->
  aset k x (map (fun d => (d, L d)) keys)
  = map (fun d => (d, if (k =? d)%nat then x else L d)) keys
    ++ (if existsb (Nat.eqb k) keys then [] else [(k, x)]).
Proof.
  induction 1 as [| d keys Hd Hnd IH]; simpl; [reflexivity |].
  destruct (Nat.eqb_spec d k) as [-> | Hne].
  - rewrite Nat.eqb_refl. simpl. rewrite app_nil_r. f_equal.
    apply map_ext_in. intros d' Hd'.
    destruct (Nat.eqb_spec k d') as [<- | _]; [contradiction | reflexivity].
  - destruct (Nat.eqb_spec k d) as [-> | _]; [contradiction |]. simpl.
    now rewrite IH.
Qed.

Lemma lasts_snoc {A} (s : list (nat * A)) (k : nat) (x : A) :
  lasts (s ++ [(k, x)]) = aset k (Some x) (lasts s).
Proof.
  unfold lasts. rewrite map_app. simpl.
  rewrite first_seen_snoc. simpl.
  rewrite aset_keys by apply NoDup_first_seen.
  rewrite existsb_first_seen. simpl. rewrite andb_true_r.
  rewrite map_app. f_equal.
  - apply map_ext. intros d. now rewrite last_of_dialogue_snoc.
  - destruct (existsb (Nat.eqb k) (map fst s)); simpl; [reflexivity |].
    now rewrite last_of_dialogue_snoc, Nat.eqb_refl.
Qed.

Lemma aset_map_some {A} (k : nat) (x : A) (l : list (nat * A)) :
  map (fun kv : nat * A => (fst kv, Some (snd kv))) (aset k x l)
  = aset k (Some x) (map (fun kv : nat * A => (fst kv, Some (snd kv))) l).
Proof.
  induction l as [| [k' y] l IH]; simpl; [reflexivity |].
  destruct (k' =? k)%nat; simpl; [reflexivity | now rewrite IH].
Qed.

Lemma snoc_of_length {A} (xs : list A) (n : nat) :
  length xs = S n -> exists xs' x, xs = xs' ++ [x] /\ length xs' = n.
Proof.
  intros H. destruct (exists_last (l := xs)) as (xs' & x & ->).
  - intros ->. discriminate.
  - exists xs', x. split; [reflexivity |]. rewrite length_app in H. simpl in H. lia.
Qed.

(** With the positions recorded turn by turn, the final-turn values are the
    last values of the dialogues, in the order of their first turns. *)
Lemma finals_lasts {A} (ids : list nat) :
  forall xs : list A,
    length xs = length ids ->
    bounded (build_from [] 0 ids) (length ids)
    /\ exists l, finals (build_from [] 0 ids) xs = Ok l
                 /\ map (fun kv : nat * A => (fst kv, Some (snd kv))) l
                    = lasts (combine ids xs).
Proof.
  induction ids as [| k ids IH] using rev_ind; intros xs Hlen.
  - destruct xs; [| discriminate]. split; [constructor |]. exists []. now split.
  - rewrite length_app, Nat.add_comm in Hlen. simpl in Hlen.
    destruct (snoc_of_length _ _ Hlen) as (xs' & x & -> & Hlen').
    destruct (IH xs' Hlen') as (Hb & l & Hl & Hlasts).
    rewrite build_from_snoc. simpl. rewrite <- Hlen'. split.
    + rewrite length_app, <- Hlen', Nat.add_comm. simpl.
      now apply bounded_setdefault_append; rewrite Hlen'.
    + exists (aset k x l). rewrite <- Hlen' in Hb. split.
      * now apply finals_setdefault_append.
      * rewrite aset_map_some, Hlasts, combine_app_same by congruence.
        simpl. now rewrite lasts_snoc.
Qed.

Lemma final_turns_finals {A} (d : index_map) (xs : list A) :
  final_turns d xs = fmap (map snd) (finals d xs).
Proof.
  unfold final_turns, finals, fmap.
  induction d as [| kv d IH]; simpl; [reflexivity |].
  destruct (zindex (snd kv) (-1)) as [i | e]; simpl; [| reflexivity].
  destruct (index xs i) as [v | e]; simpl; [| reflexivity].
  rewrite IH. clear IH.
  destruct (mapM (fun kv : nat * list nat =>
                    i <- zindex (snd kv) (-1) ;; v <- index xs i ;; Ok (fst kv, v)) d);
    reflexivity.
Qed.

Section BatchSizeOne.

Variable Batch : Type.
Variable meta_data : Batch -> list sample.
Variable labels : Batch -> list Z.
Variable get_loss : Batch -> result (Q * list (list Q) * list Q).

Lemma batches_from_unit (loader : list Batch) :
  Forall (unit_batch meta_data labels get_loss) loader ->
  forall st n st',
    batches_from meta_data labels get_loss st n loader = Ok st' ->
    dialogue_idx_to_sample_idxs st'
    = build_from (dialogue_idx_to_sample_idxs st) n (dialogue_ids meta_data loader)
    /\ length (all_labels st')
       = (length (all_labels st) + length (dialogue_ids meta_data loader))%nat
    /\ length (all_preds st')
       = (length (all_preds st) + length (dialogue_ids meta_data loader))%nat.
Proof.
  induction 1 as [| b rest ((s & Hs) & (l & Hl) & Hp) _ IH]; intros st n st' H;
    simpl in H.
  - injection H as <-. unfold dialogue_ids. simpl. repeat split; lia.
  - apply bind_ok in H as (st1 & H1 & H).
    unfold process_batch in H1. apply bind_ok in H1 as ([[loss kc] corr] & Hloss & H1).
    destruct (Hp _ _ _ Hloss) as (p & ->). injection H1 as <-.
    destruct (IH _ _ _ H) as (Hd & Hlab & Hpred). simpl in Hd, Hlab, Hpred.
    rewrite Hs, Hl in *. simpl in Hd. rewrite Nat.add_0_r in Hd.
    unfold dialogue_ids in *. simpl. rewrite Hs. simpl.
    rewrite length_app in Hlab, Hpred. simpl in Hlab, Hpred.
    repeat split; [exact Hd | lia | lia].
Qed.

(** With one turn per batch, the final-turn arrays hold, for each dialogue
    in the order of first appearance, its last label and its last
    prediction. *)
Theorem final_turns_batch_size_one (loader : list Batch) (st : collected) :
  Forall (unit_batch meta_data labels get_loss) loader ->
  collect meta_data labels get_loss loader = Ok st ->
  fmap (map Some) (final_turns (dialogue_idx_to_sample_idxs st) (all_labels st))
  = Ok (last_per_dialogue (stream_of (dialogue_ids meta_data loader) (all_labels st)))
  /\ fmap (map Some) (final_turns (dialogue_idx_to_sample_idxs st) (all_preds st))
     = Ok (last_per_dialogue (stream_of (dialogue_ids meta_data loader) (all_preds st))).
Proof.
  intros Hunit H. unfold collect in H.
  destruct (batches_from_unit _ Hunit _ _ _ H) as (Hd & Hlab & Hpred).
  simpl in Hd, Hlab, Hpred. rewrite Hd.
  assert (Hgen : forall (A : Type) (xs : list A),
             length xs = length (dialogue_ids meta_data loader) ->
             fmap (map Some)
                  (final_turns (build_from [] 0 (dialogue_ids meta_data loader)) xs)
             = Ok (last_per_dialogue (stream_of (dialogue_ids meta_data loader) xs))).
  { intros A xs Hlen.
    destruct (finals_lasts (dialogue_ids meta_data loader) xs Hlen)
      as (_ & l & Hl & Hlasts).
    rewrite final_turns_finals, Hl. simpl. f_equal.
    unfold last_per_dialogue, stream_of.
    assert (E : map snd (lasts (combine (dialogue_ids meta_data loader) xs))
                = map (fun d => last_of_dialogue
                                  d (combine (dialogue_ids meta_data loader) xs))
                      (first_seen [] (map fst (combine (dialogue_ids meta_data loader)
                                                       xs))))
      by (unfold lasts; now rewrite map_map).
    rewrite <- E, <- Hlasts, !map_map. reflexivity. }
  split; apply Hgen; assumption.
Qed.

End BatchSizeOne.

Lemma final_turns_batch_size_one_witness :
  exists st,
    collect u_meta_data u_labels (get_lmkt_loss_unpacked sample_funs 0 1 sample_lm)
            loader_of_one = Ok st
    /\ final_turns (dialogue_idx_to_sample_idxs st) (all_labels st) = Ok [0; 1]%Z
    /\ last_per_dialogue (stream_of [0; 0; 1]%nat (all_labels st)) = [Some 0; Some 1]%Z.
Proof.
  assert (Hunit : Forall (unit_batch u_meta_data u_labels
                            (get_lmkt_loss_unpacked sample_funs 0 1 sample_lm))
                         loader_of_one).
  { repeat constructor; try (eexists; reflexivity);
      intros loss kc corr H; vm_compute in H; injection H as _ _ <-; eexists; reflexivity. }
  destruct (collect u_meta_data u_labels
                    (get_lmkt_loss_unpacked sample_funs 0 1 sample_lm) loader_of_one)
    as [st | e] eqn:E; [| vm_compute in E; discriminate].
  exists st. split; [reflexivity |].
  destruct (final_turns_batch_size_one _ _ _ _ _ _ Hunit E) as [Hl _].
  vm_compute in E. injection E as <-. split; reflexivity.
Defined.

(** C1, on two dialogues of two turns each, loaded with batch size 2.  The
    turns are at positions 0 to 3 of the prediction stream, those of the
    second dialogue at positions 2 and 3; the driver records the positions
    1 and 2 for it ([batch_idx + sample_idx]), so that the final-turn arrays
    hold the label and the prediction of its first turn instead of those of
    its last turn. *)
Theorem final_turns_batch_size_two :
  match collect u_meta_data u_labels
                (get_lmkt_loss_unpacked sample_funs 0 1 sample_lm) loader_of_two with
  | Ok st =>
      dialogue_ids u_meta_data loader_of_two = [0; 0; 1; 1]%nat
      /\ all_labels st = [0; 0; 0; 1]%Z
      /\ all_preds st = [1 # 2; 2 # 3; 3 # 4; 4 # 5]
      /\ dialogue_idx_to_sample_idxs st = [(0, [0; 1]); (1, [1; 2])]%nat
      /\ final_turns (dialogue_idx_to_sample_idxs st) (all_labels st) = Ok [0; 0]%Z
      /\ final_turns (dialogue_idx_to_sample_idxs st) (all_preds st) = Ok [2 # 3; 3 # 4]
      /\ last_per_dialogue (stream_of (dialogue_ids u_meta_data loader_of_two)
                                      (all_labels st))
         = [Some 0; Some 1]%Z
      /\ last_per_dialogue (stream_of (dialogue_ids u_meta_data loader_of_two)
                                      (all_preds st))
         = [Some (2 # 3); Some (4 # 5)]
  | Raise _ => False
  end.
Proof. vm_compute. repeat split; reflexivity. Qed.

End FinalTurns.

(** *** Baseline path: the last non-ignored label of a row *)

Section BaselineFinalTurns.

Import Metrics Baselines.

Lemma final_idxs_of_mask (labels : list (list Z)) :
  map (fun m => (Z.of_nat (count (fun x : bool => x) m) - 1)%Z)
      (map (map not_ignored) labels)
  = map final_idx labels.
Proof. now rewrite map_map. Qed.

Lemma count_real (real pads : list Z) :
  Forall (fun l => not_ignored l = true) real ->
  Forall (fun l => not_ignored l = false) pads ->
  count (fun x : bool => x) (map not_ignored (real ++ pads)) = length real.
Proof.
  intros Hr Hp. unfold count. rewrite map_app, filter_app, length_app.
  assert (E1 : forall l, Forall (fun l => not_ignored l = true) l ->
                 length (filter (fun x : bool => x) (map not_ignored l)) = length l).
  { induction 1 as [| x l Hx _ IH]; simpl; [reflexivity |]. rewrite Hx. simpl. now rewrite IH. }
  assert (E2 : forall l, Forall (fun l => not_ignored l = false) l ->
                 length (filter (fun x : bool => x) (map not_ignored l)) = 0%nat).
  { induction 1 as [| x l Hx _ IH]; simpl; [reflexivity |]. now rewrite Hx. }
  rewrite E1, E2 by assumption. lia.
Qed.

Lemma filter_real (real pads : list Z) :
  Forall (fun l => not_ignored l = true) real ->
  Forall (fun l => not_ignored l = false) pads ->
  filter not_ignored (real ++ pads) = real.
Proof.
  intros Hr Hp. rewrite filter_app.
  assert (E1 : filter not_ignored real = real).
  { induction Hr as [| x l Hx _ IH]; simpl; [reflexivity |]. now rewrite Hx, IH. }
  assert (E2 : filter not_ignored pads = []).
  { induction Hp as [| x l Hx _ IH]; simpl; [reflexivity |]. now rewrite Hx. }
  rewrite E1, E2. apply app_nil_r.
Qed.

Lemma nth_error_last {A} (l : list A) (d : A) :
  l <> [] -> nth_error l (length l - 1) = Some (last l d).
Proof.
  induction l as [| a l IH]; intros Hne; [contradiction |].
  destruct l as [| b l]; [reflexivity |].
  change (last (a :: b :: l) d) with (last (b :: l) d).
  rewrite <- IH by discriminate. simpl. now rewrite Nat.sub_0_r.
Qed.

(** On such a row the computed index is the position of the last
    non-ignored label. *)
Lemma final_idx_padded (row : list Z) :
  padded_at_end row ->
  zindex row (final_idx row) = Ok (last (filter not_ignored row) 0%Z).
Proof.
  intros (real & pads & -> & Hne & Hr & Hp).
  unfold final_idx. rewrite (count_real _ _ Hr Hp), (filter_real _ _ Hr Hp).
  assert (Hlen : (0 < length real)%nat) by (destruct real; [contradiction | simpl; lia]).
  unfold zindex.
  destruct (Z.ltb_spec (Z.of_nat (length real) - 1) 0); [lia |].
  replace (Z.to_nat (Z.of_nat (length real) - 1)) with (length real - 1)%nat by lia.
  unfold index. rewrite nth_error_app1 by lia.
  now rewrite (nth_error_last _ 0%Z Hne).
Qed.

Lemma pick_rows {A} (x : list (list A)) :
  forall (pre : list (list A)) (idxs : list Z),
    length idxs = length x ->
    mapM (fun bi : nat * Z => row <- index (pre ++ x) (fst bi) ;; zindex row (snd bi))
         (combine (seq (length pre) (length idxs)) idxs)
    = mapM (fun ri : list A * Z => zindex (fst ri) (snd ri)) (combine x idxs).
Proof.
  induction x as [| r x IH]; intros pre [| i idxs] Hlen; simpl in *;
    try discriminate; [reflexivity |].
  unfold index at 1. rewrite nth_error_app2, Nat.sub_diag by lia. simpl.
  destruct (zindex r i) as [v | e]; simpl; [| reflexivity].
  specialize (IH (pre ++ [r]) idxs). rewrite length_app, Nat.add_comm in IH. simpl in IH.
  rewrite <- app_assoc in IH. simpl in IH. rewrite IH by congruence. reflexivity.
Qed.

(** On label rows padded at the end, the entries picked at the computed
    indices are the last non-ignored labels of the rows, one per row. *)
Lemma pick_last_real_labels (labels : list (list Z)) :
  Forall padded_at_end labels ->
  pick labels (map final_idx labels)
  = Ok (map (fun row => last (filter not_ignored row) 0%Z) labels).
Proof.
  intros H. unfold pick.
  pose proof (pick_rows labels [] (map final_idx labels) (length_map _ _)) as E.
  cbn [app length] in E. rewrite E. clear E.
  induction H as [| row rest Hrow _ IH]; simpl; [reflexivity |].
  rewrite (final_idx_padded _ Hrow). simpl. now rewrite IH.
Qed.

End BaselineFinalTurns.

(** * Further properties *)

(** ** Defaults of the run configuration *)

Section Defaults.

Import Config.

Lemma fold_set_default (table : list (string * Q)) :
  forall (a : namespace) (key : string),
    fold_left set_default table a key
    = match a key with
      | Some v => Some v
      | None => option_map Num (lookup key table)
      end.
Proof.
  induction table as [| [k d] table IH]; intros a key; simpl.
  - destruct (a key); reflexivity.
  - rewrite IH. unfold set_default, setattr. simpl.
    destruct (a k) as [vk |] eqn:Ek.
    + destruct (a key) as [v |] eqn:Ekey; [reflexivity |].
      destruct (String.eqb_spec key k) as [-> | _]; [congruence | reflexivity].
    + destruct (String.eqb_spec key k) as [-> | _].
      * rewrite Ek. reflexivity.
      * reflexivity.
Qed.

Lemma is_lmkt_apply_defaults (a : namespace) : is_lmkt (apply_defaults a) = is_lmkt a.
Proof.
  unfold is_lmkt, apply_defaults. rewrite fold_set_default.
  destruct (a "model_type"%string) as [v |] eqn:E; [reflexivity |].
  unfold defaults_of. destruct (is_lmkt a); reflexivity.
Qed.

(** [apply_defaults] keeps every attribute that is set, whatever its value
    (a clipping threshold or a weight decay of 0 included), gives each unset
    attribute of the table its default, and leaves the other attributes
    unset; the table is that of the language model for the model type "lmkt"
    and that of the baselines for every other type; applying the defaults a
    second time changes nothing. *)
Theorem apply_defaults_fills_unset (a : namespace) (key : string) :
  apply_defaults a key
  = match a key with
    | Some v => Some v
    | None => option_map Num (lookup key (if is_lmkt a then lmkt_defaults
                                          else baseline_defaults))
    end
  /\ apply_defaults (apply_defaults a) key = apply_defaults a key.
Proof.
  assert (H : forall a key,
             apply_defaults a key
             = match a key with
               | Some v => Some v
               | None => option_map Num (lookup key (defaults_of a))
               end)
    by (intros; apply fold_set_default).
  split; [apply H |].
  rewrite (H (apply_defaults a)). unfold defaults_of.
  rewrite is_lmkt_apply_defaults, H. unfold defaults_of.
  destruct (a key) as [v |]; [reflexivity |].
  destruct (lookup key (if is_lmkt a then lmkt_defaults else baseline_defaults));
    reflexivity.
Qed.

End Defaults.

(** ** Range and thresholding of the metrics *)

Section MetricsRange.

Import Metrics.

Lemma Qdiv_unit (x y : Q) : 0 <= x -> x <= y -> 0 <= x / y /\ x / y <= 1.
Proof.
  intros Hx Hxy. destruct (Qeq_dec y 0) as [Hy | Hy].
  - assert (Hx0 : x == 0) by (apply Qle_antisym; [now rewrite <- Hy | assumption]).
    rewrite Hx0. unfold Qdiv. rewrite Qmult_0_l. split; [apply Qle_refl | discriminate].
  - assert (Hpos : 0 < y).
    { apply Qle_lt_or_eq in Hxy as [Hlt | Heq].
      - eapply Qle_lt_trans; eassumption.
      - apply Qle_lt_or_eq in Hx as [Hlt | Heq0].
        + now rewrite <- Heq.
        + exfalso. apply Hy. now rewrite <- Heq, <- Heq0. }
    split.
    + apply Qle_shift_div_l; [assumption |]. now rewrite Qmult_0_l.
    + apply Qle_shift_div_r; [assumption |]. now rewrite Qmult_1_l.
Qed.

Lemma ratio_unit (a b : nat) : (a <= b)%nat -> 0 <= ratio a b /\ ratio a b <= 1.
Proof.
  intros H. unfold ratio. apply Qdiv_unit.
  - change 0 with (inject_Z 0). rewrite <- Zle_Qle. lia.
  - rewrite <- Zle_Qle. lia.
Qed.

(** A value between 0 and 1, as a percentage. *)
Lemma percent_range (q : Q) : 0 <= q /\ q <= 1 -> 0 <= q * 100 /\ q * 100 <= 100.
Proof.
  intros [H0 H1]. split.
  - apply Qmult_le_0_compat; [assumption | discriminate].
  - setoid_replace 100 with (1 * 100) at 2 by reflexivity.
    apply Qmult_le_compat_r; [assumption | discriminate].
Qed.

Lemma count_le_length {A} (p : A -> bool) (l : list A) : (count p l <= length l)%nat.
Proof. unfold count. apply filter_length_le. Qed.

Lemma count_and_le {A} (p q : A -> bool) (l : list A) :
  (count (fun x => p x && q x) l <= count p l)%nat
  /\ (count (fun x => p x && q x) l <= count q l)%nat.
Proof.
  unfold count. induction l as [| x l [IH1 IH2]]; simpl; [split; lia |].
  destruct (p x), (q x); simpl; split; lia.
Qed.

(** [np.round] on a probability: 1 above one half, 0 up to one half, one
    half itself going to the even neighbour 0. *)
Lemma np_round_probability (p : Q) :
  0 <= p -> p <= 1 ->
  np_round p = if Qle_bool p (1 # 2) then 0%Z else 1%Z.
Proof.
  intros H0 H1. unfold np_round.
  destruct (Qle_lt_or_eq _ _ H1) as [Hlt | Heq].
  - assert (Hf : Qfloor p = 0%Z).
    { pose proof (Qfloor_le p) as Hle. pose proof (Qlt_floor p) as Hgt.
      assert (0 <= Qfloor p)%Z.
      { apply Z.lt_succ_r. rewrite Zlt_Qlt. eapply Qle_lt_trans; [exact H0 |].
        replace (Z.succ (Qfloor p)) with (Qfloor p + 1)%Z by lia. exact Hgt. }
      assert (Qfloor p < 1)%Z.
      { rewrite Zlt_Qlt. eapply Qle_lt_trans; [exact Hle | exact Hlt]. }
      lia. }
    rewrite Hf.
    assert (E : p - inject_Z 0 == p) by (unfold inject_Z; ring).
    rewrite E. destruct (p ?= 1 # 2) eqn:Ec.
    + rewrite <- Qeq_alt in Ec.
      assert (Eb : Qle_bool p (1 # 2) = true)
        by (apply Qle_bool_iff; rewrite Ec; apply Qle_refl).
      now rewrite Eb.
    + rewrite <- Qlt_alt in Ec.
      assert (Eb : Qle_bool p (1 # 2) = true)
        by (apply Qle_bool_iff; now apply Qlt_le_weak).
      now rewrite Eb.
    + rewrite <- Qgt_alt in Ec.
      destruct (Qle_bool p (1 # 2)) eqn:Eb; [| reflexivity].
      apply Qle_bool_iff in Eb. exfalso. eapply Qlt_not_le; eassumption.
  - assert (Hf : Qfloor p = 1%Z).
    { rewrite Heq. reflexivity. }
    rewrite Hf.
    assert (E : p - inject_Z 1 == 0) by (rewrite Heq; reflexivity).
    rewrite E. change (0 ?= 1 # 2) with Lt. cbv iota.
    destruct (Qle_bool p (1 # 2)) eqn:Eb; [| reflexivity].
    apply Qle_bool_iff in Eb. rewrite Heq in Eb. exfalso.
    apply (Qlt_not_le (1 # 2) 1); [reflexivity | exact Eb].
Qed.

Lemma Qsum_unit (l : list Q) :
  Forall (fun x => 0 <= x /\ x <= 1) l ->
  0 <= Qsum l /\ Qsum l <= inject_Z (Z.of_nat (length l)).
Proof.
  induction 1 as [| x l [H0 H1] _ [IH0 IH1]].
  - split; [apply Qle_refl | apply Qle_refl].
  - change (Qsum (x :: l)) with (x + Qsum l). split.
    + setoid_replace 0 with (0 + 0) by reflexivity. now apply Qplus_le_compat.
    + cbn [length]. rewrite Nat2Z.inj_succ, <- Z.add_1_l, inject_Z_plus.
      now apply Qplus_le_compat.
Qed.

Lemma pair_score_unit (sp sn : Q) : 0 <= pair_score sp sn /\ pair_score sp sn <= 1.
Proof. unfold pair_score. destruct (sp ?= sn); split; discriminate. Qed.

Lemma length_pairs {A B} (f : A -> A -> B) (pos neg : list A) :
  length (flat_map (fun sp => map (f sp) neg) pos) = (length pos * length neg)%nat.
Proof.
  induction pos as [| sp pos IH]; simpl; [reflexivity |].
  now rewrite length_app, length_map, IH.
Qed.

(** The area under the curve of two populations of scores is a fraction. *)
Lemma auc_unit (pos neg : list Q) :
  let auc := Qsum (flat_map (fun sp => map (pair_score sp) neg) pos)
             / inject_Z (Z.of_nat (length pos * length neg)) in
  0 <= auc /\ auc <= 1.
Proof.
  cbv zeta. rewrite <- (length_pairs pair_score pos neg).
  apply Qdiv_unit; apply Qsum_unit; apply Forall_forall; intros x Hx;
    apply in_flat_map in Hx as (sp & _ & Hx); apply in_map_iff in Hx as (sn & <- & _);
    apply pair_score_unit.
Qed.

Lemma hard_preds_binary (preds : list Q) :
  Forall (fun p => 0 <= p /\ p <= 1) preds -> Forall binary (map np_round preds).
Proof.
  intros H. apply Forall_map. eapply Forall_impl; [| exact H].
  intros p [H0 H1]. rewrite (np_round_probability p H0 H1).
  destruct (Qle_bool p (1 # 2)); [now left | now right].
Qed.

Lemma classes_binary (labels : list Z) :
  Forall binary labels -> In 0%Z labels -> In 1%Z labels ->
  exists c1 c2, classes labels = [c1; c2].
Proof.
  intros Hbin H0 H1.
  assert (Hnd : NoDup (classes labels)) by apply NoDup_nodup.
  assert (Hge : (2 <= length (classes labels))%nat).
  { apply (NoDup_incl_length (l := [0%Z; 1%Z])).
    - repeat constructor; simpl; intuition discriminate.
    - intros z [<- | [<- | []]]; now apply nodup_In. }
  assert (Hle : (length (classes labels) <= 2)%nat).
  { apply (NoDup_incl_length (l' := [0%Z; 1%Z]) Hnd).
    intros z Hz. apply nodup_In in Hz. rewrite Forall_forall in Hbin.
    destruct (Hbin _ Hz) as [-> | ->]; simpl; auto. }
  destruct (classes labels) as [| c1 [| c2 [| c3 cs]]]; simpl in *; try lia.
  eauto.
Qed.

Lemma present_binary (labels hard : list Z) :
  Forall binary labels -> Forall binary hard ->
  (length (nodup Z.eq_dec (labels ++ hard)) <= 2)%nat.
Proof.
  intros Hl Hh.
  apply (NoDup_incl_length (l' := [0%Z; 1%Z])); [apply NoDup_nodup |].
  intros z Hz. apply nodup_In, in_app_or in Hz.
  rewrite Forall_forall in Hl, Hh.
  destruct Hz as [Hz | Hz]; [destruct (Hl _ Hz) as [-> | ->]
                            | destruct (Hh _ Hz) as [-> | ->]]; simpl; auto.
Qed.

(** On labels of the two classes, both present, and as many probabilities,
    [compute_metrics] returns, and each of its five metrics is a percentage
    between 0 and 100. *)
Theorem compute_metrics_range (labels : list Z) (preds : list Q) :
  Forall binary labels -> In 0%Z labels -> In 1%Z labels ->
  length labels = length preds ->
  Forall probability preds ->
  exists acc auc prec rec f1,
    compute_metrics labels preds = Ok (acc, auc, prec, rec, f1)
    /\ percentage acc /\ percentage auc /\ percentage prec
    /\ percentage rec /\ percentage f1.
Proof.
  intros Hbin H0 H1 Hlen Hp.
  pose proof (hard_preds_binary preds Hp) as Hhard.
  set (hard := map np_round preds) in *.
  assert (Hlh : length labels = length hard) by (unfold hard; now rewrite length_map).
  destruct (classes_binary labels Hbin H0 H1) as (c1 & c2 & Hc).
  unfold compute_metrics. fold hard.
  unfold accuracy_score. rewrite Hlh, Nat.eqb_refl. cbn [negb Py.bind].
  unfold roc_auc_score. rewrite Hlen, Nat.eqb_refl, Hc. cbn [negb Py.bind].
  unfold precision_recall_fscore_support. rewrite Hlh, Nat.eqb_refl. cbn [negb].
  pose proof (present_binary labels hard Hbin Hhard) as Hpres.
  destruct (Nat.ltb_spec 2 (length (nodup Z.eq_dec (labels ++ hard)))) as [Hgt | _];
    [lia |].
  assert (Hin1 : existsb (Z.eqb 1) (nodup Z.eq_dec (labels ++ hard)) = true).
  { apply existsb_exists. exists 1%Z. split; [| reflexivity].
    apply nodup_In, in_or_app. now left. }
  rewrite Hin1, andb_false_r. cbn [negb Py.bind].
  do 5 eexists. split; [reflexivity |].
  unfold percentage.
  repeat split; try (apply percent_range; apply ratio_unit);
    try (apply (percent_range _ (auc_unit _ _))).
  - rewrite <- Hlh. etransitivity; [apply count_le_length |].
    rewrite length_combine, <- Hlh. lia.
  - rewrite <- Hlh. etransitivity; [apply count_le_length |].
    rewrite length_combine, <- Hlh. lia.
  - apply (count_and_le (fun lh : Z * Z => (fst lh =? 1)%Z)
                        (fun lh : Z * Z => (snd lh =? 1)%Z)).
  - apply (count_and_le (fun lh : Z * Z => (fst lh =? 1)%Z)
                        (fun lh : Z * Z => (snd lh =? 1)%Z)).
  - apply (count_and_le (fun lh : Z * Z => (fst lh =? 1)%Z)
                        (fun lh : Z * Z => (snd lh =? 1)%Z)).
  - apply (count_and_le (fun lh : Z * Z => (fst lh =? 1)%Z)
                        (fun lh : Z * Z => (snd lh =? 1)%Z)).
  - pose proof (count_and_le (fun lh : Z * Z => (fst lh =? 1)%Z)
                             (fun lh : Z * Z => (snd lh =? 1)%Z)
                             (combine labels hard)) as [Ha Hb]. lia.
  - pose proof (count_and_le (fun lh : Z * Z => (fst lh =? 1)%Z)
                             (fun lh : Z * Z => (snd lh =? 1)%Z)
                             (combine labels hard)) as [Ha Hb]. lia.
Qed.

Lemma compute_metrics_range_witness :
  exists acc auc prec rec f1,
    compute_metrics [1; 0; 1]%Z [9 # 10; 4 # 10; 1 # 2] = Ok (acc, auc, prec, rec, f1)
    /\ percentage acc /\ percentage auc /\ percentage prec
    /\ percentage rec /\ percentage f1.
Proof.
  apply compute_metrics_range.
  - apply Forall_forall. intros x [<- | [<- | [<- | []]]]; unfold binary; auto.
  - simpl; auto.
  - simpl; auto.
  - reflexivity.
  - repeat constructor; discriminate.
Defined.

(** The hard prediction of a probability is 1 exactly when the probability
    is above one half; a probability of exactly one half counts as class 0. *)
Theorem predictions_thresholded_above_half (p : Q) :
  probability p ->
  (np_round p = 1%Z <-> 1 # 2 < p) /\ (np_round p = 0%Z <-> p <= 1 # 2).
Proof.
  intros [H0 H1]. rewrite (np_round_probability p H0 H1).
  destruct (Qle_bool p (1 # 2)) eqn:E.
  - apply Qle_bool_iff in E. split; split.
    + discriminate.
    + intros Hlt. exfalso. eapply Qlt_not_le; eassumption.
    + intros _. exact E.
    + reflexivity.
  - assert (Hlt : 1 # 2 < p).
    { apply Qnot_le_lt. intros Hle. apply Qle_bool_iff in Hle. congruence. }
    split; split.
    + intros _. exact Hlt.
    + reflexivity.
    + discriminate.
    + intros Hle. exfalso. eapply Qlt_not_le; eassumption.
Qed.

Lemma predictions_thresholded_above_half_witness :
  np_round (1 # 2) = 0%Z /\ (np_round (51 # 100) = 1%Z <-> 1 # 2 < 51 # 100).
Proof.
  split.
  - apply (predictions_thresholded_above_half (1 # 2)); [split |]; discriminate.
  - apply (predictions_thresholded_above_half (51 # 100)). split; discriminate.
Defined.

(** [compute_metrics] raises a [ValueError] on vectors of different
    lengths and on empty vectors. *)
Theorem compute_metrics_rejects_degenerate_input (labels : list Z) (preds : list Q) :
  length labels <> length preds \/ labels = [] ->
  exists msg, compute_metrics labels preds = Raise (ValueError msg).
Proof.
  intros [Hne | ->]; unfold compute_metrics, accuracy_score.
  - rewrite length_map. apply Nat.eqb_neq in Hne. rewrite Hne. simpl. eexists. reflexivity.
  - rewrite length_map. destruct preds as [| p preds]; simpl; eexists; reflexivity.
Qed.

Lemma compute_metrics_rejects_degenerate_input_witness :
  (exists msg, compute_metrics [1; 0]%Z [1 # 2] = Raise (ValueError msg))
  /\ (exists msg, compute_metrics [] [] = Raise (ValueError msg)).
Proof.
  split; apply compute_metrics_rejects_degenerate_input;
    [left; discriminate | right; reflexivity].
Defined.

End MetricsRange.

(** ** What the aggregators of the language-model path return *)

Section AggregatorContract.

Import LMKT.

Lemma firstn_skipn_add {A} (l : list A) (n m : nat) :
  firstn n l ++ firstn m (skipn n l) = firstn (n + m) l.
Proof.
  revert l. induction n as [| n IH]; intros [| x l]; simpl; try reflexivity.
  - now rewrite firstn_nil.
  - now rewrite IH.
Qed.

Lemma group_loop_groups (kc_probs : list Q) (nums : list nat) :
  forall counter,
    concat (fst (group_loop kc_probs nums counter))
    = firstn (list_sum nums) (skipn counter kc_probs)
    /\ ((counter + list_sum nums <= length kc_probs)%nat ->
        map (@length Q) (fst (group_loop kc_probs nums counter)) = nums).
Proof.
  induction nums as [| n rest IH]; intros counter; simpl.
  - split; reflexivity.
  - destruct (IH (counter + n)%nat) as (Hc & Hm).
    destruct (group_loop kc_probs rest (counter + n)) as [g c]. simpl in *.
    split.
    + rewrite Hc. unfold slice.
      rewrite (Nat.add_comm counter n), <- skipn_skipn.
      apply firstn_skipn_add.
    + intros H. rewrite Hm by lia. f_equal.
      unfold slice. rewrite length_firstn, length_skipn. lia.
Qed.

Lemma group_loop_nth (kc_probs : list Q) (nums : list nat) :
  forall (counter t n : nat),
    nth_error nums t = Some n ->
    nth_error (fst (group_loop kc_probs nums counter)) t
    = Some (slice kc_probs (counter + list_sum (firstn t nums)) n).
Proof.
  induction nums as [| m rest IH]; intros counter [| t] n H; simpl in H;
    try discriminate.
  - injection H as ->. simpl.
    destruct (group_loop kc_probs rest (counter + n)) as [g c]. simpl.
    now rewrite Nat.add_0_r.
  - specialize (IH (counter + m)%nat t n H). simpl.
    destruct (group_loop kc_probs rest (counter + m)) as [g c]. simpl in *.
    rewrite IH. do 2 f_equal. lia.
Qed.

(** The loop over [batch["num_kcs"]] cuts the rows of the batch into
    consecutive groups, one per turn and of the announced sizes, in the order
    of the rows and without gap or overlap, and gives each turn the product
    of its group. *)
Theorem unpacked_groups_partition_rows (kc_probs : list Q) (nums : list nat) :
  (list_sum nums <= length kc_probs)%nat ->
  map (@length Q) (fst (group_loop kc_probs nums 0)) = nums
  /\ concat (fst (group_loop kc_probs nums 0)) = firstn (list_sum nums) kc_probs
  /\ snd (group_loop kc_probs nums 0) = map prod (fst (group_loop kc_probs nums 0)).
Proof.
  intros H. destruct (group_loop_groups kc_probs nums 0) as [Hc Hm].
  split; [apply Hm; simpl; exact H |]. split; [exact Hc |].
  apply group_loop_corr.
Qed.

Lemma unpacked_groups_partition_rows_witness :
  fst (group_loop [1 # 2; 2 # 3; 3 # 4; 4 # 5] [2; 1]%nat 0)
  = [[1 # 2; 2 # 3]; [3 # 4]]
  /\ map (@length Q) (fst (group_loop [1 # 2; 2 # 3; 3 # 4; 4 # 5] [2; 1]%nat 0))
     = [2; 1]%nat
  /\ concat (fst (group_loop [1 # 2; 2 # 3; 3 # 4; 4 # 5] [2; 1]%nat 0))
     = firstn 3 [1 # 2; 2 # 3; 3 # 4; 4 # 5].
Proof.
  split; [reflexivity |].
  assert (H : (list_sum [2; 1] <= length [1 # 2; 2 # 3; 3 # 4; 4 # 5])%nat)
    by (simpl; lia).
  destruct (unpacked_groups_partition_rows [1 # 2; 2 # 3; 3 # 4; 4 # 5] [2; 1]%nat H)
    as (Hm & Hc & _).
  split; [exact Hm | exact Hc].
Defined.

(** The slices of the loop never raise: a turn that announces no KC, like a
    turn whose rows are missing from the batch (the counter is past the last
    row), gets an empty group and the correctness probability 1. *)
Theorem turn_without_rows_has_probability_one
    (kc_probs : list Q) (nums : list nat) (t n : nat) :
  nth_error nums t = Some n ->
  n = 0%nat \/ (length kc_probs <= list_sum (firstn t nums))%nat ->
  nth_error (fst (group_loop kc_probs nums 0)) t = Some []
  /\ nth_error (snd (group_loop kc_probs nums 0)) t = Some 1.
Proof.
  intros Ht Hn.
  assert (E : nth_error (fst (group_loop kc_probs nums 0)) t = Some []).
  { rewrite (group_loop_nth kc_probs nums 0 t n Ht). f_equal. unfold slice.
    destruct Hn as [-> | Hn]; [reflexivity |].
    rewrite skipn_all2 by (simpl; exact Hn). apply firstn_nil. }
  split; [exact E |].
  rewrite group_loop_corr, nth_error_map, E. reflexivity.
Qed.

Lemma turn_without_rows_has_probability_one_witness :
  nth_error (snd (group_loop [1 # 2] [1; 2; 0]%nat 0)) 1 = Some 1
  /\ nth_error (snd (group_loop [1 # 2] [1; 2; 0]%nat 0)) 2 = Some 1.
Proof.
  split.
  - apply (turn_without_rows_has_probability_one [1 # 2] [1; 2; 0]%nat 1 2 eq_refl).
    right. simpl. lia.
  - apply (turn_without_rows_has_probability_one [1 # 2] [1; 2; 0]%nat 2 0 eq_refl).
    now left.
Defined.

Variable ff : float_funs.
Variables true_token false_token : nat.

Lemma BCELoss_ok (input target : list Q) (loss : Q) :
  BCELoss ff input target = Ok loss ->
  length input = length target /\ Forall probability input.
Proof.
  unfold BCELoss. intros H.
  destruct (zip_strict input target) as [pairs | e] eqn:Ez; [| discriminate].
  apply zip_strict_ok in Ez as [_ Hlen].
  destruct (forallb in_unit_interval input) eqn:Eu; [| discriminate].
  split; [exact Hlen |].
  apply Forall_forall. intros x Hx.
  rewrite forallb_forall in Eu. specialize (Eu x Hx).
  unfold in_unit_interval in Eu. apply andb_true_iff in Eu as [H0 H1].
  split; now apply Qle_bool_iff.
Qed.

(** Whenever the unpacked aggregator returns, it returns one group of KC
    probabilities and one correctness probability per turn, as many as the
    batch has labels; the correctness probability of a turn is the product
    of its group and lies between 0 and 1, and the batch has at least one
    turn. *)
Theorem unpacked_loss_contract (model : lm) (batch : batch_unpacked)
    (loss : Q) (grouped : list (list Q)) (corr : list Q) :
  get_lmkt_loss_unpacked ff true_token false_token model batch
    = Ok (loss, grouped, corr) ->
  length corr = length (u_labels batch)
  /\ length grouped = length (u_labels batch)
  /\ length (u_num_kcs batch) = length (u_labels batch)
  /\ corr = map prod grouped
  /\ Forall probability corr
  /\ u_labels batch <> [].
Proof.
  unfold get_lmkt_loss_unpacked. intros H.
  apply bind_ok in H as (kc & _ & H).
  pose proof (group_loop_corr kc (u_num_kcs batch) 0) as Hcorr.
  pose proof (group_loop_nth kc (u_num_kcs batch) 0) as Hnth.
  assert (Hlen : length (fst (group_loop kc (u_num_kcs batch) 0))
                 = length (u_num_kcs batch)).
  { clear. generalize 0%nat. induction (u_num_kcs batch) as [| n rest IH];
      intros c; simpl; [reflexivity |].
    specialize (IH (c + n)%nat).
    destruct (group_loop kc rest (c + n)) as [g cs]. simpl in *. now rewrite IH. }
  destruct (group_loop kc (u_num_kcs batch) 0) as [g cl]. simpl in Hcorr, Hlen.
  apply bind_ok in H as (cs & Hstack & H).
  apply bind_ok in H as (l & Hl & H). injection H as <- <- <-.
  assert (cs = cl) by (destruct cl; [discriminate | now injection Hstack]).
  subst cs.
  apply BCELoss_ok in Hl as [Hlen' Hprob]. rewrite length_map in Hlen'.
  assert (Hg : length g = length cl) by (rewrite Hcorr; now rewrite length_map).
  repeat split; try assumption; try congruence.
  intros E. rewrite E in Hlen'. destruct cl; [discriminate Hstack | discriminate Hlen'].
Qed.

(** Whenever the packed aggregator returns, it returns one correctness
    probability per row of the batch, as many as the batch has labels, each
    between 0 and 1; the groups of KC probabilities follow the zip of the
    rows with [num_kcs]: there are as many as the shorter of the two, and
    the group of a turn has at most the announced number of entries. *)
Theorem packed_loss_contract (model : lm) (batch : batch_packed)
    (loss : Q) (grouped : list (list Q)) (corr : list Q) :
  snd (get_lmkt_loss_packed ff true_token false_token model batch)
    = Ok (loss, grouped, corr) ->
  length corr = length (p_labels batch)
  /\ length corr = length (p_last_idxs batch)
  /\ Forall probability corr
  /\ length grouped = Nat.min (length corr) (length (p_num_kcs batch))
  /\ forall t g n, nth_error grouped t = Some g ->
                   nth_error (p_num_kcs batch) t = Some n -> (length g <= n)%nat.
Proof.
  unfold get_lmkt_loss_packed.
  cbn [snd p_last_idxs p_num_kcs p_labels p_input_ids p_attention_mask p_position_ids].
  intros H.
  apply bind_ok in H as (kc & Hkc & H).
  apply bind_ok in H as (rows & Hrows & H).
  apply bind_ok in H as (cp & Hcp & H).
  apply bind_ok in H as (l & Hl & H). injection H as <- <- <-.
  apply zip_strict_ok in Hrows as [-> Hlen].
  apply mapM_length in Hcp. rewrite length_combine, <- Hlen, Nat.min_id in Hcp.
  apply BCELoss_ok in Hl as [Hlen' Hprob]. rewrite length_map in Hlen'.
  repeat split; try assumption; try congruence.
  - rewrite length_map, length_combine. congruence.
  - intros t g n Hg Hn. rewrite nth_error_map in Hg.
    destruct (nth_error (combine kc (p_num_kcs batch)) t) as [[probs n'] |] eqn:E;
      [| discriminate].
    simpl in Hg. injection Hg as <-.
    apply nth_error_combine in E as [_ E]. rewrite Hn in E.
    injection E as <-. rewrite length_firstn. lia.
Qed.

End AggregatorContract.

Lemma unpacked_loss_contract_witness :
  LMKT.get_lmkt_loss_unpacked sample_funs 0 1 sample_lm sample_unpacked
    = Ok (816 # 1152, [[1 # 2; 2 # 3]; [3 # 4]], [2 # 6; 3 # 4])
  /\ length [2 # 6; 3 # 4] = length (LMKT.u_labels sample_unpacked)
  /\ [2 # 6; 3 # 4] = map prod [[1 # 2; 2 # 3]; [3 # 4]]
  /\ Forall probability [2 # 6; 3 # 4].
Proof.
  assert (H : LMKT.get_lmkt_loss_unpacked sample_funs 0 1 sample_lm sample_unpacked
              = Ok (816 # 1152, [[1 # 2; 2 # 3]; [3 # 4]], [2 # 6; 3 # 4]))
    by reflexivity.
  split; [exact H |].
  destruct (unpacked_loss_contract sample_funs 0 1 sample_lm sample_unpacked _ _ _ H)
    as (H1 & _ & _ & H4 & H5 & _).
  split; [exact H1 |]. split; [exact H4 | exact H5].
Defined.

Lemma packed_loss_contract_witness :
  snd (LMKT.get_lmkt_loss_packed sample_funs 0 1 sample_lm sample_packed)
    = Ok (816 # 1152, [[1 # 2; 2 # 3]; [3 # 4]], [2 # 6; 3 # 4])
  /\ length [2 # 6; 3 # 4] = length (LMKT.p_labels sample_packed)
  /\ Forall probability [2 # 6; 3 # 4].
Proof.
  assert (H : snd (LMKT.get_lmkt_loss_packed sample_funs 0 1 sample_lm sample_packed)
              = Ok (816 # 1152, [[1 # 2; 2 # 3]; [3 # 4]], [2 # 6; 3 # 4]))
    by reflexivity.
  split; [exact H |].
  destruct (packed_loss_contract sample_funs 0 1 sample_lm sample_packed _ _ _ H)
    as (H1 & _ & H3 & _).
  split; [exact H1 | exact H3].
Defined.

(** ** The index map of [test_lmkt], for every batch size *)

Section IndexMap.

Import LMKT EvalLM.

#[local] Arguments zindex : simpl never.
#[local] Arguments index : simpl never.

Lemma setdefault_append_keys (d : index_map) (k v : nat) :
  map fst (setdefault_append d k v)
  = map fst d ++ (if existsb (Nat.eqb k) (map fst d) then [] else [k]).
Proof.
  induction d as [| [k' l] d IH]; simpl; [reflexivity |].
  destruct (Nat.eqb_spec k' k) as [-> | Hne]; simpl.
  - rewrite Nat.eqb_refl. simpl. now rewrite app_nil_r.
  - rewrite IH. destruct (Nat.eqb_spec k k') as [-> | _]; [contradiction | reflexivity].
Qed.

Lemma record_samples_keys (batch_idx : nat) (meta : list sample) :
  forall (d : index_map) (sample_idx : nat) (ids : list nat),
    map fst d = first_seen [] ids ->
    map fst (record_samples d batch_idx sample_idx meta)
    = first_seen [] (ids ++ map dialogue_idx meta).
Proof.
  induction meta as [| s rest IH]; intros d sample_idx ids Hd; simpl.
  - now rewrite app_nil_r.
  - replace (ids ++ dialogue_idx s :: map dialogue_idx rest)
      with ((ids ++ [dialogue_idx s]) ++ map dialogue_idx rest)
      by (now rewrite <- app_assoc).
    apply IH. rewrite setdefault_append_keys, first_seen_snoc, Hd.
    rewrite existsb_first_seen. simpl. now rewrite andb_true_r.
Qed.

Lemma bounded_weaken (d : index_map) (n m : nat) :
  (n <= m)%nat -> bounded d n -> bounded d m.
Proof.
  intros Hle H. unfold bounded in *. eapply Forall_impl; [| exact H].
  intros kv (i & Hi & Hlt). exists i. split; [assumption | lia].
Qed.

Lemma bounded_insert (d : index_map) (k v m : nat) :
  (v < m)%nat -> bounded d m -> bounded (setdefault_append d k v) m.
Proof.
  intros Hv. unfold bounded.
  induction 1 as [| [k' idxs] d Hkv Hd IH]; simpl.
  - constructor; [| constructor]. exists v. split; [| exact Hv].
    change [v] with ([] ++ [v]). apply zindex_last.
  - destruct (k' =? k)%nat.
    + constructor; [| exact Hd]. exists v. split; [apply zindex_last | exact Hv].
    + constructor; [exact Hkv | exact IH].
Qed.

Lemma record_samples_bounded (batch_idx m : nat) (meta : list sample) :
  forall (d : index_map) (sample_idx : nat),
    (batch_idx + sample_idx + length meta <= m)%nat ->
    bounded d m -> bounded (record_samples d batch_idx sample_idx meta) m.
Proof.
  induction meta as [| s rest IH]; intros d sample_idx Hle Hd; simpl in *;
    [exact Hd |].
  apply IH; [lia |]. apply bounded_insert; [lia | exact Hd].
Qed.

Lemma final_turns_total {A} (d : index_map) (xs : list A) :
  bounded d (length xs) ->
  exists r, final_turns d xs = Ok r /\ length r = length d.
Proof.
  unfold bounded, final_turns.
  induction 1 as [| kv d (i & Hi & Hlt) _ (r & Hr & Hlen)]; simpl.
  - exists []. split; reflexivity.
  - rewrite Hi. simpl. unfold index at 1.
    destruct (nth_error xs i) as [x |] eqn:Ex;
      [| apply nth_error_None in Ex; lia].
    simpl. rewrite Hr. simpl. exists (x :: r). split; [reflexivity | simpl; congruence].
Qed.

Variable Batch : Type.
Variable meta_data : Batch -> list sample.
Variable labels : Batch -> list Z.
Variable get_loss : Batch -> result (Q * list (list Q) * list Q).

Lemma batches_from_index_map (loader : list Batch) :
  Forall (aligned_batch meta_data labels get_loss) loader ->
  forall (st st' : collected) (n : nat) (ids : list nat),
    batches_from meta_data labels get_loss st n loader = Ok st' ->
    map fst (dialogue_idx_to_sample_idxs st) = first_seen [] ids ->
    bounded (dialogue_idx_to_sample_idxs st) (length (all_labels st)) ->
    length (all_preds st) = length (all_labels st) ->
    (n <= length (all_labels st))%nat ->
    map fst (dialogue_idx_to_sample_idxs st')
    = first_seen [] (ids ++ dialogue_ids meta_data loader)
    /\ bounded (dialogue_idx_to_sample_idxs st') (length (all_labels st'))
    /\ length (all_preds st') = length (all_labels st').
Proof.
  induction 1 as [| b rest (Hne & Hlab & Hcorr) _ IH];
    intros st st' n ids H Hkeys Hb Hp Hn; simpl in H.
  - injection H as <-. unfold dialogue_ids. simpl. rewrite app_nil_r. auto.
  - apply bind_ok in H as (st1 & H1 & H).
    unfold process_batch in H1.
    apply bind_ok in H1 as ([[loss kc] corr] & Hloss & H1). injection H1 as <-.
    specialize (Hcorr _ _ _ Hloss).
    assert (Hm : (0 < length (meta_data b))%nat)
      by (destruct (meta_data b); [contradiction | simpl; lia]).
    replace (ids ++ dialogue_ids meta_data (b :: rest))
      with ((ids ++ map dialogue_idx (meta_data b)) ++ dialogue_ids meta_data rest)
      by (unfold dialogue_ids; simpl; now rewrite map_app, app_assoc).
    apply (IH _ _ _ _ H); cbn [dialogue_idx_to_sample_idxs all_labels all_preds].
    + now apply record_samples_keys.
    + rewrite length_app. apply record_samples_bounded; [lia |].
      eapply bounded_weaken; [| exact Hb]. lia.
    + rewrite !length_app. congruence.
    + rewrite length_app. lia.
Qed.

(** Whatever the batch size: on batches with at least one turn, one label
    and one prediction per turn, the index map has one key per dialogue, in
    the order in which the dialogues first appear, and the final-turn
    extraction does not fail: it returns one label and one prediction per
    dialogue. *)
Theorem final_turns_one_per_dialogue (loader : list Batch) (st : collected) :
  Forall (aligned_batch meta_data labels get_loss) loader ->
  collect meta_data labels get_loss loader = Ok st ->
  map fst (dialogue_idx_to_sample_idxs st)
  = first_seen [] (dialogue_ids meta_data loader)
  /\ NoDup (map fst (dialogue_idx_to_sample_idxs st))
  /\ (exists fl, final_turns (dialogue_idx_to_sample_idxs st) (all_labels st) = Ok fl
                 /\ length fl = length (first_seen [] (dialogue_ids meta_data loader)))
  /\ (exists fp, final_turns (dialogue_idx_to_sample_idxs st) (all_preds st) = Ok fp
                 /\ length fp = length (first_seen [] (dialogue_ids meta_data loader))).
Proof.
  intros Hall H. unfold collect in H.
  assert (H0 : bounded (dialogue_idx_to_sample_idxs empty_collected)
                       (length (all_labels empty_collected))) by constructor.
  destruct (batches_from_index_map loader Hall _ _ _ [] H eq_refl H0 eq_refl
              (Nat.le_refl _)) as (Hk & Hb & Hp).
  simpl in Hk.
  assert (Hlen : length (dialogue_idx_to_sample_idxs st)
                 = length (first_seen [] (dialogue_ids meta_data loader)))
    by (rewrite <- Hk; now rewrite length_map).
  split; [exact Hk |]. split; [rewrite Hk; apply NoDup_first_seen |]. split.
  - destruct (final_turns_total _ (all_labels st) Hb) as (r & Hr & Hl).
    exists r. split; [exact Hr | congruence].
  - rewrite <- Hp in Hb.
    destruct (final_turns_total _ (all_preds st) Hb) as (r & Hr & Hl).
    exists r. split; [exact Hr | congruence].
Qed.

End IndexMap.

Lemma final_turns_one_per_dialogue_witness :
  exists st,
    EvalLM.collect LMKT.u_meta_data LMKT.u_labels
      (LMKT.get_lmkt_loss_unpacked sample_funs 0 1 sample_lm) loader_of_two = Ok st
    /\ map fst (EvalLM.dialogue_idx_to_sample_idxs st) = [0; 1]%nat
    /\ exists fl, EvalLM.final_turns (EvalLM.dialogue_idx_to_sample_idxs st)
                                     (EvalLM.all_labels st) = Ok fl
                  /\ length fl = 2%nat.
Proof.
  assert (Hall : Forall (aligned_batch LMKT.u_meta_data LMKT.u_labels
                           (LMKT.get_lmkt_loss_unpacked sample_funs 0 1 sample_lm))
                        loader_of_two).
  { repeat constructor; try discriminate;
      intros loss kc corr H; vm_compute in H; injection H as _ _ <-; reflexivity. }
  destruct (EvalLM.collect LMKT.u_meta_data LMKT.u_labels
              (LMKT.get_lmkt_loss_unpacked sample_funs 0 1 sample_lm) loader_of_two)
    as [st | e] eqn:E; [| vm_compute in E; discriminate].
  exists st. split; [reflexivity |].
  destruct (final_turns_one_per_dialogue _ _ _ _ _ _ Hall E) as (Hk & _ & Hl & _).
  split; [exact Hk | exact Hl].
Defined.

(** ** The evaluation driver of the baselines *)

Section BaselineDriver.

Import Metrics Baselines.

Variable ff : float_funs.
Variable fw : forwards.

Lemma get_baseline_model_supported (n_kcs : nat) (a : args) :
  py_in (model_type a) BASELINE_MODELS = true ->
  exists m, get_baseline_model n_kcs a = Ok m.
Proof.
  unfold py_in, BASELINE_MODELS, get_baseline_model. cbn [existsb]. intros H.
  repeat match goal with
         | |- context [(model_type a =? ?s)%string] =>
             destruct (model_type a =? s)%string; [eexists; reflexivity |]
         end.
  discriminate.
Qed.

(** The factory builds a model exactly for the types of [BASELINE_MODELS],
    and the evaluation driver, which consults that list before calling it,
    never fails at model construction. *)
Theorem model_construction_matches_supported_list (n_kcs : nat) (a : args) :
  ((exists m, get_baseline_model n_kcs a = Ok m)
   <-> py_in (model_type a) BASELINE_MODELS = true)
  /\ forall (env : collaborators) (fold : fold_t env),
       exists m, load_model env a fold = Ok m.
Proof.
  split.
  - split.
    + intros [m Hm]. destruct (py_in (model_type a) BASELINE_MODELS) eqn:E;
        [reflexivity |].
      rewrite (get_baseline_model_unsupported _ _ E) in Hm. discriminate.
    + apply get_baseline_model_supported.
  - intros env fold. unfold load_model.
    destruct (py_in (model_type a) BASELINE_MODELS) eqn:E; [| eexists; reflexivity].
    destruct (get_baseline_model_supported (len env (load_kc_dict env a)) a E)
      as [m ->].
    eexists. reflexivity.
Qed.

(** Without any batch, both evaluation drivers divide the total loss by
    zero, whatever the model type. *)
Theorem empty_test_set_divides_by_zero
    (env : collaborators) (a : args) (fold : fold_t env) :
  test_dataloader env a fold = [] ->
  test_baseline ff fw env a fold = Raise ZeroDivisionError
  /\ forall (Batch : Type) (meta_data : Batch -> list LMKT.sample)
            (labels : Batch -> list Z)
            (get_loss : Batch -> result (Q * list (list Q) * list Q))
            (suffix : string),
       EvalLM.test_lmkt meta_data labels get_loss suffix [] = Raise ZeroDivisionError.
Proof.
  intros H. split; [| reflexivity].
  unfold test_baseline, collect. rewrite H.
  destruct (load_model env a fold) as [model | e] eqn:E; [reflexivity |].
  unfold load_model in E.
  destruct (py_in (model_type a) BASELINE_MODELS) eqn:Ein; [| discriminate].
  destruct (get_baseline_model_supported (len env (load_kc_dict env a)) a Ein)
    as [m Hm].
  rewrite Hm in E. discriminate.
Qed.

End BaselineDriver.

Lemma empty_test_set_divides_by_zero_witness :
  Baselines.test_dataloader (dialogue_pipeline empty_test_splits) (sample_args "dkt") tt
  = []
  /\ Baselines.test_baseline sample_funs sample_forwards
       (dialogue_pipeline empty_test_splits) (sample_args "dkt") tt
     = Raise ZeroDivisionError.
Proof.
  split; [reflexivity |].
  apply (empty_test_set_divides_by_zero sample_funs sample_forwards
           (dialogue_pipeline empty_test_splits) (sample_args "dkt") tt eq_refl).
Defined.

(** ** What the evaluation loop of the baselines collects *)

Section BaselineCollect.

Import Metrics Baselines.

Lemma select_not_ignored (row : list Z) :
  select row (map not_ignored row) = Ok (filter not_ignored row).
Proof.
  unfold select. rewrite zip_strict_same_length by (now rewrite length_map).
  f_equal. induction row as [| l row IH]; simpl; [reflexivity |].
  destruct (not_ignored l); simpl; now rewrite IH.
Qed.

Lemma select2_not_ignored (x : list (list Z)) :
  select2 x (map (map not_ignored) x) = Ok (filter not_ignored (concat x)).
Proof.
  unfold select2. rewrite zip_strict_same_length by (now rewrite length_map).
  rewrite <- concat_filter_map.
  induction x as [| row x IH]; simpl; [reflexivity |].
  rewrite select_not_ignored. simpl.
  destruct (mapM (fun xm : list Z * list bool => select (fst xm) (snd xm))
                 (combine x (map (map not_ignored) x))) as [r | e];
    simpl in *; [| discriminate].
  injection IH as ->. reflexivity.
Qed.

Lemma select_length {A} (x : list A) (mask : list bool) (r : list A) :
  select x mask = Ok r -> length r = count (fun b : bool => b) mask.
Proof.
  intros H. apply select_ok in H as [Hlen ->]. rewrite length_map. unfold count.
  revert mask Hlen. induction x as [| a x IH]; intros [| m mask] Hlen; simpl in *;
    try discriminate; [reflexivity |].
  destruct m; simpl; rewrite IH by congruence; reflexivity.
Qed.

Lemma select2_length {A} (x : list (list A)) (mask : list (list bool)) (r : list A) :
  select2 x mask = Ok r -> length r = count (fun b : bool => b) (concat mask).
Proof.
  unfold select2. destruct (zip_strict x mask) as [rows | e] eqn:Ez; [| discriminate].
  apply zip_strict_ok in Ez as [-> Hlen]. intros H.
  apply bind_ok in H as (rs & Hrs & H). injection H as <-.
  revert mask rs Hlen Hrs.
  induction x as [| a x IH]; intros [| m mask] rs Hlen Hrs; simpl in *;
    try discriminate.
  - injection Hrs as <-. reflexivity.
  - apply bind_ok in Hrs as (r1 & Hr1 & Hrs). apply bind_ok in Hrs as (rs' & Hrs' & Hrs).
    injection Hrs as <-. simpl. unfold count in *.
    rewrite length_app, filter_app, length_app.
    rewrite (select_length _ _ _ Hr1). unfold count.
    rewrite (IH mask rs') by congruence. reflexivity.
Qed.

Lemma pick_length {A} (x : list (list A)) (idxs : list Z) (r : list A) :
  pick x idxs = Ok r -> length r = length idxs.
Proof.
  unfold pick. intros H. apply mapM_length in H.
  rewrite H, length_combine, length_seq. apply Nat.min_id.
Qed.

Variable ff : float_funs.
Variable fw : forwards.
Variable env : collaborators.
Variable a : args.
Variable fold : fold_t env.

Lemma batches_from_collected (model : option baseline_model) (loader : list batch) :
  forall (st st' : collected) (n : nat),
    batches_from ff fw env a fold model st n loader = Ok st' ->
    all_labels st'
    = all_labels st
      ++ filter not_ignored
           (concat (flat_map (fun b => map (@tl Z) (labels b)) loader))
    /\ length (final_turn_labels st')
       = (length (final_turn_labels st) + length (flat_map labels loader))%nat
    /\ (length (all_preds st) = length (all_labels st) ->
        length (all_preds st') = length (all_labels st'))
    /\ (length (final_turn_preds st) = length (final_turn_labels st) ->
        length (final_turn_preds st') = length (final_turn_labels st')).
Proof.
  induction loader as [| b rest IH]; intros st st' n H; simpl in H.
  - injection H as <-. simpl. rewrite app_nil_r. repeat split; auto.
  - apply bind_ok in H as (st1 & H1 & H).
    destruct (IH _ _ _ H) as (Hl & Hf & Hp & Hfp). clear IH H.
    unfold process_batch in H1.
    apply bind_ok in H1 as ([loss corr] & _ & H1).
    apply bind_ok in H1 as (labels_sel & Hls & H1).
    apply bind_ok in H1 as (preds_sel & Hps & H1).
    apply bind_ok in H1 as (final_labels & Hfl & H1).
    apply bind_ok in H1 as (final_preds & Hfpk & H1).
    injection H1 as <-.
    cbn [all_labels all_preds final_turn_labels final_turn_preds] in *.
    rewrite select2_not_ignored in Hls. injection Hls as <-.
    apply select2_length in Hps.
    pose proof (select2_length _ _ _ (select2_not_ignored (map (@tl Z) (labels b))))
      as Hls.
    apply pick_length in Hfl, Hfpk. rewrite !length_map in Hfl, Hfpk.
    repeat split.
    + rewrite Hl, <- app_assoc. f_equal. simpl.
      now rewrite concat_app, filter_app.
    + rewrite Hf, length_app, Hfl. simpl. rewrite length_app. lia.
    + intros E. apply Hp. rewrite !length_app. congruence.
    + intros E. apply Hfp. rewrite !length_app. congruence.
Qed.

(** Whenever the evaluation loop completes, for a trained model as for a
    trivial policy: the labels it has collected are the labels of the turns
    after the first of each dialogue that are not the ignore sentinel, in
    the order of the batches and rows; there are as many predictions as
    labels; and the final-turn arrays hold one label and one prediction per
    dialogue row. *)
Theorem baseline_collects_non_ignored_labels (st : collected) :
  collect ff fw env a fold = Ok st ->
  all_labels st
  = filter not_ignored
      (concat (flat_map (fun b => map (@tl Z) (labels b)) (test_dataloader env a fold)))
  /\ Forall (fun l => l <> IGNORE) (all_labels st)
  /\ length (all_preds st) = length (all_labels st)
  /\ length (final_turn_labels st) = length (flat_map labels (test_dataloader env a fold))
  /\ length (final_turn_preds st) = length (final_turn_labels st).
Proof.
  unfold collect. intros H. apply bind_ok in H as (model & _ & H).
  destruct (batches_from_collected _ _ _ _ _ H) as (Hl & Hf & Hp & Hfp).
  simpl in Hl, Hf, Hp, Hfp.
  repeat split; auto.
  rewrite Hl. apply Forall_forall. intros l Hin. apply filter_In in Hin as [_ Hin].
  unfold not_ignored in Hin. intros ->. rewrite Z.eqb_refl in Hin. discriminate.
Qed.

Lemma batches_from_trivial_loss (loader : list batch) :
  model_type a = "random"%string \/ model_type a = "majority"%string ->
  forall (st st' : collected) (n : nat),
    batches_from ff fw env a fold None st n loader = Ok st' ->
    total_loss st == 0 -> total_loss st' == 0.
Proof.
  intros Ha. induction loader as [| b rest IH]; intros st st' n H Hst; simpl in H.
  - now injection H as <-.
  - apply bind_ok in H as (st1 & H1 & H). apply (IH _ _ _ H). clear IH H.
    unfold process_batch in H1.
    apply bind_ok in H1 as ([loss corr] & Hpred & H1).
    apply bind_ok in H1 as (labels_sel & _ & H1).
    apply bind_ok in H1 as (preds_sel & _ & H1).
    apply bind_ok in H1 as (final_labels & _ & H1).
    apply bind_ok in H1 as (final_preds & _ & H1).
    injection H1 as <-. cbn [total_loss].
    assert (Hloss : loss = 0).
    { unfold predict in Hpred. destruct Ha as [Ha | Ha]; rewrite Ha in Hpred;
        simpl in Hpred; now injection Hpred as <- _. }
    rewrite Hloss, Hst. reflexivity.
Qed.

(** The two trivial policies report a loss of zero, in the returned vector
    as in the report. *)
Theorem trivial_policies_report_zero_loss (ev : evaluation) :
  model_type a = "random"%string \/ model_type a = "majority"%string ->
  test_baseline ff fw env a fold = Ok ev ->
  nth 0 (returned ev) 1 == 0 /\ rep_loss (metrics_report ev) == 0.
Proof.
  intros Ha H. unfold test_baseline in H.
  apply bind_ok in H as (st & Hst & H). apply bind_ok in H as (loss & Hloss & H).
  apply bind_ok in H as ([[path rep] [am fm]] & Hm & H). injection H as <-.
  apply compute_all_metrics_ok in Hm as (_ & _ & _ & ->).
  cbn [returned nth metrics_report rep_loss].
  assert (Hmodel : load_model env a fold = Ok None)
    by (unfold load_model; destruct Ha as [-> | ->]; reflexivity).
  unfold collect in Hst. rewrite Hmodel in Hst. simpl in Hst.
  pose proof (batches_from_trivial_loss _ Ha _ _ _ Hst (Qeq_refl 0)) as Hz.
  assert (E : loss == 0).
  { destruct (length (test_dataloader env a fold)); [discriminate |].
    injection Hloss as <-. unfold Qdiv. rewrite Hz. apply Qmult_0_l. }
  split; exact E.
Qed.

(** The dispatch of the loss changes nothing in the batch but its turn-end
    indices, and nothing at all for the architectures that are not shifted
    ("dkt-multi", "dkt-sem", "dkt") and for an unsupported type. *)
Theorem compute_baseline_loss_frame (model : baseline_model) (b : batch) :
  let b' := fst (compute_baseline_loss ff fw model b a) in
  kc_ids b' = kc_ids b /\ num_kcs b' = num_kcs b /\ labels b' = labels b
  /\ kc_ids_flat b' = kc_ids_flat b /\ labels_flat b' = labels_flat b
  /\ (py_in (model_type a) ["dkt-multi"; "dkt-sem"; "dkt"]%string
      || negb (py_in (model_type a) BASELINE_MODELS) = true -> b' = b).
Proof.
  assert (Hflat : forall y shift,
             let b' := fst (flat_loss ff y b shift) in
             kc_ids b' = kc_ids b /\ num_kcs b' = num_kcs b /\ labels b' = labels b
             /\ kc_ids_flat b' = kc_ids_flat b /\ labels_flat b' = labels_flat b
             /\ (shift = false -> b' = b)).
  { intros y shift. unfold flat_loss, select_flat_baseline_out_vectors.
    destruct shift; [| simpl; repeat split; reflexivity].
    destruct (tensor_max (turn_end_idxs b)); simpl; repeat split; try reflexivity;
      discriminate. }
  unfold compute_baseline_loss, py_in, BASELINE_MODELS. cbn [existsb].
  destruct (model_type a =? "dkt-multi")%string; [simpl; repeat split; reflexivity |].
  destruct (model_type a =? "dkt-sem")%string; [simpl; repeat split; reflexivity |].
  destruct (model_type a =? "dkt")%string.
  { destruct (Hflat (call_flat fw model (kc_ids_flat b) (labels_flat b)) false)
      as (H1 & H2 & H3 & H4 & H5 & H6).
    cbv zeta. repeat split; try assumption; try (intros _; now apply H6). }
  destruct (model_type a =? "akt")%string.
  { destruct (call_akt fw model (kc_ids_flat b) (labels_flat b) (kc_ids_flat b))
      as [y rasch].
    destruct (Hflat y true) as (H1 & H2 & H3 & H4 & H5 & _).
    destruct (flat_loss ff y b true) as [b1 r]. simpl in *.
    repeat split; try assumption. discriminate. }
  destruct (model_type a =? "dkvmn")%string.
  { destruct (Hflat (call_flat fw model (kc_ids_flat b) (labels_flat b)) true)
      as (H1 & H2 & H3 & H4 & H5 & _).
    cbv zeta. repeat split; try assumption. discriminate. }
  destruct (model_type a =? "saint")%string.
  { match goal with
    | |- context [flat_loss ff ?y b true] =>
        destruct (Hflat y true) as (H1 & H2 & H3 & H4 & H5 & _)
    end.
    cbv zeta. repeat split; try assumption. discriminate. }
  destruct (model_type a =? "simplekt")%string.
  { match goal with
    | |- context [flat_loss ff ?y b true] =>
        destruct (Hflat y true) as (H1 & H2 & H3 & H4 & H5 & _)
    end.
    cbv zeta. repeat split; try assumption. discriminate. }
  simpl. repeat split; reflexivity.
Qed.

End BaselineCollect.

Lemma baseline_collects_non_ignored_labels_witness :
  exists st,
    Baselines.collect sample_funs sample_forwards (labels_pipeline sample_splits)
                      (sample_args "majority") tt = Ok st
    /\ Baselines.all_labels st = [0; 0; 1; 1; 0]%Z
    /\ length (Baselines.all_preds st) = length (Baselines.all_labels st)
    /\ length (Baselines.final_turn_labels st) = 2%nat.
Proof.
  destruct (Baselines.collect sample_funs sample_forwards (labels_pipeline sample_splits)
              (sample_args "majority") tt) as [st | e] eqn:E;
    [| vm_compute in E; discriminate].
  exists st. split; [reflexivity |].
  destruct (baseline_collects_non_ignored_labels sample_funs sample_forwards
              (labels_pipeline sample_splits) (sample_args "majority") tt st E)
    as (H1 & _ & H3 & H4 & _).
  split; [exact H1 |]. split; [exact H3 | exact H4].
Defined.

Lemma trivial_policies_report_zero_loss_witness :
  exists ev,
    Baselines.test_baseline sample_funs sample_forwards
      (labels_pipeline positive_splits) (sample_args "majority") tt = Ok ev
    /\ nth 0 (Baselines.returned ev) 1 == 0.
Proof.
  destruct (Baselines.test_baseline sample_funs sample_forwards
              (labels_pipeline positive_splits) (sample_args "majority") tt)
    as [ev | e] eqn:E; [| vm_compute in E; discriminate].
  exists ev. split; [reflexivity |].
  exact (proj1 (trivial_policies_report_zero_loss sample_funs sample_forwards
                  (labels_pipeline positive_splits) (sample_args "majority") tt ev
                  (or_intror eq_refl) E)).
Defined.

(** ** Edge cases of the baseline path *)

Section BaselineEdges.

Import Metrics Baselines.

Lemma ignored_is_sentinel (l : Z) : not_ignored l = false -> l = IGNORE.
Proof.
  unfold not_ignored. intros H. apply negb_false_iff in H. now apply Z.eqb_eq.
Qed.

Lemma combine_map_self {A B} (f : A -> B) (l : list A) :
  combine l (map f l) = map (fun x => (x, f x)) l.
Proof. induction l as [| x l IH]; simpl; [reflexivity | now rewrite IH]. Qed.

Lemma gather_row_bounds {A} (yb : list A) (i : list nat) (r : list A) :
  mapM (index yb) i = Ok r -> Forall (fun j => (j < length yb)%nat) i.
Proof.
  intros H. apply mapM_ok in H.
  induction H as [| j x i r Hj _ IH]; constructor; [| exact IH].
  unfold index in Hj. destruct (nth_error yb j) eqn:E; [| discriminate].
  apply nth_error_Some. congruence.
Qed.

Lemma gather_row_total {A} (yb : list A) (i : list nat) :
  Forall (fun j => (j < length yb)%nat) i ->
  exists r, mapM (index yb) i = Ok r.
Proof.
  induction 1 as [| j i Hj _ (r & Hr)]; simpl; [eexists; reflexivity |].
  unfold index at 1. destruct (nth_error yb j) as [x |] eqn:E;
    [| apply nth_error_None in E; lia].
  simpl. rewrite Hr. simpl. eexists. reflexivity.
Qed.

Lemma gather_dim1_bounds (L : nat) (idxs : list (list nat)) :
  forall (y r : tensor3),
    Forall (fun yb => length yb = L) y ->
    gather_dim1 y idxs = Ok r ->
    Forall (Forall (fun j => (j < L)%nat)) idxs
    /\ (length idxs <= length y)%nat /\ length r = length idxs.
Proof.
  induction idxs as [| i idxs IH]; intros y r Hy H; simpl in H.
  - injection H as <-. repeat split; [constructor | simpl; lia].
  - destruct y as [| yb y]; [discriminate |].
    inversion Hy as [| ? ? Hyb Hy']; subst.
    apply bind_ok in H as (r1 & Hr1 & H). apply bind_ok in H as (rest & Hrest & H).
    injection H as <-.
    destruct (IH _ _ Hy' Hrest) as (Hb & Hlen & Hr).
    repeat split; [| simpl; lia | simpl; lia].
    constructor; [| exact Hb]. now apply gather_row_bounds in Hr1.
Qed.

Lemma gather_dim1_total (L : nat) (idxs : list (list nat)) :
  forall y : tensor3,
    Forall (fun yb => length yb = L) y ->
    (length idxs <= length y)%nat ->
    Forall (Forall (fun j => (j < L)%nat)) idxs ->
    exists r, gather_dim1 y idxs = Ok r.
Proof.
  induction idxs as [| i idxs IH]; intros y Hy Hlen Hb; simpl.
  - eexists. reflexivity.
  - destruct y as [| yb y]; [simpl in Hlen; lia |].
    inversion Hy as [| ? ? Hyb Hy']; subst. inversion Hb as [| ? ? Hi Hb']; subst.
    destruct (gather_row_total yb i Hi) as (r1 & ->).
    destruct (IH y Hy' ltac:(simpl in Hlen; lia) Hb') as (rest & ->).
    simpl. eexists. reflexivity.
Qed.

(** The shifted selection cannot leave the sequence: on output sequences of
    one length, whenever the selection at the turn-end indices succeeds, so
    does the selection at the indices incremented and clipped at their
    maximum, with one row of vectors per dialogue as before. *)
Theorem shifted_selection_stays_in_bounds
    (y : tensor3) (b : batch) (L : nat) (r : tensor3) :
  Forall (fun yb => length yb = L) y ->
  concat (turn_end_idxs b) <> [] ->
  snd (select_flat_baseline_out_vectors y b false) = Ok r ->
  exists r', snd (select_flat_baseline_out_vectors y b true) = Ok r'
             /\ length r' = length r.
Proof.
  intros Hy Hne H. simpl in H.
  destruct (gather_dim1_bounds L _ _ _ Hy H) as (Hb & Hlen & Hr).
  unfold select_flat_baseline_out_vectors.
  destruct (tensor_max (turn_end_idxs b)) as [m | e] eqn:Em.
  - apply tensor_max_spec in Em as [Hin _]. cbn [snd turn_end_idxs set_turn_end_idxs].
    assert (Hm : (m < L)%nat).
    { apply in_concat in Hin as (row & Hrow & Hin).
      rewrite Forall_forall in Hb. specialize (Hb _ Hrow).
      rewrite Forall_forall in Hb. now apply Hb. }
    destruct (gather_dim1_total L (shift_clip m (turn_end_idxs b)) y Hy) as (r' & Hr').
    + unfold shift_clip. now rewrite length_map.
    + unfold shift_clip. apply Forall_map. apply Forall_forall. intros row _.
      apply Forall_map. apply Forall_forall. intros i _. lia.
    + exists r'. split; [exact Hr' |].
      destruct (gather_dim1_bounds L _ _ _ Hy Hr') as (_ & _ & ->).
      unfold shift_clip. rewrite length_map. congruence.
  - unfold tensor_max in Em. destruct (concat (turn_end_idxs b)); [contradiction |].
    discriminate.
Qed.

Lemma shifted_selection_stays_in_bounds_witness :
  exists r',
    snd (select_flat_baseline_out_vectors sample_outputs sample_batch true) = Ok r'
    /\ length r' = 1%nat.
Proof.
  assert (Hy : Forall (fun yb : list (list Q) => length yb = 4%nat) sample_outputs)
    by (repeat constructor).
  assert (Hne : concat (turn_end_idxs sample_batch) <> []) by discriminate.
  destruct (snd (select_flat_baseline_out_vectors sample_outputs sample_batch false))
    as [r | e] eqn:E; [| vm_compute in E; discriminate].
  destruct (shifted_selection_stays_in_bounds sample_outputs sample_batch 4 r Hy Hne E)
    as (r' & Hr' & Hlen).
  exists r'. split; [exact Hr' |].
  rewrite Hlen. vm_compute in E. injection E as <-. reflexivity.
Defined.

Lemma Qsum_constant (h : Q) (l : list Q) :
  Forall (fun x => x = h) l -> Qsum l == inject_Z (Z.of_nat (length l)) * h.
Proof.
  induction 1 as [| x l Hx _ IH].
  - simpl. ring.
  - change (Qsum (x :: l)) with (x + Qsum l). rewrite IH, Hx. cbn [length].
    rewrite Nat2Z.inj_succ, <- Z.add_1_l, inject_Z_plus. ring.
Qed.

Lemma scores_of_constant (c : Z) (k : Q) (labels : list Z) :
  Forall (fun x => x = k) (scores_of c labels (map (fun _ => k) labels)).
Proof.
  unfold scores_of. apply Forall_forall. intros x Hx.
  apply in_map_iff in Hx as ([l p] & <- & Hin). apply filter_In in Hin as [Hin _].
  apply in_combine_r in Hin. apply in_map_iff in Hin as (_ & <- & _). reflexivity.
Qed.

Lemma scores_of_present (c : Z) (labels : list Z) (preds : list Q) :
  In c labels -> length labels = length preds ->
  (0 < length (scores_of c labels preds))%nat.
Proof.
  unfold scores_of. rewrite length_map. revert preds.
  induction labels as [| l labels IH]; intros [| p preds] Hin Hlen; simpl in *;
    try contradiction; try discriminate.
  destruct (Z.eqb_spec l c) as [_ | Hne]; simpl; [lia |].
  destruct Hin as [-> | Hin]; [contradiction |]. apply IH; [assumption | congruence].
Qed.

(** With every prediction equal, an area under the curve that is computed
    at all is one half. *)
Lemma auc_of_constant (k : Q) (labels : list Z) (auc : Q) :
  roc_auc_score labels (map (fun _ => k) labels) = Ok auc -> auc == 1 # 2.
Proof.
  unfold roc_auc_score. rewrite length_map, Nat.eqb_refl. cbn [negb].
  destruct (classes labels) as [| c1 [| c2 [| c3 cs]]] eqn:Ec; try discriminate.
  intros H. injection H as <-.
  assert (Hin : forall c, In c [c1; c2] -> In c labels).
  { intros c Hc. apply (nodup_In Z.eq_dec). fold (classes labels). now rewrite Ec. }
  set (preds := map (fun _ : Z => k) labels).
  assert (Hlen : length labels = length preds) by (unfold preds; now rewrite length_map).
  set (pos := scores_of (Z.max c1 c2) labels preds).
  set (neg := scores_of (Z.min c1 c2) labels preds).
  assert (Hpos : Forall (fun x => x = k) pos) by apply scores_of_constant.
  assert (Hneg : Forall (fun x => x = k) neg) by apply scores_of_constant.
  assert (Hnp : (0 < length pos)%nat).
  { apply scores_of_present; [| exact Hlen]. apply Hin.
    destruct (Z.max_spec c1 c2) as [[_ ->] | [_ ->]]; simpl; auto. }
  assert (Hnn : (0 < length neg)%nat).
  { apply scores_of_present; [| exact Hlen]. apply Hin.
    destruct (Z.min_spec c1 c2) as [[_ ->] | [_ ->]]; simpl; auto. }
  rewrite (Qsum_constant (1 # 2)).
  - rewrite length_pairs.
    assert (Hz : ~ inject_Z (Z.of_nat (length pos * length neg)) == 0).
    { intros E. unfold Qeq in E. simpl in E. nia. }
    field. exact Hz.
  - apply Forall_forall. intros x Hx.
    apply in_flat_map in Hx as (sp & Hsp & Hx). apply in_map_iff in Hx as (sn & <- & Hsn).
    rewrite Forall_forall in Hpos, Hneg.
    rewrite (Hpos _ Hsp), (Hneg _ Hsn). unfold pair_score.
    now rewrite (proj1 (Qeq_alt k k) (Qeq_refl k)).
Qed.

Variable ff : float_funs.
Variable fw : forwards.

(** The "majority" policy cannot rank: whenever its evaluation returns, the
    area under the curve it reports is 50, over all the turns and over the
    final turns. *)
Theorem majority_policy_auc_is_chance
    (env : collaborators) (a : args) (fold : fold_t env) (ev : evaluation) :
  model_type a = "majority"%string ->
  test_baseline ff fw env a fold = Ok ev ->
  nth 2 (returned ev) 0 == 50 /\ nth 7 (returned ev) 0 == 50.
Proof.
  intros Ha H. unfold test_baseline in H.
  apply bind_ok in H as (st & Hst & H). apply bind_ok in H as (loss & _ & H).
  apply bind_ok in H as ([[path rep] [am fm]] & Hm & H). injection H as <-.
  apply compute_all_metrics_ok in Hm as (Ham & Hfm & _ & _).
  destruct (collect_majority ff fw _ _ _ _ Ha Hst) as [Hall Hfin].
  rewrite Hall in Ham. rewrite Hfin in Hfm.
  assert (Hgen : forall labels k acc auc prec rec f1,
             compute_metrics labels (map (fun _ => k) labels)
             = Ok (acc, auc, prec, rec, f1) -> auc == 50).
  { clear. intros labels k acc auc prec rec f1 H. unfold compute_metrics in H.
    apply bind_ok in H as (acc0 & _ & H). apply bind_ok in H as (auc0 & Hauc & H).
    apply bind_ok in H as ([[prec0 rec0] f0] & _ & H). injection H as _ <- _ _ _.
    rewrite (auc_of_constant _ _ _ Hauc). reflexivity. }
  destruct am as [[[[acc auc] prec] rec] f1], fm as [[[[acc' auc'] prec'] rec'] f1'].
  simpl. split; eapply Hgen; eassumption.
Qed.

End BaselineEdges.

Lemma majority_policy_auc_is_chance_witness :
  exists ev,
    Baselines.test_baseline sample_funs sample_forwards
      (labels_pipeline positive_splits) (sample_args "majority") tt = Ok ev
    /\ nth 2 (Baselines.returned ev) 0 == 50
    /\ nth 7 (Baselines.returned ev) 0 == 50.
Proof.
  destruct (Baselines.test_baseline sample_funs sample_forwards
              (labels_pipeline positive_splits) (sample_args "majority") tt)
    as [ev | e] eqn:E; [| vm_compute in E; discriminate].
  exists ev. split; [reflexivity |].
  exact (majority_policy_auc_is_chance sample_funs sample_forwards
           (labels_pipeline positive_splits) (sample_args "majority") tt ev eq_refl E).
Defined.

(** ** What the checkpoint holds *)

Section CheckpointInvariant.

Import Training.

Lemma end_of_epoch_recorded (prefix : list Q) (st : loop_state) (v : Q) :
  recorded prefix st ->
  recorded (prefix ++ [v]) (end_of_epoch st (length prefix) v).
Proof.
  intros H. unfold end_of_epoch.
  destruct (is_best (best_val_loss st) v) eqn:Eb.
  - unfold recorded in *. cbn [checkpoint best_val_loss writes].
    split; [| split; [| split]].
    + exists v. split; [reflexivity |].
      now rewrite nth_error_app2, Nat.sub_diag by lia.
    + exists (writes st). reflexivity.
    + destruct (checkpoint st) as [c |].
      * destruct H as (_ & _ & Hhd & _).
        destruct (writes st); [discriminate | exact Hhd].
      * destruct H as (-> & _ & ->). reflexivity.
    + rewrite length_app. cbn [length]. apply Forall_app. split.
      * destruct (checkpoint st) as [c |].
        -- destruct H as (_ & _ & _ & Hall).
           eapply Forall_impl; [| exact Hall]. intros w Hw. simpl in Hw. lia.
        -- destruct H as (_ & _ & ->). constructor.
      * constructor; [lia | constructor].
  - unfold recorded in *. destruct (checkpoint st) as [c |].
    + destruct H as ((b & Hb & Hc) & Hws & Hhd & Hall).
      split; [| split; [| split]]; try assumption.
      * exists b. split; [exact Hb |].
        rewrite nth_error_app1; [exact Hc |]. apply nth_error_Some. congruence.
      * eapply Forall_impl; [| exact Hall]. intros w Hw. simpl in Hw.
        rewrite length_app. lia.
    + destruct H as (_ & Hnone & _). rewrite Hnone in Eb. discriminate.
Qed.

Lemma epochs_from_recorded (vs : list Q) :
  forall (prefix : list Q) (st : loop_state),
    recorded prefix st ->
    recorded (prefix ++ vs) (epochs_from st (length prefix) vs).
Proof.
  induction vs as [| v vs IH]; intros prefix st H; simpl.
  - now rewrite app_nil_r.
  - replace (prefix ++ v :: vs) with ((prefix ++ [v]) ++ vs)
      by (now rewrite <- app_assoc).
    replace (S (length prefix)) with (length (prefix ++ [v]))
      by (rewrite length_app; simpl; lia).
    apply IH. now apply end_of_epoch_recorded.
Qed.

(** Whatever the validation losses of the epochs: no checkpoint is saved
    only when no epoch is run; otherwise the first epoch is saved, the
    checkpoint is the last save, and the best loss that the loop holds is
    the validation loss of the epoch whose weights the checkpoint holds. *)
Theorem checkpoint_holds_recorded_loss (vs : list Q) :
  recorded vs (train_loop vs)
  /\ (checkpoint (train_loop vs) = None <-> vs = []).
Proof.
  assert (H : recorded vs (train_loop vs)).
  { apply (epochs_from_recorded vs [] init_state). repeat split. }
  split; [exact H |]. split.
  - intros E. unfold recorded in H. rewrite E in H. now destruct H.
  - intros ->. reflexivity.
Qed.



End CheckpointInvariant.

(** ** Gradient accumulation and the averages of an epoch *)

Section Accumulation.

Import Epoch.

Lemma succ_div_mod (i k : nat) :
  (0 < k)%nat ->
  ((i + 1) mod k = 0 -> i mod k = k - 1 /\ (i + 1) / k = i / k + 1)%nat
  /\ ((i + 1) mod k <> 0 -> (i + 1) mod k = i mod k + 1 /\ (i + 1) / k = i / k)%nat.
Proof.
  intros Hk.
  pose proof (Nat.div_mod_eq i k) as Hi.
  pose proof (Nat.mod_upper_bound i k ltac:(lia)) as Hr.
  destruct (Nat.eq_dec (i mod k + 1) k) as [E | E].
  - assert (Hq : (i / k + 1 = (i + 1) / k)%nat)
      by (apply (Nat.div_unique _ _ _ 0); lia).
    assert (Hm : (0 = (i + 1) mod k)%nat)
      by (apply (Nat.mod_unique _ _ (i / k + 1)); lia).
    split; [intros _; lia | intros H; lia].
  - assert (Hq : (i / k = (i + 1) / k)%nat)
      by (apply (Nat.div_unique _ _ _ (i mod k + 1)); lia).
    assert (Hm : (i mod k + 1 = (i + 1) mod k)%nat)
      by (apply (Nat.mod_unique _ _ (i / k)); lia).
    split; [intros H; lia | intros _; lia].
Qed.

Lemma py_mod_pos (a b : nat) : (0 < b)%nat -> py_mod a b = Ok (a mod b)%nat.
Proof. unfold py_mod. destruct b; [lia | reflexivity]. Qed.

Lemma seq_snoc (a n i : nat) : i = (a + n)%nat -> seq a n ++ [i] = seq a (n + 1).
Proof. intros ->. now rewrite Nat.add_1_r, seq_S. Qed.

Variable Batch : Type.
Variables train_loss val_loss : list (list nat * bool) -> Batch -> result Q.
Variable k : nat.
Variable gc : Q.

Lemma train_batches_from_schedule (n : nat) (loader : list Batch) :
  (0 < k)%nat ->
  forall (st st' : accum_state) (i : nat),
    (i + length loader = n)%nat ->
    loader <> [] ->
    map fst (steps st) = map (fun j => seq (j * k) k) (seq 0 (i / k)) ->
    accumulated st = seq (i / k * k) (i mod k) ->
    concat (map fst (steps st)) ++ accumulated st = seq 0 i ->
    Forall (fun s : list nat * bool => snd s = truthy gc) (steps st) ->
    train_batches_from train_loss k gc n st i loader = Ok st' ->
    accumulated st' = []
    /\ map fst (steps st')
       = map (fun j => seq (j * k) (Nat.min k (n - j * k))) (seq 0 ((n + k - 1) / k))
    /\ concat (map fst (steps st')) = seq 0 n
    /\ Forall (fun s : list nat * bool => snd s = truthy gc) (steps st').
Proof.
  intros Hk. induction loader as [| b rest IH];
    intros st st' i Hn Hne Hsteps Hacc Hcat Hclip H; [contradiction |].
  simpl in H, Hn. apply bind_ok in H as (st1 & H1 & H).
  unfold train_batch in H1. apply bind_ok in H1 as (loss & _ & H1).
  rewrite (py_mod_pos _ _ Hk) in H1. cbn [Py.bind] in H1.
  pose proof (Nat.div_mod_eq i k) as Hi.
  pose proof (Nat.mod_upper_bound i k ltac:(lia)) as Hr.
  destruct (succ_div_mod i k Hk) as [Hzero Hnonzero].
  assert (Hstepcat :
            concat (map fst (steps st ++ [(accumulated st ++ [i], truthy gc)]))
            = seq 0 (i + 1)).
  { rewrite map_app, concat_app. cbn [map fst concat].
    rewrite app_nil_r, app_assoc, Hcat. now apply seq_snoc. }
  assert (Hstepclip :
            Forall (fun s : list nat * bool => snd s = truthy gc)
                   (steps st ++ [(accumulated st ++ [i], truthy gc)])).
  { apply Forall_app. split; [exact Hclip | repeat constructor]. }
  destruct rest as [| b' rest'].
  - (* the last batch *)
    assert (En : n = (i + 1)%nat) by (simpl in Hn; lia).
    replace (Z.of_nat i =? Z.of_nat n - 1)%Z with true in H1
      by (symmetry; apply Z.eqb_eq; lia).
    rewrite orb_true_r in H1. injection H1 as <-. simpl in H. injection H as <-.
    cbn [accumulated steps]. split; [reflexivity |].
    split; [| split; [now rewrite En | exact Hstepclip]].
    rewrite map_app, Hsteps, Hacc. cbn [map fst].
    replace ((n + k - 1) / k)%nat with (i / k + 1)%nat.
    2:{ replace (n + k - 1)%nat with (i + 1 * k)%nat by lia.
        rewrite Nat.div_add by lia. reflexivity. }
    rewrite Nat.add_1_r, seq_S, map_app. cbn [map Nat.add]. f_equal.
    + apply map_ext_in. intros j Hj. apply in_seq in Hj. f_equal.
      assert (j * k + k <= i / k * k)%nat by nia. lia.
    + f_equal. rewrite (seq_snoc _ _ i) by lia. f_equal. lia.
  - (* a batch before the last *)
    replace (Z.of_nat i =? Z.of_nat n - 1)%Z with false in H1
      by (symmetry; apply Z.eqb_neq; simpl in Hn; lia).
    rewrite orb_false_r in H1.
    replace (S i) with (i + 1)%nat in H by lia.
    assert (Hn' : (i + 1 + length (b' :: rest') = n)%nat) by (simpl in *; lia).
    assert (Hne' : b' :: rest' <> []) by discriminate.
    destruct (Nat.eqb_spec ((i + 1) mod k) 0) as [E | E]; injection H1 as <-.
    + destruct (Hzero E) as [Hm Hq].
      eapply (IH _ _ (i + 1)%nat Hn' Hne'); [| | | | exact H];
        cbn [accumulated steps]; [| | | exact Hstepclip].
      * rewrite map_app, Hsteps, Hacc, Hq. cbn [map fst].
        rewrite Nat.add_1_r, seq_S, map_app. cbn [map Nat.add]. do 2 f_equal.
        rewrite (seq_snoc _ _ i) by lia. f_equal. lia.
      * now rewrite E.
      * now rewrite app_nil_r.
    + destruct (Hnonzero E) as [Hm Hq].
      eapply (IH _ _ (i + 1)%nat Hn' Hne'); [| | | | exact H];
        cbn [accumulated steps]; [| | | exact Hclip].
      * now rewrite Hq.
      * rewrite Hacc, Hq, Hm. apply seq_snoc. lia.
      * rewrite app_assoc, Hcat. now apply seq_snoc.
Qed.

(** With [grad_accum_steps = k > 0] and [n] training batches, the optimizer
    steps of an epoch are: step [j] applies the gradients of the batches
    [j * k] to [min ((j + 1) * k, n) - 1], so that there are [ceil (n / k)]
    steps, every batch contributes to exactly one step, in order, and only
    the last group can be shorter than [k]; no gradient is left over at the
    end of the epoch; the norm is clipped at each step exactly when
    [args.gc] is non-zero. *)
Theorem accumulation_schedule (loader : list Batch) (st : accum_state) :
  (0 < k)%nat ->
  train_batches train_loss k gc loader = Ok st ->
  accumulated st = []
  /\ map fst (steps st)
     = map (fun j => seq (j * k) (Nat.min k (length loader - j * k)))
           (seq 0 ((length loader + k - 1) / k))
  /\ concat (map fst (steps st)) = seq 0 (length loader)
  /\ Forall (fun s : list nat * bool => snd s = truthy gc) (steps st).
Proof.
  intros Hk H. unfold train_batches in H.
  destruct loader as [| b rest].
  - injection H as <-. simpl.
    rewrite Nat.div_small by lia. repeat split. constructor.
  - apply (train_batches_from_schedule _ _ Hk _ _ 0) in H; try exact H;
      try discriminate; try reflexivity.
    + rewrite Nat.Div0.div_0_l. reflexivity.
    + rewrite Nat.Div0.div_0_l, Nat.Div0.mod_0_l. reflexivity.
    + constructor.
Qed.

Lemma train_batches_from_total (n : nat) (loader : list Batch) :
  (0 < k)%nat ->
  (forall h b, exists l, train_loss h b = Ok l) ->
  forall (st : accum_state) (i : nat),
    exists st', train_batches_from train_loss k gc n st i loader = Ok st'.
Proof.
  intros Hk Hloss. induction loader as [| b rest IH]; intros st i; simpl.
  - eexists. reflexivity.
  - unfold train_batch. destruct (Hloss (steps st) b) as [l ->].
    rewrite (py_mod_pos _ _ Hk). cbn [Py.bind].
    destruct (_ || _); cbn [Py.bind]; apply IH.
Qed.

Lemma validate_total (history : list (list nat * bool)) (loader : list Batch) :
  (forall h b, exists l, val_loss h b = Ok l) ->
  forall total, exists total', validate val_loss history total loader = Ok total'.
Proof.
  intros Hloss. induction loader as [| b rest IH]; intros total; simpl.
  - eexists. reflexivity.
  - destruct (Hloss history b) as [l ->]. cbn [Py.bind]. apply IH.
Qed.

(** When the losses themselves are computed without error, an epoch fails
    exactly in the three degenerate configurations, each time on a division
    by zero: no training batch, no validation batch, or
    [grad_accum_steps = 0]; in every other configuration it returns its two
    averages. *)
Theorem epoch_fails_iff_degenerate (train_dataloader val_dataloader : list Batch) :
  (forall h b, exists l, train_loss h b = Ok l) ->
  (forall h b, exists l, val_loss h b = Ok l) ->
  (k = 0%nat \/ train_dataloader = [] \/ val_dataloader = [] ->
   epoch train_loss val_loss k gc train_dataloader val_dataloader
   = Raise ZeroDivisionError)
  /\ ((0 < k)%nat -> train_dataloader <> [] -> val_dataloader <> [] ->
      exists st avg_train_loss avg_val_loss,
        epoch train_loss val_loss k gc train_dataloader val_dataloader
        = Ok (st, avg_train_loss, avg_val_loss)).
Proof.
  intros Htrain Hval. split.
  - intros Hdeg. unfold epoch.
    destruct train_dataloader as [| b rest].
    + cbn [train_batches train_batches_from length Py.bind init_accum steps].
      destruct (validate_total [] val_dataloader Hval 0) as [tv ->]. reflexivity.
    + destruct k as [| k'] eqn:Ek.
      * unfold train_batches. cbn [train_batches_from]. unfold train_batch.
        destruct (Htrain (steps init_accum) b) as [l ->]. reflexivity.
      * destruct Hdeg as [Hk | [Hl | ->]]; try discriminate.
        destruct (train_batches_from_total (length (b :: rest)) (b :: rest)
                    ltac:(lia) Htrain init_accum 0) as [st Hst].
        unfold train_batches. rewrite <- Ek, Hst. reflexivity.
  - intros Hk Htr Hv. unfold epoch.
    destruct (train_batches_from_total (length train_dataloader) train_dataloader
                Hk Htrain init_accum 0) as [st Hst].
    unfold train_batches. rewrite Hst. cbn [Py.bind].
    destruct (validate_total (steps st) val_dataloader Hval 0) as [tv ->].
    cbn [Py.bind].
    destruct train_dataloader as [| b rest]; [contradiction |].
    destruct val_dataloader as [| b' rest']; [contradiction |].
    do 3 eexists. reflexivity.
Qed.

End Accumulation.

Lemma accumulation_schedule_witness :
  exists st,
    Epoch.train_batches (fun _ (b : Q) => Ok b) 2 1 [1; 2; 3; 4; 5] = Ok st
    /\ Epoch.accumulated st = []
    /\ map fst (Epoch.steps st) = [[0; 1]; [2; 3]; [4]]%nat.
Proof.
  destruct (Epoch.train_batches (fun _ (b : Q) => Ok b) 2 1 [1; 2; 3; 4; 5])
    as [st | e] eqn:E; [| vm_compute in E; discriminate].
  exists st. split; [reflexivity |].
  destruct (accumulation_schedule Q (fun _ b => Ok b) 2 1 [1; 2; 3; 4; 5] st
              ltac:(lia) E) as (H1 & H2 & _).
  split; [exact H1 | exact H2].
Defined.

Lemma epoch_fails_iff_degenerate_witness :
  Epoch.epoch (fun _ (b : Q) => Ok b) (fun _ (b : Q) => Ok b) 2 1 [1; 2; 3] []
  = Raise ZeroDivisionError
  /\ Epoch.epoch (fun _ (b : Q) => Ok b) (fun _ (b : Q) => Ok b) 0 1 [1; 2; 3] [1]
     = Raise ZeroDivisionError.
Proof.
  assert (H : forall (h : list (list nat * bool)) (b : Q), exists l, Ok b = Ok l)
    by (intros; eexists; reflexivity).
  split.
  - apply (proj1 (epoch_fails_iff_degenerate Q (fun _ b => Ok b) (fun _ b => Ok b)
                    2 1 [1; 2; 3] [] H H)).
    right. now right.
  - apply (proj1 (epoch_fails_iff_degenerate Q (fun _ b => Ok b) (fun _ b => Ok b)
                    0 1 [1; 2; 3] [1] H H)).
    now left.
Defined.

(** ** Cross-validation *)

Section CrossValidation.

Import CrossVal.

Lemma mapM_total {A B} (f : A -> result B) (P : B -> Prop) (l : list A) :
  Forall (fun x => exists y, f x = Ok y /\ P y) l ->
  exists r, mapM f l = Ok r /\ Forall P r /\ length r = length l.
Proof.
  induction 1 as [| x l (y & Hy & HP) _ (r & Hr & HPr & Hlen)]; simpl.
  - exists []. repeat split. constructor.
  - rewrite Hy, Hr. simpl. exists (y :: r).
    repeat split; [constructor; assumption | simpl; congruence].
Qed.

Variable sqrt : Q -> Q.
Variable COMTA_SUBJECTS : list string.
Variable split_by_subject : bool.
Variable suffix : string.
Variable fn : fold -> result (list Q).

(** When there is at least one fold and the driver returns its eleven
    metrics on each fold, [crossval] returns the matrix whose rows are the
    vectors of the folds, in the order of the folds (it does not return the
    averages); the file it writes holds these vectors and one line per
    metric name, with the average and the standard deviation, over the
    folds, of the column of that metric. *)
Theorem crossval_reports_fold_means :
  folds COMTA_SUBJECTS split_by_subject <> [] ->
  Forall (fun f => exists v, fn f = Ok v /\ length v = 11%nat)
         (folds COMTA_SUBJECTS split_by_subject) ->
  exists cv,
    crossval sqrt COMTA_SUBJECTS split_by_subject suffix fn = Ok cv
    /\ mapM fn (folds COMTA_SUBJECTS split_by_subject) = Ok (cv_returned cv)
    /\ cv_metrics_agg cv = cv_returned cv
    /\ length (cv_returned cv) = length (folds COMTA_SUBJECTS split_by_subject)
    /\ map (fun l : string * Q * Q => fst (fst l)) (cv_results cv) = metric_names
    /\ forall idx name a s,
         nth_error (cv_results cv) idx = Some (name, a, s) ->
         a = mean (column idx (cv_returned cv))
         /\ s = sqrt (variance (column idx (cv_returned cv))).
Proof.
  intros Hne Hall.
  destruct (mapM_total fn (fun v => length v = 11%nat) _ Hall) as (m & Hm & Hlen & Hn).
  unfold crossval. rewrite Hm. cbn [Py.bind].
  assert (Hstack : np_stack m = Ok m /\ width m = 11%nat).
  { unfold np_stack, width. destruct m as [| r rest].
    - destruct (folds COMTA_SUBJECTS split_by_subject); [contradiction | discriminate].
    - inversion Hlen as [| ? ? Hr Hrest]; subst. split; [| exact Hr].
      replace (forallb (fun r' : list Q => (length r' =? length r)%nat) rest) with true;
        [reflexivity |].
      symmetry. apply forallb_forall. intros r' Hin.
      rewrite Forall_forall in Hrest. rewrite (Hrest _ Hin), Hr. reflexivity. }
  destruct Hstack as [-> Hw]. cbn [Py.bind].
  unfold mean0, std0, metric_names. rewrite Hw.
  cbn [seq map length combine mapM fst snd Py.bind]. unfold index.
  cbn [nth_error Py.bind].
  eexists. split; [reflexivity |].
  cbn [cv_returned cv_metrics_agg cv_results map fst snd].
  repeat split; try assumption.
  - revert H.
    do 11 (destruct idx as [| k];
           [intros H; injection H as _ <- _; reflexivity | rename k into idx]).
    destruct idx; discriminate.
  - revert H.
    do 11 (destruct idx as [| k];
           [intros H; injection H as _ _ <-; reflexivity | rename k into idx]).
    destruct idx; discriminate.
Qed.

End CrossValidation.

Lemma crossval_reports_fold_means_witness :
  exists cv,
    CrossVal.crossval (fun q => q) [] false "run"
      (fun _ =>
         Py.fmap Baselines.returned
           (Baselines.test_baseline sample_funs sample_forwards
              (labels_pipeline positive_splits) (sample_args "majority") tt)) = Ok cv
    /\ length (CrossVal.cv_returned cv) = 5%nat
    /\ map (fun l : string * Q * Q => fst (fst l)) (CrossVal.cv_results cv)
       = CrossVal.metric_names.
Proof.
  assert (Hne : CrossVal.folds [] false <> []) by discriminate.
  assert (Hall : Forall (fun f : CrossVal.fold =>
                           exists v,
                             Py.fmap Baselines.returned
                               (Baselines.test_baseline sample_funs sample_forwards
                                  (labels_pipeline positive_splits)
                                  (sample_args "majority") tt) = Ok v
                             /\ length v = 11%nat)
                        (CrossVal.folds [] false)).
  { apply Forall_forall. intros f _. eexists. split; [vm_compute; reflexivity | reflexivity]. }
  destruct (crossval_reports_fold_means (fun q => q) [] false "run"%string _ Hne Hall)
    as (cv & Hcv & _ & _ & Hlen & Hnames & _).
  exists cv. split; [exact Hcv |]. split; [exact Hlen | exact Hnames].
Defined.

(** ** Text embeddings of the KCs *)

Section KCEmbeddings.

Import Embeddings.

Lemma insert_perm (kv : string * nat) (l : list (string * nat)) :
  Permutation (insert kv l) (kv :: l).
Proof.
  induction l as [| h t IH]; simpl; [reflexivity |].
  destruct (snd kv <=? snd h)%nat; [reflexivity |].
  rewrite IH. apply perm_swap.
Qed.

Lemma sorted_by_id_perm (items : list (string * nat)) :
  Permutation (sorted_by_id items) items.
Proof.
  induction items as [| kv items IH]; simpl; [reflexivity |].
  rewrite insert_perm. now constructor.
Qed.

Lemma insert_sorted (kv : string * nat) (l : list (string * nat)) :
  StronglySorted (fun x y : string * nat => (snd x <= snd y)%nat) l ->
  StronglySorted (fun x y : string * nat => (snd x <= snd y)%nat) (insert kv l).
Proof.
  induction 1 as [| h t Ht IH Hh]; simpl.
  - constructor; constructor.
  - destruct (Nat.leb_spec (snd kv) (snd h)) as [Hle | Hlt].
    + constructor; [constructor; assumption |].
      constructor; [exact Hle |].
      eapply Forall_impl; [| exact Hh]. intros e He. simpl in He. lia.
    + constructor; [exact IH |].
      apply (Permutation_Forall (Permutation_sym (insert_perm kv t))).
      constructor; [lia | exact Hh].
Qed.

Lemma sorted_by_id_sorted (items : list (string * nat)) :
  StronglySorted (fun x y : string * nat => (snd x <= snd y)%nat) (sorted_by_id items).
Proof.
  induction items as [| kv items IH]; simpl; [constructor |].
  now apply insert_sorted.
Qed.

Lemma sorted_ids_increasing (s : list (string * nat)) :
  StronglySorted (fun x y : string * nat => (snd x <= snd y)%nat) s ->
  NoDup (map snd s) ->
  StronglySorted lt (map snd s).
Proof.
  induction 1 as [| h t Ht IH Hh]; simpl; intros Hnd; [constructor |].
  inversion Hnd as [| ? ? Hnin Hnd']; subst.
  constructor; [now apply IH |].
  apply Forall_forall. intros i Hi.
  apply in_map_iff in Hi as (e & <- & He).
  rewrite Forall_forall in Hh. specialize (Hh _ He). simpl in Hh.
  assert (snd h <> snd e) by (intros E; apply Hnin; rewrite E; now apply in_map).
  lia.
Qed.

Lemma increasing_bound (l : list nat) :
  StronglySorted lt l ->
  forall lo hi, Forall (fun x => (lo <= x < hi)%nat) l -> (length l <= hi - lo)%nat.
Proof.
  induction 1 as [| x l Hl IH Hx]; intros lo hi Hall; simpl; [lia |].
  inversion Hall as [| ? ? Hxb Hall']; subst.
  assert (Hl' : Forall (fun y => (S x <= y < hi)%nat) l).
  { apply Forall_forall. intros y Hy. rewrite Forall_forall in Hx, Hall'.
    specialize (Hx _ Hy). specialize (Hall' _ Hy). lia. }
  specialize (IH _ _ Hl'). lia.
Qed.

Lemma increasing_is_seq (l : list nat) :
  StronglySorted lt l ->
  forall a, Forall (fun x => (a <= x < a + length l)%nat) l -> l = seq a (length l).
Proof.
  induction 1 as [| x l Hl IH Hx]; intros a Hall; simpl; [reflexivity |].
  inversion Hall as [| ? ? Hxb Hall']; subst. simpl in Hxb, Hall'.
  assert (Hl' : Forall (fun y => (S x <= y < a + S (length l))%nat) l).
  { apply Forall_forall. intros y Hy. rewrite Forall_forall in Hx, Hall'.
    specialize (Hx _ Hy). specialize (Hall' _ Hy). lia. }
  pose proof (increasing_bound l Hl _ _ Hl') as Hb.
  assert (x = a) by lia. subst x. f_equal.
  apply IH. eapply Forall_impl; [| exact Hl']. intros y Hy. simpl in Hy. lia.
Qed.

(** When the identifiers of the dictionary are the numbers 0 to [n - 1],
    each used once, the embedding matrix has one row per KC, and row [i] is
    the embedding of the name of the KC whose identifier is [i], whatever
    the order in which the dictionary was filled. *)
Theorem embedding_rows_follow_kc_ids
    (embedding : Type) (encode_sentence : string -> embedding) (kc_dict : kc_dict_t) :
  NoDup (map snd kc_dict) ->
  Forall (fun kv : string * nat => (snd kv < length kc_dict)%nat) kc_dict ->
  length (compute_kc_emb_matrix encode_sentence kc_dict) = length kc_dict
  /\ forall name i,
       In (name, i) kc_dict ->
       nth_error (compute_kc_emb_matrix encode_sentence kc_dict) i
       = Some (encode_sentence name).
Proof.
  intros Hnd Hall.
  pose proof (sorted_by_id_perm kc_dict) as Hperm.
  pose proof (sorted_by_id_sorted kc_dict) as Hsorted.
  set (s := sorted_by_id kc_dict) in *.
  assert (Hlen : length s = length kc_dict) by (now apply Permutation_length).
  assert (Hids : map snd s = seq 0 (length kc_dict)).
  { rewrite <- Hlen, <- (length_map snd s).
    apply increasing_is_seq.
    - apply sorted_ids_increasing; [exact Hsorted |].
      eapply Permutation_NoDup; [| exact Hnd].
      apply Permutation_map. now apply Permutation_sym.
    - rewrite length_map, Hlen. apply Forall_map.
      apply (Permutation_Forall (Permutation_sym Hperm)).
      eapply Forall_impl; [| exact Hall]. intros kv Hkv. simpl in *. lia. }
  unfold compute_kc_emb_matrix, encode. fold s. split.
  - now rewrite !length_map.
  - intros name i Hin.
    apply (Permutation_in _ (Permutation_sym Hperm)) in Hin.
    apply In_nth_error in Hin as (p & Hp).
    assert (Hpi : nth_error (map snd s) p = Some i)
      by (rewrite nth_error_map, Hp; reflexivity).
    rewrite Hids in Hpi.
    assert (Hlt : (p < length kc_dict)%nat).
    { rewrite <- Hlen. apply nth_error_Some. congruence. }
    rewrite nth_error_seq in Hpi.
    destruct (Nat.ltb_spec p (length kc_dict)) as [_ | Hge]; [| lia].
    injection Hpi as <-. simpl.
    rewrite !nth_error_map, Hp. reflexivity.
Qed.

Lemma embedding_rows_follow_kc_ids_witness :
  compute_kc_emb_matrix String.length [("fractions", 2%nat); ("sum", 0%nat); ("ratio", 1%nat)]%string
  = [3; 5; 9]%nat
  /\ nth_error (compute_kc_emb_matrix String.length
                  [("fractions", 2%nat); ("sum", 0%nat); ("ratio", 1%nat)]%string) 2
     = Some (String.length "fractions").
Proof.
  split; [reflexivity |].
  apply (embedding_rows_follow_kc_ids nat String.length
           [("fractions", 2%nat); ("sum", 0%nat); ("ratio", 1%nat)]%string).
  - repeat constructor; simpl; intuition discriminate.
  - repeat constructor.
  - now left.
Defined.

End KCEmbeddings.

(** ** The exported KC probabilities, for every batch size *)

Section KCExport.

Import LMKT EvalLM.

#[local] Arguments index : simpl never.

Lemma setdefault_append_in (d : index_map) (k v : nat) :
  NoDup (map fst d) ->
  forall kv, In kv (setdefault_append d k v) ->
    (In kv d /\ fst kv <> k)
    \/ (exists l, kv = (k, l ++ [v]) /\ In (k, l) d)
    \/ (kv = (k, [v]) /\ ~ In k (map fst d)).
Proof.
  induction d as [| [k' l] d IH]; simpl; intros Hnd kv Hin.
  - destruct Hin as [<- | []]. right. right. split; [reflexivity | tauto].
  - inversion Hnd as [| ? ? Hnin Hnd']; subst.
    destruct (Nat.eqb_spec k' k) as [-> | Hne].
    + destruct Hin as [<- | Hin].
      * right. left. exists l. split; [reflexivity | now left].
      * left. split; [now right |]. intros E. apply Hnin. rewrite <- E.
        now apply in_map.
    + destruct Hin as [<- | Hin].
      * left. split; [now left | exact Hne].
      * destruct (IH Hnd' _ Hin) as [[H1 H2] | [(l' & -> & H1) | [-> H1]]].
        -- left. split; [now right | exact H2].
        -- right. left. exists l'. split; [reflexivity | now right].
        -- right. right. split; [reflexivity |]. intros [E | E]; [now apply Hne | now apply H1].
Qed.

Lemma first_seen_In (k : nat) (ids : list nat) :
  In k ids -> In k (first_seen [] ids).
Proof.
  intros Hin.
  assert (E : existsb (Nat.eqb k) (first_seen [] ids) = true).
  { rewrite existsb_first_seen. simpl. rewrite andb_true_r.
    apply existsb_exists. exists k. split; [exact Hin | apply Nat.eqb_refl]. }
  apply existsb_exists in E as (j & Hj & Ej). apply Nat.eqb_eq in Ej. now subst.
Qed.

Lemma setdefault_append_counted (d : index_map) (ids : list nat) (k v : nat) :
  map fst d = first_seen [] ids ->
  counted d ids -> counted (setdefault_append d k v) (ids ++ [k]).
Proof.
  intros Hkeys Hc kv Hin.
  assert (Hnd : NoDup (map fst d)) by (rewrite Hkeys; apply NoDup_first_seen).
  rewrite count_occ_app. cbn [count_occ].
  destruct (setdefault_append_in d k v Hnd kv Hin)
    as [[H1 H2] | [(l & -> & H1) | [-> H1]]].
  - rewrite (Hc _ H1). destruct (Nat.eq_dec k (fst kv)); [congruence | lia].
  - specialize (Hc _ H1). cbn [fst snd] in *. rewrite length_app, Hc. cbn [length].
    destruct (Nat.eq_dec k k); [reflexivity | contradiction].
  - cbn [fst snd length]. destruct (Nat.eq_dec k k); [| contradiction].
    assert (Hz : count_occ Nat.eq_dec ids k = 0%nat).
    { apply count_occ_not_In. intros Hk. apply H1. rewrite Hkeys.
      now apply first_seen_In. }
    now rewrite Hz.
Qed.

Lemma setdefault_append_below (d : index_map) (k v m : nat) :
  (v < m)%nat -> below d m -> below (setdefault_append d k v) m.
Proof.
  intros Hv Hb. induction d as [| [k' l] d IH]; simpl.
  - intros kv i [<- | []] [<- | []]. exact Hv.
  - assert (Hd : below d m) by (intros kv i H1 H2; apply (Hb kv i); [now right | exact H2]).
    destruct (k' =? k)%nat.
    + intros kv i [<- | Hin] Hi.
      * cbn [snd] in Hi. apply in_app_or in Hi as [Hi | [<- | []]]; [| exact Hv].
        apply (Hb (k', l) i); [now left | exact Hi].
      * now apply (Hd kv i).
    + intros kv i [<- | Hin] Hi.
      * apply (Hb (k', l) i); [now left | exact Hi].
      * now apply (IH Hd kv i).
Qed.

Lemma record_samples_counted (batch_idx m : nat) (meta : list sample) :
  forall (d : index_map) (sample_idx : nat) (ids : list nat),
    map fst d = first_seen [] ids ->
    counted d ids -> below d m ->
    (batch_idx + sample_idx + length meta <= m)%nat ->
    counted (record_samples d batch_idx sample_idx meta) (ids ++ map dialogue_idx meta)
    /\ below (record_samples d batch_idx sample_idx meta) m.
Proof.
  induction meta as [| s rest IH]; intros d sample_idx ids Hkeys Hc Hb Hle; simpl in *.
  - rewrite app_nil_r. now split.
  - replace (ids ++ dialogue_idx s :: map dialogue_idx rest)
      with ((ids ++ [dialogue_idx s]) ++ map dialogue_idx rest)
      by (now rewrite <- app_assoc).
    apply IH; [| | | lia].
    + rewrite setdefault_append_keys, first_seen_snoc, Hkeys.
      rewrite existsb_first_seen. simpl. now rewrite andb_true_r.
    + now apply setdefault_append_counted.
    + apply setdefault_append_below; [lia | exact Hb].
Qed.

Lemma below_weaken (d : index_map) (n m : nat) :
  (n <= m)%nat -> below d n -> below d m.
Proof. intros Hle Hb kv i H1 H2. specialize (Hb kv i H1 H2). lia. Qed.

Lemma Forall2_In_r {A B} (R : A -> B -> Prop) (l : list A) (r : list B) :
  Forall2 R l r -> forall y, In y r -> exists x, In x l /\ R x y.
Proof.
  induction 1 as [| x y l r Hxy _ IH]; intros z Hz; [contradiction |].
  destruct Hz as [<- | Hz]; [exists x; split; [now left | exact Hxy] |].
  destruct (IH _ Hz) as (x' & Hx' & HR). exists x'. split; [now right | exact HR].
Qed.

Variable Batch : Type.
Variable meta_data : Batch -> list sample.
Variable labels : Batch -> list Z.
Variable get_loss : Batch -> result (Q * list (list Q) * list Q).

Lemma batches_from_export (loader : list Batch) :
  Forall (grouped_batch meta_data get_loss) loader ->
  forall (st st' : collected) (n : nat) (ids : list nat),
    batches_from meta_data labels get_loss st n loader = Ok st' ->
    map fst (dialogue_idx_to_sample_idxs st) = first_seen [] ids ->
    counted (dialogue_idx_to_sample_idxs st) ids ->
    below (dialogue_idx_to_sample_idxs st) (length (all_kcs st)) ->
    length (all_kc_probs st) = length (all_kcs st) ->
    (n <= length (all_kcs st))%nat ->
    map fst (dialogue_idx_to_sample_idxs st')
    = first_seen [] (ids ++ dialogue_ids meta_data loader)
    /\ counted (dialogue_idx_to_sample_idxs st') (ids ++ dialogue_ids meta_data loader)
    /\ below (dialogue_idx_to_sample_idxs st') (length (all_kcs st'))
    /\ length (all_kc_probs st') = length (all_kcs st').
Proof.
  induction 1 as [| b rest (Hne & Hkc) _ IH];
    intros st st' n ids H Hkeys Hc Hb Hp Hn; simpl in H.
  - injection H as <-. unfold dialogue_ids. simpl. rewrite app_nil_r. auto.
  - apply bind_ok in H as (st1 & H1 & H).
    unfold process_batch in H1.
    apply bind_ok in H1 as ([[loss kc] corr] & Hloss & H1). injection H1 as <-.
    specialize (Hkc _ _ _ Hloss).
    assert (Hm : (0 < length (meta_data b))%nat)
      by (destruct (meta_data b); [contradiction | simpl; lia]).
    replace (ids ++ dialogue_ids meta_data (b :: rest))
      with ((ids ++ map dialogue_idx (meta_data b)) ++ dialogue_ids meta_data rest)
      by (unfold dialogue_ids; simpl; now rewrite map_app, app_assoc).
    destruct (record_samples_counted n (length (all_kcs st) + length (meta_data b))
                (meta_data b) (dialogue_idx_to_sample_idxs st) 0 ids Hkeys Hc)
      as [Hc' Hb']; [eapply below_weaken; [| exact Hb]; lia | lia |].
    apply (IH _ _ _ _ H);
      cbn [dialogue_idx_to_sample_idxs all_kcs all_kc_probs];
      rewrite ?length_app, ?length_map.
    + now apply record_samples_keys.
    + exact Hc'.
    + exact Hb'.
    + congruence.
    + lia.
Qed.

(** Whatever the batch size: on batches with at least one turn and one
    group of KC probabilities per turn, building the exported KC results
    does not fail; they hold one entry per dialogue, in the order in which
    the dialogues first appear, and the entry of a dialogue has as many
    turns as the dialogue has in the test set. *)
Theorem kc_results_one_entry_per_dialogue (loader : list Batch) (st : collected) :
  Forall (grouped_batch meta_data get_loss) loader ->
  collect meta_data labels get_loss loader = Ok st ->
  exists kc,
    kc_results_of st = Ok kc
    /\ map fst kc = first_seen [] (dialogue_ids meta_data loader)
    /\ forall d turns,
         In (d, turns) kc ->
         length turns = count_occ Nat.eq_dec (dialogue_ids meta_data loader) d.
Proof.
  intros Hall H. unfold collect in H.
  destruct (batches_from_export loader Hall _ _ _ [] H eq_refl)
    as (Hk & Hc & Hb & Hp).
  { intros kv []. }
  { intros kv i []. }
  { reflexivity. }
  { apply Nat.le_refl. }
  simpl in Hk, Hc.
  assert (Htotal :
            Forall (fun kv : nat * list nat =>
                      exists r,
                        (turns <- mapM (fun sample_idx =>
                                          ks <- index (all_kcs st) sample_idx ;;
                                          ps <- index (all_kc_probs st) sample_idx ;;
                                          Ok (combine ks ps))
                                       (snd kv) ;;
                         Ok (fst kv, turns)) = Ok r
                        /\ True)
                   (dialogue_idx_to_sample_idxs st)).
  { apply Forall_forall. intros kv Hkv.
    destruct (mapM_total
                (fun sample_idx =>
                   ks <- index (all_kcs st) sample_idx ;;
                   ps <- index (all_kc_probs st) sample_idx ;;
                   Ok (combine ks ps))
                (fun _ => True) (snd kv)) as (turns & Ht & _ & Hlen).
    - apply Forall_forall. intros i Hi. specialize (Hb kv i Hkv Hi).
      unfold index.
      destruct (nth_error (all_kcs st) i) as [ks |] eqn:E1;
        [| apply nth_error_None in E1; lia].
      destruct (nth_error (all_kc_probs st) i) as [ps |] eqn:E2;
        [| apply nth_error_None in E2; lia].
      simpl. eexists. split; [reflexivity | exact I].
    - rewrite Ht. simpl. eexists. split; [reflexivity | exact I]. }
  destruct (mapM_total _ (fun _ => True) _ Htotal) as (kc & Hkc & _).
  exists kc. split; [exact Hkc |].
  pose proof (mapM_ok _ _ _ Hkc) as HF.
  assert (HF' : Forall2 (fun (kv : nat * list nat) (r : nat * list (list (string * Q))) =>
                           fst r = fst kv /\ length (snd r) = length (snd kv))
                        (dialogue_idx_to_sample_idxs st) kc).
  { clear - HF. induction HF as [| kv r d kc Hr _ IH]; constructor; [| exact IH].
    apply bind_ok in Hr as (turns & Ht & Hr). injection Hr as <-.
    split; [reflexivity |]. simpl. now apply mapM_length in Ht. }
  split.
  - rewrite <- Hk. clear - HF'.
    induction HF' as [| kv r d kc [Hr _] _ IH]; simpl; [reflexivity | congruence].
  - intros d turns Hin.
    destruct (Forall2_In_r _ _ _ HF' _ Hin) as (kv & Hkv & Hfst & Hlen).
    simpl in Hfst, Hlen. rewrite Hlen, (Hc _ Hkv). now rewrite Hfst.
Qed.

End KCExport.

Lemma kc_results_one_entry_per_dialogue_witness :
  exists st kc,
    EvalLM.collect LMKT.u_meta_data LMKT.u_labels
      (LMKT.get_lmkt_loss_unpacked sample_funs 0 1 sample_lm) loader_of_two = Ok st
    /\ EvalLM.kc_results_of st = Ok kc
    /\ map fst kc = [0; 1]%nat.
Proof.
  assert (Hall : Forall (grouped_batch LMKT.u_meta_data
                           (LMKT.get_lmkt_loss_unpacked sample_funs 0 1 sample_lm))
                        loader_of_two).
  { repeat constructor; try discriminate;
      intros loss kc corr H; vm_compute in H; injection H as _ <- _; reflexivity. }
  destruct (EvalLM.collect LMKT.u_meta_data LMKT.u_labels
              (LMKT.get_lmkt_loss_unpacked sample_funs 0 1 sample_lm) loader_of_two)
    as [st | e] eqn:E; [| vm_compute in E; discriminate].
  destruct (kc_results_one_entry_per_dialogue _ _ _ _ _ _ Hall E) as (kc & Hkc & Hk & _).
  exists st, kc. split; [reflexivity |]. split; [exact Hkc | exact Hk].
Defined.

(** * The aggregators, from the KC probabilities of the model *)

Section AggregatorsFromProbabilities.

Import LMKT Baselines.

Lemma group_loop_concat (segs : list (list Q)) :
  forall pre : list Q,
    fst (group_loop (pre ++ concat segs) (map (@length Q) segs) (length pre)) = segs.
Proof.
  induction segs as [| s segs IH]; intros pre; simpl; [reflexivity |].
  specialize (IH (pre ++ s)). rewrite length_app, <- app_assoc in IH.
  destruct (group_loop (pre ++ s ++ concat segs) (map (@length Q) segs)
                       (length pre + length s)) as [g c].
  simpl in *. f_equal; [apply slice_middle | exact IH].
Qed.

Lemma real_slots_lengths (kc : list (list Q)) (nums : list nat) :
  Forall2 (fun (row : list Q) (n : nat) => (n <= length row)%nat) kc nums ->
  map (@length Q) (map (fun pn : list Q * nat => firstn (snd pn) (fst pn))
                       (combine kc nums)) = nums.
Proof.
  induction 1 as [| row n kc nums Hn _ IH]; simpl; [reflexivity |].
  rewrite IH, length_firstn. f_equal. lia.
Qed.

Lemma packed_rows_ok (kc : list (list Q)) (last_idxs : list (list nat)) :
  Forall2 (fun probs idxs => length probs = length idxs) kc last_idxs ->
  forall nums : list nat,
    length nums = length last_idxs ->
    forallb (fun ni : nat * list nat => padded_row (fst ni) (snd ni))
            (combine nums last_idxs) = true ->
    mapM (fun pl : list Q * list nat => corr_prob_packed (fst pl) (snd pl))
         (combine kc last_idxs)
    = Ok (map prod (map (fun pn : list Q * nat => firstn (snd pn) (fst pn))
                        (combine kc nums))).
Proof.
  induction 1 as [| probs idxs kc last_idxs Hlen _ IH];
    intros [| n nums] Hn Hpad; simpl in *; try discriminate; [reflexivity |].
  apply andb_true_iff in Hpad as [Hrow Hpad].
  rewrite (corr_prob_packed_row _ _ _ Hrow Hlen). simpl.
  rewrite (IH nums) by (congruence || assumption). reflexivity.
Qed.

Lemma prod_exists_zero (ps : list Q) : Exists (fun p => p == 0) ps -> prod ps == 0.
Proof.
  intros H. apply Exists_exists in H as (z & Hin & Hz).
  apply in_split in Hin as (l & r & ->). now apply prod_zero.
Qed.

Lemma nth_error_combine_intro {A B} (l : list A) (m : list B) (i : nat) (x : A) (y : B) :
  nth_error l i = Some x -> nth_error m i = Some y ->
  nth_error (combine l m) i = Some (x, y).
Proof.
  revert m i. induction l as [| a l IH]; intros [| b m] [| i] Hx Hy; simpl in *;
    try discriminate.
  - now injection Hx as ->; injection Hy as ->.
  - now apply IH.
Qed.

Lemma group_loop_length (kc_probs : list Q) (nums : list nat) :
  forall counter, length (fst (group_loop kc_probs nums counter)) = length nums.
Proof.
  induction nums as [| n rest IH]; intros counter; simpl; [reflexivity |].
  specialize (IH (counter + n)%nat).
  destruct (group_loop kc_probs rest (counter + n)) as [g c]. simpl in *.
  now rewrite IH.
Qed.

(** The entries of the correctness probabilities of the baseline loss. *)
Lemma baseline_corr_entries (ff : float_funs) (y : tensor3) (b : batch) (loss : Q)
    (corr : list (list Q)) :
  labels_shaped b ->
  get_baseline_loss ff y b = Ok (loss, corr) ->
  Forall2 (fun crow lrow => length crow = (length lrow - 1)%nat) corr (labels b)
  /\ forall i t c,
       at2 corr i t = Some c ->
       exists yt ids n g,
         at2 y i t = Some yt /\ at2 (kc_ids b) i (S t) = Some ids
         /\ at2 (num_kcs b) i (S t) = Some n
         /\ gather_row yt ids = Ok g /\ c = prod (firstn n g).
Proof.
  intros Hshape H. unfold get_baseline_loss in H.
  apply bind_ok in H as (kp & Hkp & H).
  apply bind_ok in H as (dialogues & Hd & H).
  apply bind_ok in H as (corr0 & Hcorr & H).
  apply bind_ok in H as (labels_sel & _ & H).
  apply bind_ok in H as (corr_sel & _ & H).
  apply bind_ok in H as (loss0 & _ & H).
  injection H as -> ->.
  apply zip_strict_ok in Hd as [-> Hdlen].
  split.
  - pose proof (corr_rows_shape _ _ _ Hcorr Hdlen) as H1.
    pose proof (gather_dim2_shape _ _ _ Hkp) as H2.
    apply Forall2_length_trans with (m := kp); [exact H1 |].
    clear - H2 Hshape. unfold labels_shaped in Hshape.
    revert kp H2. induction Hshape as [| lrow idsrow ls ids Hl _ IH]; intros kp H2;
      simpl in H2; inversion H2; subst; constructor; [| auto].
    match goal with Hk : length _ = length (tl idsrow) |- _ => rewrite Hk end.
    rewrite Hl. destruct idsrow; simpl; lia.
  - intros i t c Hc. unfold at2 in Hc.
    destruct (nth_error corr i) as [crow |] eqn:Ei; [| discriminate].
    destruct (nth_error_mapM _ _ _ Hcorr _ _ Ei) as ([kprow mrow] & Hpm & Hdial).
    apply nth_error_combine in Hpm as [Hkprow Hmrow]. simpl in Hdial.
    unfold corr_probs_dialogue in Hdial.
    apply bind_ok in Hdial as (rows & Hrows' & Hdial).
    apply zip_strict_ok in Hrows' as [-> _].
    destruct (nth_error_mapM _ _ _ Hdial _ _ Hc) as ([g m] & Hgm & Hturn).
    apply nth_error_combine in Hgm as [Hg Hm].
    destruct (gather_dim2_nth _ _ _ Hkp) as [_ Hnth].
    destruct (Hnth _ _ Hkprow) as (yb & idsb & Hyb & Hidsb & Hturns).
    destruct (gather_turns_nth _ _ _ Hturns) as [_ Hnth'].
    destruct (Hnth' _ _ Hg) as (yt & it & Hyt & Hit & Hrow).
    apply nth_error_map_inv in Hyb as (yb0 & Hyb0 & ->).
    apply nth_error_removelast in Hyt as [Hyt _].
    apply nth_error_map_inv in Hidsb as (idsb0 & Hidsb0 & ->).
    rewrite nth_error_tl in Hit.
    apply nth_error_map_inv in Hmrow as (mrow0 & Hmrow0 & ->).
    unfold kc_pad_mask in Hmrow0.
    apply nth_error_map_inv in Hmrow0 as (nrow & Hnrow & ->).
    rewrite nth_error_tl in Hm.
    apply nth_error_map_inv in Hm as (n & Hn & ->).
    exists yt, it, n, g. unfold at2. rewrite Hyb0, Hidsb0, Hnrow.
    repeat split; try assumption.
    eapply corr_prob_turn_masked; eassumption.
Qed.

Variable ff : float_funs.
Variables true_token false_token : nat.

(** C2.  The two models give the same probability to every (turn, KC) pair:
    the probabilities [kc_u] that the unpacked aggregator computes, one per
    row, are those that the packed aggregator computes at the real slots of
    its rows, turn after turn ([same_probabilities]); the batches have the
    same KC counts and labels, and the packed batch satisfies the padding
    invariant.  Then the two aggregators return the same result: the same
    groups of KC probabilities, the same correctness probability for each
    turn (the product of the probabilities of its KCs) and the same loss. *)
Theorem packed_unpacked_equivalence
    (model_u model_p : lm) (bu : batch_unpacked) (bp : batch_packed)
    (kc_u : list Q) (kc_p : list (list Q)) :
  kc_probs_unpacked ff true_token false_token
    (forward model_u (u_input_ids bu) (u_attention_mask bu) None) (u_last_idxs bu)
    = Ok kc_u ->
  kc_probs_packed ff true_token false_token
    (forward model_p (p_input_ids bp)
             (invert_mask (finfo_min (dtype model_p)) (p_attention_mask bp))
             (Some (p_position_ids bp)))
    (p_last_idxs bp)
    = Ok kc_p ->
  same_probabilities kc_u kc_p (p_num_kcs bp) ->
  u_num_kcs bu = p_num_kcs bp ->
  u_labels bu = p_labels bp ->
  padding_invariant bp = true ->
  p_num_kcs bp <> [] ->
  get_lmkt_loss_unpacked ff true_token false_token model_u bu
  = snd (get_lmkt_loss_packed ff true_token false_token model_p bp)
  /\ forall loss grouped corr,
       get_lmkt_loss_unpacked ff true_token false_token model_u bu
       = Ok (loss, grouped, corr) ->
       grouped = map (fun pn : list Q * nat => firstn (snd pn) (fst pn))
                     (combine kc_p (p_num_kcs bp))
       /\ corr = map prod grouped
       /\ BCELoss ff corr (map inject_Z (p_labels bp)) = Ok loss.
Proof.
  intros Hu Hp [Hslots Hsame] Hnums Hlabels Hinv Hne.
  set (segs := map (fun pn : list Q * nat => firstn (snd pn) (fst pn))
                   (combine kc_p (p_num_kcs bp))) in *.
  assert (Hseg : map (@length Q) segs = p_num_kcs bp) by now apply real_slots_lengths.
  assert (Hgroup : group_loop kc_u (u_num_kcs bu) 0 = (segs, map prod segs)).
  { pose proof (group_loop_concat segs []) as Hg. cbn [app length] in Hg.
    pose proof (group_loop_corr kc_u (u_num_kcs bu) 0) as Hc.
    rewrite Hnums, Hsame, <- Hseg in *.
    destruct (group_loop (concat segs) (map (@length Q) segs) 0) as [g c].
    simpl in Hg, Hc. now subst. }
  assert (Hunpacked :
            get_lmkt_loss_unpacked ff true_token false_token model_u bu
            = (loss <- BCELoss ff (map prod segs) (map inject_Z (p_labels bp)) ;;
               Ok (loss, segs, map prod segs))).
  { unfold get_lmkt_loss_unpacked. rewrite Hu. cbn [Py.bind]. rewrite Hgroup.
    assert (Hstack : stack (map prod segs) = Ok (map prod segs)).
    { destruct segs as [| s segs']; [| reflexivity].
      simpl in Hseg. symmetry in Hseg. contradiction. }
    rewrite Hstack. cbn [Py.bind]. now rewrite Hlabels. }
  assert (Hpacked :
            snd (get_lmkt_loss_packed ff true_token false_token model_p bp)
            = (loss <- BCELoss ff (map prod segs) (map inject_Z (p_labels bp)) ;;
               Ok (loss, segs, map prod segs))).
  { unfold get_lmkt_loss_packed.
    cbn [snd p_last_idxs p_num_kcs p_labels p_input_ids p_attention_mask
         p_position_ids].
    rewrite Hp. cbn [Py.bind].
    pose proof (kc_probs_packed_shape ff true_token false_token _ _ _ Hp) as Hshape.
    rewrite (zip_strict_same_length _ _ (Forall2_length Hshape)). cbn [Py.bind].
    unfold padding_invariant in Hinv. apply andb_true_iff in Hinv as [Hn Hpad].
    apply Nat.eqb_eq in Hn.
    rewrite (packed_rows_ok _ _ Hshape _ Hn Hpad). cbn [Py.bind]. reflexivity. }
  split; [now rewrite Hunpacked, Hpacked |].
  intros loss grouped corr H. rewrite Hunpacked in H.
  apply bind_ok in H as (l & Hl & H). injection H as <- <- <-.
  repeat split. exact Hl.
Qed.

(** C5.  Whenever an aggregator returns, the correctness probability it
    gives to a turn is the product of the probabilities of the KCs of that
    turn, and so is zero as soon as one of them is zero:
    - unpacked: turn [t], with [n] KCs, owns the [n] rows that follow those
      of the turns before it, and its correctness probability is the
      product of the probabilities computed on these rows;
    - packed, on a batch that satisfies the padding invariant: the
      correctness probability of turn [t] is the product of the first [n]
      entries of its row, whatever the number of padding slots that follow
      and whatever is computed there;
    - baseline, on a batch whose label tensor has the shape of [kc_ids]:
      the correctness probability at position [t] of dialogue [i] is the
      product of the outputs gathered at the first [n] KC identifiers of
      turn [t + 1], [n] being the KC count of that turn, whatever the
      number of padding slots and the identifiers there.
    In each case there is one correctness probability per turn. *)
Theorem correctness_probability_is_product :
  (forall (model : lm) (batch : batch_unpacked) (kc : list Q)
          (loss : Q) (grouped : list (list Q)) (corr : list Q),
      kc_probs_unpacked ff true_token false_token
        (forward model (u_input_ids batch) (u_attention_mask batch) None)
        (u_last_idxs batch) = Ok kc ->
      get_lmkt_loss_unpacked ff true_token false_token model batch
        = Ok (loss, grouped, corr) ->
      length corr = length (u_num_kcs batch)
      /\ forall t n,
           nth_error (u_num_kcs batch) t = Some n ->
           let ps := slice kc (list_sum (firstn t (u_num_kcs batch))) n in
           exists c, nth_error corr t = Some c /\ c = prod ps
                     /\ (Exists (fun p => p == 0) ps -> c == 0))
  /\ (forall (model : lm) (batch : batch_packed) (kc : list (list Q))
             (loss : Q) (grouped : list (list Q)) (corr : list Q),
        kc_probs_packed ff true_token false_token
          (forward model (p_input_ids batch)
                   (invert_mask (finfo_min (dtype model)) (p_attention_mask batch))
                   (Some (p_position_ids batch)))
          (p_last_idxs batch) = Ok kc ->
        padding_invariant batch = true ->
        snd (get_lmkt_loss_packed ff true_token false_token model batch)
          = Ok (loss, grouped, corr) ->
        length corr = length (p_num_kcs batch)
        /\ length kc = length (p_num_kcs batch)
        /\ forall t n row,
             nth_error (p_num_kcs batch) t = Some n ->
             nth_error kc t = Some row ->
             let ps := firstn n row in
             exists c, nth_error corr t = Some c /\ c = prod ps
                       /\ (Exists (fun p => p == 0) ps -> c == 0))
  /\ (forall (y : tensor3) (b : batch) (loss : Q) (corr : list (list Q)),
        labels_shaped b ->
        get_baseline_loss ff y b = Ok (loss, corr) ->
        Forall2 (fun crow lrow => length crow = (length lrow - 1)%nat) corr (labels b)
        /\ forall i t c,
             at2 corr i t = Some c ->
             exists yt ids n g,
               at2 y i t = Some yt /\ at2 (kc_ids b) i (S t) = Some ids
               /\ at2 (num_kcs b) i (S t) = Some n
               /\ gather_row yt ids = Ok g
               /\ c = prod (firstn n g)
               /\ (Exists (fun p => p == 0) (firstn n g) -> c == 0)).
Proof.
  split; [| split].
  - intros model batch kc loss grouped corr Hkc H.
    unfold get_lmkt_loss_unpacked in H. rewrite Hkc in H. cbn [Py.bind] in H.
    pose proof (group_loop_corr kc (u_num_kcs batch) 0) as Hcorr.
    pose proof (group_loop_nth kc (u_num_kcs batch) 0) as Hnth.
    pose proof (group_loop_length kc (u_num_kcs batch) 0) as Hlen.
    destruct (group_loop kc (u_num_kcs batch) 0) as [g cl]. simpl in Hcorr, Hnth, Hlen.
    apply bind_ok in H as (cs & Hstack & H).
    apply bind_ok in H as (l & _ & H). injection H as <- <- <-.
    assert (cs = cl) by (destruct cl; [discriminate | now injection Hstack]).
    subst cs cl. split; [now rewrite length_map |].
    intros t n Ht ps. exists (prod ps). split; [| split; [reflexivity |]].
    + rewrite nth_error_map, (Hnth _ _ Ht). reflexivity.
    + apply prod_exists_zero.
  - intros model batch kc loss grouped corr Hkc Hinv H.
    unfold get_lmkt_loss_packed in H.
    cbn [snd p_last_idxs p_num_kcs p_labels p_input_ids p_attention_mask
         p_position_ids] in H.
    rewrite Hkc in H. cbn [Py.bind] in H.
    apply bind_ok in H as (rows & Hrows & H).
    apply bind_ok in H as (cp & Hcp & H).
    apply bind_ok in H as (l & _ & H). injection H as <- <- <-.
    apply zip_strict_ok in Hrows as [-> Hlen].
    unfold padding_invariant in Hinv. apply andb_true_iff in Hinv as [Hn Hpad].
    apply Nat.eqb_eq in Hn.
    pose proof (kc_probs_packed_shape ff true_token false_token _ _ _ Hkc) as Hshape.
    pose proof (packed_rows _ _ Hshape _ _ Hn Hpad Hcp) as ->.
    assert (Hkn : length kc = length (p_num_kcs batch)) by congruence.
    split; [| split; [exact Hkn |]].
    + rewrite !length_map, length_combine. lia.
    + intros t n row Ht Hrow ps. exists (prod ps).
      split; [| split; [reflexivity | apply prod_exists_zero]].
      rewrite !nth_error_map, (nth_error_combine_intro _ _ _ _ _ Hrow Ht).
      reflexivity.
  - intros y b loss corr Hshape H.
    destruct (baseline_corr_entries ff y b loss corr Hshape H) as [Hrows Hentry].
    split; [exact Hrows |].
    intros i t c Hc. destruct (Hentry i t c Hc) as (yt & ids & n & g & H1 & H2 & H3 & H4 & H5).
    exists yt, ids, n, g. repeat split; try assumption.
    intros Hz. rewrite H5. now apply prod_exists_zero.
Qed.

End AggregatorsFromProbabilities.

Lemma packed_unpacked_equivalence_witness :
  same_probabilities [1 # 2; 2 # 3; 3 # 4] [[1 # 2; 2 # 3]; [3 # 4; 9 # 10]]
                     (LMKT.p_num_kcs sample_packed)
  /\ padding_invariant sample_packed = true
  /\ LMKT.get_lmkt_loss_unpacked sample_funs 0 1 sample_lm sample_unpacked
     = Ok (816 # 1152, [[1 # 2; 2 # 3]; [3 # 4]], [2 # 6; 3 # 4])
  /\ LMKT.get_lmkt_loss_unpacked sample_funs 0 1 sample_lm sample_unpacked
     = snd (LMKT.get_lmkt_loss_packed sample_funs 0 1 sample_lm sample_packed).
Proof.
  assert (Hs : same_probabilities [1 # 2; 2 # 3; 3 # 4]
                 [[1 # 2; 2 # 3]; [3 # 4; 9 # 10]] (LMKT.p_num_kcs sample_packed)).
  { split; [repeat constructor | reflexivity]. }
  assert (Hi : padding_invariant sample_packed = true) by reflexivity.
  split; [exact Hs |]. split; [exact Hi |]. split; [reflexivity |].
  refine (proj1 (packed_unpacked_equivalence sample_funs 0 1 sample_lm sample_lm
                   sample_unpacked sample_packed
                   [1 # 2; 2 # 3; 3 # 4] [[1 # 2; 2 # 3]; [3 # 4; 9 # 10]]
                   eq_refl eq_refl Hs eq_refl eq_refl Hi _)).
  discriminate.
Defined.

Lemma correctness_probability_is_product_witness :
  (exists c, nth_error [2 # 6; 3 # 4] 0 = Some c /\ c = prod [1 # 2; 2 # 3])
  /\ (exists c, nth_error [2 # 6; 3 # 4] 1 = Some c /\ c = prod [3 # 4])
  /\ Forall2 (fun (crow : list Q) (lrow : list Z) => length crow = (length lrow - 1)%nat)
             [[1 # 12; 1 # 7; 1]] (Baselines.labels sample_batch).
Proof.
  destruct (correctness_probability_is_product sample_funs 0 1) as (HU & HP & HB).
  split; [| split].
  - destruct (HU sample_lm sample_unpacked [1 # 2; 2 # 3; 3 # 4]
                 (816 # 1152) [[1 # 2; 2 # 3]; [3 # 4]] [2 # 6; 3 # 4]
                 eq_refl eq_refl) as [_ H].
    destruct (H 0%nat 2%nat eq_refl) as (c & Hc & Hp & _).
    exists c. split; [exact Hc | exact Hp].
  - destruct (HP sample_lm sample_packed [[1 # 2; 2 # 3]; [3 # 4; 9 # 10]]
                 (816 # 1152) [[1 # 2; 2 # 3]; [3 # 4]] [2 # 6; 3 # 4]
                 eq_refl eq_refl eq_refl) as (_ & _ & H).
    destruct (H 1%nat 1%nat [3 # 4; 9 # 10] eq_refl eq_refl) as (c & Hc & Hp & _).
    exists c. split; [exact Hc | exact Hp].
  - assert (Hs : labels_shaped sample_batch) by (repeat constructor).
    exact (proj1 (HB sample_outputs sample_batch (7476 # 14112) [[1 # 12; 1 # 7; 1]]
                     Hs eq_refl)).
Defined.

(** * The final turns that the baseline driver collects *)

Section BaselineDriverFinalTurns.

Import Metrics Baselines.

Lemma mapM_nth {A B} (f : A -> result B) (l : list A) (r : list B) :
  mapM f l = Ok r ->
  forall i x, nth_error l i = Some x -> exists y, f x = Ok y /\ nth_error r i = Some y.
Proof.
  intros H. apply mapM_ok in H.
  induction H as [| x y l r Hxy _ IH]; intros [| i] x0 Hx; simpl in *; try discriminate.
  - injection Hx as <-. eauto.
  - eauto.
Qed.

Lemma combine_seq_nth {A} (idxs : list A) :
  forall (s i : nat) (x : A),
    nth_error idxs i = Some x ->
    nth_error (combine (seq s (length idxs)) idxs) i = Some ((s + i)%nat, x).
Proof.
  induction idxs as [| y idxs IH]; intros s [| i] x H; simpl in *; try discriminate.
  - injection H as <-. now rewrite Nat.add_0_r.
  - rewrite (IH (S s) i x H). do 2 f_equal. lia.
Qed.

Lemma pick_nth {A} (x : list (list A)) (idxs : list Z) (r : list A) :
  pick x idxs = Ok r ->
  length r = length idxs
  /\ forall i idx,
       nth_error idxs i = Some idx ->
       exists row v, nth_error x i = Some row /\ zindex row idx = Ok v
                     /\ nth_error r i = Some v.
Proof.
  intros H. split; [exact (pick_length _ _ _ H) |].
  unfold pick in H. intros i idx Hi.
  destruct (mapM_nth _ _ _ H i _ (combine_seq_nth idxs 0 i idx Hi)) as (v & Hv & Hr).
  cbn [fst snd Nat.add] in Hv.
  apply bind_ok in Hv as (row & Hrow & Hv).
  unfold index in Hrow. destruct (nth_error x i) as [row' |] eqn:E; [| discriminate].
  injection Hrow as ->. exists row, v. repeat split; assumption.
Qed.

Lemma zindex_nonneg {A} (l : list A) (j : nat) : zindex l (Z.of_nat j) = index l j.
Proof.
  unfold zindex. destruct (Z.ltb_spec (Z.of_nat j) 0) as [H | _]; [lia |].
  now rewrite Nat2Z.id.
Qed.

Lemma not_ignored_true (l : Z) : not_ignored l = true <-> l <> IGNORE.
Proof.
  unfold not_ignored. rewrite negb_true_iff. apply Z.eqb_neq.
Qed.

Lemma not_ignored_false (l : Z) : not_ignored l = false <-> l = IGNORE.
Proof.
  unfold not_ignored. rewrite negb_false_iff. apply Z.eqb_eq.
Qed.

(** On a row padded at the end, the index that the driver computes is the
    position of the last label that is not ignored. *)
Lemma final_idx_position (row : list Z) :
  padded_at_end row ->
  exists j, final_idx row = Z.of_nat j
            /\ last_real_position row j
            /\ nth_error row j = Some (last (filter not_ignored row) 0%Z).
Proof.
  intros (real & pads & -> & Hne & Hr & Hp).
  assert (Hlen : (0 < length real)%nat) by (destruct real; [contradiction | simpl; lia]).
  exists (length real - 1)%nat.
  assert (Hnth : nth_error (real ++ pads) (length real - 1)
                 = Some (last (filter not_ignored (real ++ pads)) 0%Z)).
  { rewrite (filter_real _ _ Hr Hp), nth_error_app1 by lia.
    now apply nth_error_last. }
  split; [| split; [split |]].
  - unfold final_idx. rewrite (count_real _ _ Hr Hp). lia.
  - exists (last (filter not_ignored (real ++ pads)) 0%Z). split; [exact Hnth |].
    rewrite (filter_real _ _ Hr Hp). apply not_ignored_true.
    rewrite Forall_forall in Hr. apply Hr.
    exact (nth_error_In _ _ (nth_error_last real 0%Z Hne)).
  - intros j' l' Hj Hl'. rewrite nth_error_app2 in Hl' by lia.
    apply nth_error_In in Hl'. rewrite Forall_forall in Hp.
    now apply not_ignored_false, Hp.
  - exact Hnth.
Qed.

Variable ff : float_funs.
Variable fw : forwards.
Variable env : collaborators.
Variable a : args.
Variable fold : fold_t env.

Lemma process_batch_final (model : option baseline_model) (st st' : collected)
    (n : nat) (b : batch) :
  process_batch ff fw env a fold model st n b = Ok st' ->
  exists loss corr fl fp,
    predict ff fw env a fold model n b (map (@tl Z) (labels b)) = Ok (loss, corr)
    /\ pick (map (@tl Z) (labels b)) (map final_idx (map (@tl Z) (labels b))) = Ok fl
    /\ pick corr (map final_idx (map (@tl Z) (labels b))) = Ok fp
    /\ final_turn_labels st' = final_turn_labels st ++ fl
    /\ final_turn_preds st' = final_turn_preds st ++ fp.
Proof.
  unfold process_batch. intros H.
  apply bind_ok in H as ([loss corr] & Hpred & H).
  apply bind_ok in H as (labels_sel & _ & H).
  apply bind_ok in H as (preds_sel & _ & H).
  apply bind_ok in H as (final_labels & Hfl & H).
  apply bind_ok in H as (final_preds & Hfp & H).
  injection H as <-. rewrite final_idxs_of_mask in Hfl, Hfp.
  exists loss, corr, final_labels, final_preds. repeat split; assumption.
Qed.

Lemma batches_from_final_labels (model : option baseline_model) (loader : list batch) :
  Forall (fun b => Forall padded_at_end (map (@tl Z) (labels b))) loader ->
  forall (st st' : collected) (n : nat),
    batches_from ff fw env a fold model st n loader = Ok st' ->
    final_turn_labels st'
    = final_turn_labels st
      ++ map (fun row => last (filter not_ignored row) 0%Z)
             (flat_map (fun b => map (@tl Z) (labels b)) loader).
Proof.
  induction 1 as [| b rest Hb _ IH]; intros st st' n H; simpl in H.
  - injection H as <-. simpl. now rewrite app_nil_r.
  - apply bind_ok in H as (st1 & H1 & H).
    rewrite (IH _ _ _ H).
    destruct (process_batch_final _ _ _ _ _ H1) as (loss & corr & fl & fp & _ & Hfl & _ & -> & _).
    rewrite (pick_last_real_labels _ Hb) in Hfl. injection Hfl as <-.
    simpl. now rewrite map_app, app_assoc.
Qed.

Lemma batches_from_final_prefix (model : option baseline_model) (loader : list batch) :
  forall (st st' : collected) (n : nat),
    batches_from ff fw env a fold model st n loader = Ok st' ->
    exists ext, final_turn_labels st' = final_turn_labels st ++ ext.
Proof.
  induction loader as [| b rest IH]; intros st st' n H; simpl in H.
  - injection H as <-. exists []. now rewrite app_nil_r.
  - apply bind_ok in H as (st1 & H1 & H).
    destruct (IH _ _ _ H) as (ext & ->).
    destruct (process_batch_final _ _ _ _ _ H1) as (_ & _ & fl & _ & _ & _ & _ & -> & _).
    exists (fl ++ ext). now rewrite app_assoc.
Qed.

(** On label rows whose ignored entries are the padding at their end, with
    at least one label before it (the first turn apart):
    - each batch adds to the final-turn arrays one label and one prediction
      per dialogue row, which are the label and the correctness probability
      at the position of the last label of the row that is not ignored;
    - at the end of the loop, the final-turn labels are the last labels
      that are not ignored, dialogue row after dialogue row, over all the
      batches. *)
Theorem baseline_final_turn_labels :
  (forall (model : option baseline_model) (st st' : collected) (n : nat) (b : batch)
          (loss : Q) (corr : list (list Q)),
      Forall padded_at_end (map (@tl Z) (labels b)) ->
      predict ff fw env a fold model n b (map (@tl Z) (labels b)) = Ok (loss, corr) ->
      process_batch ff fw env a fold model st n b = Ok st' ->
      exists fl fp,
        final_turn_labels st' = final_turn_labels st ++ fl
        /\ final_turn_preds st' = final_turn_preds st ++ fp
        /\ length fl = length (labels b) /\ length fp = length (labels b)
        /\ forall i row,
             nth_error (map (@tl Z) (labels b)) i = Some row ->
             exists j l crow p,
               last_real_position row j
               /\ nth_error row j = Some l /\ nth_error fl i = Some l
               /\ nth_error corr i = Some crow
               /\ nth_error crow j = Some p /\ nth_error fp i = Some p)
  /\ (forall st : collected,
        Forall (fun b => Forall padded_at_end (map (@tl Z) (labels b)))
               (test_dataloader env a fold) ->
        collect ff fw env a fold = Ok st ->
        final_turn_labels st
        = map (fun row => last (filter not_ignored row) 0%Z)
              (flat_map (fun b => map (@tl Z) (labels b)) (test_dataloader env a fold))).
Proof.
  split.
  - intros model st st' n b loss corr Hpad Hpred H.
    destruct (process_batch_final _ _ _ _ _ H)
      as (loss' & corr' & fl & fp & Hpred' & Hfl & Hfp & Hl & Hp).
    rewrite Hpred in Hpred'. injection Hpred' as <- <-.
    destruct (pick_nth _ _ _ Hfl) as [Hlenl Hnl].
    destruct (pick_nth _ _ _ Hfp) as [Hlenp Hnp].
    rewrite !length_map in Hlenl, Hlenp.
    exists fl, fp. repeat split; try assumption.
    intros i row Hrow.
    assert (Hidx : nth_error (map final_idx (map (@tl Z) (labels b))) i
                   = Some (final_idx row))
      by (rewrite nth_error_map, Hrow; reflexivity).
    destruct (Hnl _ _ Hidx) as (row' & l & Hrow' & Hl' & Hfli).
    rewrite Hrow in Hrow'. injection Hrow' as <-.
    destruct (Hnp _ _ Hidx) as (crow & p & Hcrow & Hp' & Hfpi).
    rewrite Forall_forall in Hpad.
    destruct (final_idx_position row (Hpad _ (nth_error_In _ _ Hrow)))
      as (j & Hj & Hlast & _).
    rewrite Hj, zindex_nonneg in Hl'. rewrite Hj, zindex_nonneg in Hp'.
    unfold index in Hl', Hp'.
    destruct (nth_error row j) as [l0 |] eqn:El; [| discriminate].
    destruct (nth_error crow j) as [p0 |] eqn:Ep; [| discriminate].
    injection Hl' as ->. injection Hp' as ->.
    exists j, l, crow, p. split; [exact Hlast |]. repeat split; assumption.
  - intros st Hpad H. unfold collect in H.
    apply bind_ok in H as (model & _ & H).
    now rewrite (batches_from_final_labels _ _ Hpad _ _ _ H).
Qed.

(** A dialogue row without any labelled turn (every label after the first
    is the ignore sentinel) still contributes a final turn: the batch adds
    the ignore sentinel itself to the final-turn labels, at the rank of the
    row, and the sentinel is among the final-turn labels at the end of the
    loop. *)
Theorem unlabelled_row_yields_ignore_sentinel :
  (forall (model : option baseline_model) (st st' : collected) (n : nat) (b : batch)
          (i : nat) (row : list Z),
      process_batch ff fw env a fold model st n b = Ok st' ->
      nth_error (map (@tl Z) (labels b)) i = Some row ->
      row <> [] -> Forall (fun l => l = IGNORE) row ->
      nth_error (final_turn_labels st') (length (final_turn_labels st) + i)
      = Some IGNORE)
  /\ (forall (st : collected) (b : batch) (row : list Z),
        collect ff fw env a fold = Ok st ->
        In b (test_dataloader env a fold) ->
        In row (map (@tl Z) (labels b)) ->
        row <> [] -> Forall (fun l => l = IGNORE) row ->
        In IGNORE (final_turn_labels st)).
Proof.
  assert (Hbatch : forall model st st' n b i row,
             process_batch ff fw env a fold model st n b = Ok st' ->
             nth_error (map (@tl Z) (labels b)) i = Some row ->
             row <> [] -> Forall (fun l => l = IGNORE) row ->
             nth_error (final_turn_labels st') (length (final_turn_labels st) + i)
             = Some IGNORE).
  { intros model st st' n b i row H Hrow Hne Hign.
    destruct (process_batch_final _ _ _ _ _ H)
      as (loss & corr & fl & fp & _ & Hfl & _ & -> & _).
    destruct (pick_nth _ _ _ Hfl) as [_ Hnl].
    assert (Hidx : nth_error (map final_idx (map (@tl Z) (labels b))) i
                   = Some (final_idx row))
      by (rewrite nth_error_map, Hrow; reflexivity).
    destruct (Hnl _ _ Hidx) as (row' & l & Hrow' & Hl & Hfli).
    rewrite Hrow in Hrow'. injection Hrow' as <-.
    rewrite nth_error_app2 by lia.
    replace (length (final_turn_labels st) + i - length (final_turn_labels st))%nat
      with i by lia.
    rewrite Hfli. f_equal.
    assert (Hfalse : Forall (fun l => not_ignored l = false) row).
    { eapply Forall_impl; [| exact Hign]. intros l0 ->. now apply not_ignored_false. }
    assert (Hm1 : final_idx row = (-1)%Z).
    { unfold final_idx.
      pose proof (count_real [] row (Forall_nil _) Hfalse) as Hc. cbn [app] in Hc.
      rewrite Hc. reflexivity. }
    rewrite Hm1 in Hl.
    destruct (exists_last Hne) as (row0 & l0 & ->).
    rewrite zindex_last in Hl. injection Hl as <-.
    apply Forall_app in Hign as [_ Hl0]. now inversion Hl0. }
  split; [exact Hbatch |].
  intros st b row H Hb Hrow Hne Hign. unfold collect in H.
  apply bind_ok in H as (model & _ & H).
  revert H Hb. generalize empty_collected, 0%nat.
  induction (test_dataloader env a fold) as [| b0 rest IH]; intros st0 n H Hb;
    [contradiction |].
  simpl in H. apply bind_ok in H as (st1 & H1 & H).
  destruct Hb as [-> | Hb]; [| now apply (IH _ _ H)].
  apply In_nth_error in Hrow as (i & Hi).
  pose proof (Hbatch _ _ _ _ _ _ _ H1 Hi Hne Hign) as Hin.
  apply nth_error_In in Hin.
  destruct (batches_from_final_prefix _ _ _ _ _ H) as (ext & ->).
  apply in_or_app. now left.
Qed.

End BaselineDriverFinalTurns.

Lemma baseline_final_turn_labels_witness :
  exists st,
    Baselines.collect sample_funs sample_forwards (labels_pipeline sample_splits)
                      (sample_args "majority") tt = Ok st
    /\ Baselines.final_turn_labels st = [1; 0]%Z.
Proof.
  destruct (Baselines.collect sample_funs sample_forwards (labels_pipeline sample_splits)
              (sample_args "majority") tt) as [st | e] eqn:E;
    [| vm_compute in E; discriminate].
  exists st. split; [reflexivity |].
  refine (proj2 (baseline_final_turn_labels sample_funs sample_forwards
                   (labels_pipeline sample_splits) (sample_args "majority") tt)
                st _ E).
  repeat constructor.
  - exists [0; 0; 1]%Z, []. repeat split; try discriminate; repeat constructor.
  - exists [1; 0]%Z, [-100]%Z. repeat split; try discriminate; repeat constructor.
Defined.

Lemma unlabelled_row_yields_ignore_sentinel_witness :
  exists st,
    Baselines.collect sample_funs sample_forwards (labels_pipeline unlabelled_splits)
                      (sample_args "majority") tt = Ok st
    /\ In Baselines.IGNORE (Baselines.final_turn_labels st).
Proof.
  destruct (Baselines.collect sample_funs sample_forwards
              (labels_pipeline unlabelled_splits) (sample_args "majority") tt)
    as [st | e] eqn:E; [| vm_compute in E; discriminate].
  exists st. split; [reflexivity |].
  apply (proj2 (unlabelled_row_yields_ignore_sentinel sample_funs sample_forwards
                  (labels_pipeline unlabelled_splits) (sample_args "majority") tt)
               st (labels_batch [[-100; 1; 0]; [-100; -100; -100]]%Z)
               [-100; -100]%Z E).
  - now left.
  - right. now left.
  - discriminate.
  - repeat constructor.
Defined.
